(** * WebPGP: the master-password vault, the key store and the
      passphrase-retry handlers, embedded from the TypeScript sources

    Sources embedded here:
    - [src/lib/storage.ts]            (vault and persisted key collection)
    - [src/app/page.tsx]              (the state of [Home] and its callbacks)
    - [src/components/SignMessage.tsx], [src/components/DecryptMessage.tsx]
                                      (the passphrase-retry handlers)
    - [src/components/KeyManagement.tsx], [src/components/EncryptMessage.tsx],
      [src/components/VerifySignature.tsx]
                                      (import, generation, encryption,
                                       verification)

    OpenPGP.js, [JSON] and [localStorage] are outside the repository.  They
    are interfaces here ([OpenPGP], [Browser]); the functions of the
    repository are written once, over any implementation of them.

    Strings are byte strings holding the UTF-8 encoding of the JavaScript
    string.  [includes] on well-formed text agrees with the UTF-16 test of
    JavaScript because UTF-8 is self-synchronising.  [slice_last], [trim] and
    the regular expression of [handleGenerateKey] are defined on the UTF-16
    code units of the string ([code_units]), with the white space of
    ECMAScript. *)

From Stdlib Require Import ZArith NArith Bool Ascii Lia.
From stdpp Require Import base option list gmap strings pretty.

Open Scope string_scope.
Set Warnings "-register-all".

(** ** JavaScript values, strings and exceptions *)

Module Js.

(** [hay.includes(needle)] *)
Fixpoint includes (hay needle : string) : bool :=
  String.prefix needle hay ||
  match hay with
  | EmptyString => false
  | String _ rest => includes rest needle
  end.

(** What [JSON.parse] returns.  Numbers are kept as integers: the loader only
    looks at whether a value is falsy.  An object lists each of its own
    properties once. *)
Inductive jsval : Type :=
| JNull
| JBool (b : bool)
| JNum (n : Z)
| JStr (s : string)
| JArr (items : list jsval)
| JObj (fields : list (string * jsval)).

(** [!v] is false *)
Definition truthy (v : jsval) : bool :=
  match v with
  | JNull => false
  | JBool b => b
  | JNum n => negb (n =? 0)%Z
  | JStr s => negb (String.eqb s "")
  | JArr _ | JObj _ => true
  end.

Fixpoint assoc (name : string) (fields : list (string * jsval)) : option jsval :=
  match fields with
  | [] => None
  | (k, v) :: rest => if String.eqb k name then Some v else assoc name rest
  end.

(** [v.name] for the property names the loader reads ([keyId], [data],
    [type]); [None] is [undefined].  Only objects carry such properties. *)
Definition get_prop (v : jsval) (name : string) : option jsval :=
  match v with
  | JObj fields => assoc name fields
  | _ => None
  end.

(** *** Strings as JavaScript sees them

    A JavaScript string is a sequence of UTF-16 code units; [trim] and
    regular expressions work on those.  [code_units] reads them off the UTF-8
    bytes (one unit for a sequence of one, two or three bytes, a surrogate
    pair for a sequence of four); [utf8] writes them back. *)
Definition byte (c : ascii) : N := N_of_ascii c.
Definition chr (n : N) : ascii := ascii_of_N n.

Fixpoint code_units (s : string) : list N :=
  match s with
  | EmptyString => []
  | String c1 r1 =>
      let b1 := byte c1 in
      if (b1 <? 128)%N then b1 :: code_units r1
      else
        match r1 with
        | EmptyString => []
        | String c2 r2 =>
            let b2 := byte c2 in
            if (b1 <? 224)%N then ((b1 - 192) * 64 + (b2 - 128))%N :: code_units r2
            else
              match r2 with
              | EmptyString => []
              | String c3 r3 =>
                  let b3 := byte c3 in
                  if (b1 <? 240)%N
                  then ((b1 - 224) * 4096 + (b2 - 128) * 64 + (b3 - 128))%N
                       :: code_units r3
                  else
                    match r3 with
                    | EmptyString => []
                    | String c4 r4 =>
                        let p := ((b1 - 240) * 262144 + (b2 - 128) * 4096
                                  + (b3 - 128) * 64 + (byte c4 - 128) - 65536)%N in
                        (55296 + p / 1024)%N :: (56320 + p mod 1024)%N :: code_units r4
                    end
              end
        end
  end.

Definition three_bytes (u : N) (tail : string) : string :=
  String (chr (224 + u / 4096))
    (String (chr (128 + (u / 64) mod 64)) (String (chr (128 + u mod 64)) tail)).

Fixpoint utf8 (units : list N) : string :=
  match units with
  | [] => EmptyString
  | u :: rest =>
      if (u <? 128)%N then String (chr u) (utf8 rest)
      else if (u <? 2048)%N
      then String (chr (192 + u / 64)) (String (chr (128 + u mod 64)) (utf8 rest))
      else
        match rest with
        | low :: rest' =>
            if (55296 <=? u)%N && (u <? 56320)%N && (56320 <=? low)%N && (low <? 57344)%N
            then
              let p := (65536 + (u - 55296) * 1024 + (low - 56320))%N in
              String (chr (240 + p / 262144))
                (String (chr (128 + (p / 4096) mod 64))
                   (String (chr (128 + (p / 64) mod 64))
                      (String (chr (128 + p mod 64)) (utf8 rest'))))
            else three_bytes u (utf8 rest)
        | [] => three_bytes u EmptyString
        end
  end.

(** [s.slice(-n)]: the last [n] code units, the whole string when it is
    shorter. *)
Definition slice_last (n : nat) (s : string) : string :=
  let units := code_units s in
  utf8 (skipn (length units - n) units).

(** The white space of ECMAScript ([WhiteSpace] and [LineTerminator]): what
    [trim] strips and [\s] matches.  U+0009 to U+000D, U+0020, U+00A0,
    U+1680, U+2000 to U+200A, U+2028, U+2029, U+202F, U+205F, U+3000 and
    U+FEFF. *)
Definition is_white_space (u : N) : bool :=
  ((9 <=? u) && (u <=? 13))%N || (u =? 32)%N || (u =? 160)%N || (u =? 5760)%N
  || ((8192 <=? u) && (u <=? 8202))%N || (u =? 8232)%N || (u =? 8233)%N
  || (u =? 8239)%N || (u =? 8287)%N || (u =? 12288)%N || (u =? 65279)%N.

Fixpoint trim_start_units (units : list N) : list N :=
  match units with
  | [] => []
  | u :: rest => if is_white_space u then trim_start_units rest else units
  end.

(** [s.trim()] *)
Definition trim (s : string) : string :=
  utf8 (rev (trim_start_units (rev (trim_start_units (code_units s))))).

(** [!s.trim()]: the string holds white space only. *)
Definition blank (s : string) : bool := forallb is_white_space (code_units s).

Global Arguments blank : simpl never.
Global Arguments trim : simpl never.

(** A thrown value.  Every value thrown in these sources, and by the engine,
    is an [Error] object; its [message] is all the handlers read. *)
Record JsError : Type := mkError { message : string }.

Inductive result (A : Type) : Type :=
| Ok (a : A)
| Throw (e : JsError).
Global Arguments Ok {A} a.
Global Arguments Throw {A} e.

Definition result_bind {A B} (f : A -> result B) (m : result A) : result B :=
  match m with
  | Ok a => f a
  | Throw e => Throw e
  end.

End Js.
Export Js.

(** *** Regular expressions over code units

    The constructs the pattern of [handleGenerateKey] is made of, and
    [RegExp.prototype.test] for a pattern without anchors and flags: some
    contiguous part of the string matches.  The matcher takes the derivative
    of the expression by one code unit at a time. *)
Module Regex.

Inductive regex : Type :=
| Never
| Empty
| Unit (p : N -> bool)
| Or (r1 r2 : regex)
| Then (r1 r2 : regex)
| Star (r : regex).

(** [r+] *)
Definition Plus (r : regex) : regex := Then r (Star r).
(** any code unit *)
Definition Any : regex := Unit (fun _ => true).

Fixpoint nullable (r : regex) : bool :=
  match r with
  | Never => false
  | Empty => true
  | Unit _ => false
  | Or r1 r2 => nullable r1 || nullable r2
  | Then r1 r2 => nullable r1 && nullable r2
  | Star _ => true
  end.

Fixpoint derivative (u : N) (r : regex) : regex :=
  match r with
  | Never => Never
  | Empty => Never
  | Unit p => if p u then Empty else Never
  | Or r1 r2 => Or (derivative u r1) (derivative u r2)
  | Then r1 r2 =>
      if nullable r1
      then Or (Then (derivative u r1) r2) (derivative u r2)
      else Then (derivative u r1) r2
  | Star r' => Then (derivative u r') (Star r')
  end.

(** The whole of [units] matches [r]. *)
Fixpoint matches_whole (r : regex) (units : list N) : bool :=
  match units with
  | [] => nullable r
  | u :: rest => matches_whole (derivative u r) rest
  end.

(** [r.test(s)] *)
Definition test (r : regex) (units : list N) : bool :=
  matches_whole (Then (Star Any) (Then r (Star Any))) units.

(** What it is for a sequence of code units to match an expression. *)
Inductive matches : regex -> list N -> Prop :=
| matches_Empty : matches Empty []
| matches_Unit p u : p u = true -> matches (Unit p) [u]
| matches_Or_l r1 r2 units : matches r1 units -> matches (Or r1 r2) units
| matches_Or_r r1 r2 units : matches r2 units -> matches (Or r1 r2) units
| matches_Then r1 r2 units1 units2 :
    matches r1 units1 -> matches r2 units2 -> matches (Then r1 r2) (units1 ++ units2)
| matches_Star_nil r : matches (Star r) []
| matches_Star_cons r units1 units2 :
    matches r units1 -> matches (Star r) units2 -> matches (Star r) (units1 ++ units2).

End Regex.

Global Instance result_mbind : MBind result := @Js.result_bind.
Global Instance result_mret : MRet result := @Ok.

(** ** The collaborators outside the repository *)

(** What [openpgp.decrypt] hands back as [data]: a string when the format is
    ['string'], something else otherwise. *)
Inductive DecryptedData : Type :=
| DataString (s : string)
| DataBinary.

(** The part of OpenPGP.js the sources call.  [Seed] stands for the fresh
    random parameters one [encrypt] call draws. *)
Class OpenPGP : Type := {
  Message : Type;
  Key : Type;
  Signature : Type;
  Seed : Type;
  createMessage : string -> result Message;
  encrypt_passwords : Message -> string -> Seed -> result string;
  readMessage : string -> result Message;
  decrypt_passwords : Message -> string -> result DecryptedData;
  readPrivateKey : string -> result Key;
  readKey : string -> result Key;
  key_getKeyID : Key -> string;                     (* getKeyID().toHex() *)
  key_getPrimaryUser : Key -> result (option string); (* ?.user?.userID?.userID *)
  key_getUserIDs : Key -> list (option string);     (* each element's ?.userID *)
  key_getCreationTime : Key -> Z;
  key_isPrivate : Key -> bool;
  key_isDecrypted : Key -> bool;
  key_armor : Key -> string;
  decryptKey : Key -> string -> result Key;
  msg_getEncryptionKeyIDs : Message -> list string;
  decrypt_keys : Message -> list Key -> result (string * list Signature);
  sign : Message -> Key -> bool -> result string;   (* the flag is [detached] *)
  (* what lines 382-415 of DecryptMessage.tsx leave in [signatureInfo] after
     verifying the first signature against the known public keys *)
  signature_report : string -> Signature -> list Key -> string
}.

(** [JSON] and the quota of [localStorage]. *)
Class Browser : Type := {
  JSON_parse : string -> option jsval;       (* [None]: SyntaxError *)
  JSON_stringify : jsval -> string;
  toISOString : Z -> result string;          (* RangeError on an invalid date *)
  storage_accepts : gmap string string -> string -> string -> bool
}.

(** [localStorage] *)
Abbreviation Storage := (gmap string string).

Definition getItem (st : Storage) (k : string) : option string := st !! k.

Definition setItem `{Browser} (st : Storage) (k v : string) : result Storage :=
  if storage_accepts st k v then Ok (<[k := v]> st)
  else Throw (mkError "QuotaExceededError").

Definition removeItem (st : Storage) (k : string) : Storage := delete k st.

(** [!s] for [s : string | null] *)
Definition absent (s : option string) : bool :=
  match s with
  | None => true
  | Some v => String.eqb v ""
  end.

(** ** src/lib/storage.ts *)

Definition STORAGE_KEY : string := "openpgp-web-client-keys".
Definition MASTER_PASSWORD_VERIFIER_KEY : string := "openpgp-master-password-verifier".
Definition VERIFIER_PLAINTEXT : string := "master_password_correct".

(** The two messages [decryptData] throws, and the marker
    [loadKeysFromStorage] looks for in a caught message. *)
Definition MSG_WRONG_PASSWORD : string := "密码错误或数据已损坏。".
Definition MSG_DECRYPT_FAILED : string := "数据解密失败。".
Definition MARK_WRONG_PASSWORD : string := "密码错误".

Section Storage.
Context `{OpenPGP} `{Browser}.

(** A key in memory ([PGPKey] of src/types/index.ts). *)
Record PGPKey : Type := mkPGPKey {
  keyId : string;
  armored : string;
  keyObject : Key;
  userIds : list string;
  primaryUserId : string;
  isPrivate : bool;
  creationTime : Z
}.

Definition hasMasterPassword (st : Storage) : bool :=
  match getItem st MASTER_PASSWORD_VERIFIER_KEY with
  | Some _ => true
  | None => false
  end.

Definition encryptData (plaintext password : string) (seed : Seed) : result string :=
  match (message ← createMessage plaintext;
         encrypt_passwords message password seed) with
  | Ok armoredEncrypted => Ok armoredEncrypted
  | Throw _ => Throw (mkError "数据加密失败。")
  end.

(** The [try] block of [decryptData] (lines 99-112). *)
Definition decryptData_try (encryptedArmored password : string) : result string :=
  message ← readMessage encryptedArmored;
  decryptedData ← decrypt_passwords message password;
  match decryptedData with
  | DataString s => Ok s
  | DataBinary => Throw (mkError "Decrypted data is not a string.")
  end.

(** The test of line 116 on a caught error. *)
Definition reports_password_failure (error : JsError) : bool :=
  includes (message error) "password" || includes (message error) "Passphrase incorrect".

Definition decryptData (encryptedArmored password : string) : result string :=
  match decryptData_try encryptedArmored password with
  | Ok decryptedData => Ok decryptedData
  | Throw error =>
      if reports_password_failure error
      then Throw (mkError MSG_WRONG_PASSWORD)
      else Throw (mkError MSG_DECRYPT_FAILED)
  end.

Definition setMasterPassword (st : Storage) (password : string) (seed : Seed)
  : result unit * Storage :=
  match (encryptedVerifierArmored ← encryptData VERIFIER_PLAINTEXT password seed;
         setItem st MASTER_PASSWORD_VERIFIER_KEY encryptedVerifierArmored) with
  | Ok st' => (Ok tt, st')
  | Throw _ => (Throw (mkError "无法设置主密码验证器。"), st)
  end.

Definition verifyMasterPassword (st : Storage) (password : string) : result bool :=
  let storedVerifierArmored := getItem st MASTER_PASSWORD_VERIFIER_KEY in
  if absent storedVerifierArmored then Ok false
  else
    match storedVerifierArmored with
    | None => Ok false
    | Some stored =>
        match decryptData stored password with
        | Ok decrypted => Ok (String.eqb decrypted VERIFIER_PLAINTEXT)
        | Throw _ => Ok false
        end
    end.

Definition clearAllStoredKeys (st : Storage) : Storage :=
  removeItem (removeItem st STORAGE_KEY) MASTER_PASSWORD_VERIFIER_KEY.

(** [x ?? d] *)
Definition nullish (x : option string) (d : string) : string :=
  match x with
  | Some s => s
  | None => d
  end.

(** Lines 194-212: the record pushed for a parsed key. *)
Definition hydrate (keyObject : Key) (armoredKeyData : string) : result PGPKey :=
  let actualKeyId := key_getKeyID keyObject in
  primaryUser ← key_getPrimaryUser keyObject;
  let primaryUserId :=
    nullish primaryUser ("No User ID (" +:+ slice_last 8 actualKeyId +:+ ")") in
  let userIds := map (fun uid => nullish uid "No UserID packet") (key_getUserIDs keyObject) in
  let creationTime := key_getCreationTime keyObject in
  Ok {| keyId := actualKeyId;
        armored := armoredKeyData;
        keyObject := keyObject;
        userIds := match userIds with [] => [primaryUserId] | _ => userIds end;
        primaryUserId := primaryUserId;
        isPrivate := key_isPrivate keyObject;
        creationTime := creationTime |}.

(** [storedKey.type === 'private'] *)
Definition type_is_private (storedKey : jsval) : bool :=
  match get_prop storedKey "type" with
  | Some (JStr t) => String.eqb t "private"
  | _ => false
  end.

(** The [try] block of one iteration (lines 160-216): [Ok None] is the
    [continue] after a parse failure. *)
Definition loadOne_try (storedKey : jsval) (data masterPassword : string)
  : result (option PGPKey) :=
  let isPrivate := type_is_private storedKey in
  armoredKeyData ← (if isPrivate then decryptData data masterPassword else Ok data);
  match (if isPrivate then readPrivateKey armoredKeyData else readKey armoredKeyData) with
  | Throw _ => Ok None
  | Ok keyObject => k ← hydrate keyObject armoredKeyData; Ok (Some k)
  end.

(** What one iteration of the loop does to the load. *)
Inductive Iteration : Type :=
| Loaded (k : PGPKey)
| Skipped
| Aborted (e : JsError).

Definition MSG_LOAD_ABORT (storedKeyId : string) : string :=
  "加载密钥 " +:+ slice_last 8 storedKeyId +:+
  " 时主密码错误或数据损坏。请检查主密码或重置应用。".

Definition loadOne (storedKey : jsval) (masterPassword : string) : Iteration :=
  if negb (truthy storedKey) then Skipped
  else
    match get_prop storedKey "keyId", get_prop storedKey "data" with
    | Some (JStr storedKeyId), Some (JStr data) =>
        match loadOne_try storedKey data masterPassword with
        | Ok (Some k) => Loaded k
        | Ok None => Skipped
        | Throw error =>
            if includes (message error) MARK_WRONG_PASSWORD
            then Aborted (mkError (MSG_LOAD_ABORT storedKeyId))
            else Skipped
        end
    | _, _ => Skipped
    end.

Fixpoint loadLoop (storedKeys : list jsval) (masterPassword : string)
    (loadedKeys : list PGPKey) : result (list PGPKey) :=
  match storedKeys with
  | [] => Ok loadedKeys
  | storedKey :: rest =>
      match loadOne storedKey masterPassword with
      | Loaded k => loadLoop rest masterPassword (loadedKeys ++ [k])
      | Skipped => loadLoop rest masterPassword loadedKeys
      | Aborted e => Throw e
      end
  end.

Definition loadKeysFromStorage (st : Storage) (masterPassword : string)
  : result (list PGPKey) * Storage :=
  let storedData := getItem st STORAGE_KEY in
  if absent storedData then (Ok [], st)
  else
    match storedData with
    | None => (Ok [], st)
    | Some text =>
        match JSON_parse text with
        | Some (JArr storedKeys) => (loadLoop storedKeys masterPassword [], st)
        | _ => (Ok [], clearAllStoredKeys st)
        end
    end.

(** The [StoredKey] object [saveKeysToStorage] builds for one key. *)
Definition storedKey_of (key : PGPKey) (dataToStore created : string) : jsval :=
  JObj [ ("keyId", JStr (keyId key));
         ("type", JStr (if isPrivate key then "private" else "public"));
         ("data", JStr dataToStore);
         ("userIds", JArr (map JStr (userIds key)));
         ("primaryUserId", JStr (primaryUserId key));
         ("creationTime", JStr created) ].

(** The loop of lines 243-269; [seeds i] is the randomness drawn when the
    [i]-th key is wrapped. *)
Fixpoint prepareKeys (keys : list PGPKey) (masterPassword : string)
    (seeds : nat -> Seed) (i : nat) (keysToStore : list jsval) : result (list jsval) :=
  match keys with
  | [] => Ok keysToStore
  | key :: rest =>
      match (dataToStore ← (if isPrivate key
                            then encryptData (armored key) masterPassword (seeds i)
                            else Ok (armored key));
             created ← toISOString (creationTime key);
             Ok (storedKey_of key dataToStore created)) with
      | Ok entry => prepareKeys rest masterPassword seeds (S i) (keysToStore ++ [entry])
      | Throw _ =>
          Throw (mkError ("无法准备密钥 " +:+ slice_last 8 (keyId key) +:+ " 进行存储。"))
      end
  end.

Definition saveKeysToStorage (st : Storage) (keys : list PGPKey)
    (masterPassword : string) (seeds : nat -> Seed) : result unit * Storage :=
  match prepareKeys keys masterPassword seeds 0 [] with
  | Throw e => (Throw e, st)
  | Ok keysToStore =>
      match setItem st STORAGE_KEY (JSON_stringify (JArr keysToStore)) with
      | Ok st' => (Ok tt, st')
      | Throw _ =>
          (Throw (mkError "无法将密钥保存到浏览器存储。存储空间可能已满。"), st)
      end
  end.

End Storage.

(** ** src/app/page.tsx *)

Module Page.
Section Page.
Context `{OpenPGP} `{Browser}.

(** The state of [Home]. *)
Record Home : Type := mkHome {
  keys : list PGPKey;
  isAppLocked : bool;
  masterPassword : option string;
  showMasterPasswordModal : bool;
  masterPasswordError : option string;
  isLoading : bool
}.

Definition setKeys (v : list PGPKey) (h : Home) : Home :=
  mkHome v (isAppLocked h) (masterPassword h) (showMasterPasswordModal h)
         (masterPasswordError h) (isLoading h).
Definition setIsAppLocked (v : bool) (h : Home) : Home :=
  mkHome (keys h) v (masterPassword h) (showMasterPasswordModal h)
         (masterPasswordError h) (isLoading h).
Definition setMasterPasswordState (v : option string) (h : Home) : Home :=
  mkHome (keys h) (isAppLocked h) v (showMasterPasswordModal h)
         (masterPasswordError h) (isLoading h).
Definition setShowMasterPasswordModal (v : bool) (h : Home) : Home :=
  mkHome (keys h) (isAppLocked h) (masterPassword h) v
         (masterPasswordError h) (isLoading h).
Definition setMasterPasswordError (v : option string) (h : Home) : Home :=
  mkHome (keys h) (isAppLocked h) (masterPassword h) (showMasterPasswordModal h)
         v (isLoading h).
Definition setIsLoading (v : bool) (h : Home) : Home :=
  mkHome (keys h) (isAppLocked h) (masterPassword h) (showMasterPasswordModal h)
         (masterPasswordError h) v.

(** [handleMasterPasswordSubmit] (lines 387-431): the state of [Home] and
    [localStorage] after the handler has run. *)
Definition handleMasterPasswordSubmit (h : Home) (st : Storage)
    (password : string) (seed : Seed) : Home * Storage :=
  let h := setIsLoading true (setMasterPasswordError None h) in
  if negb (hasMasterPassword st) then
    match setMasterPassword st password seed with
    | (Ok _, st') =>
        (setIsLoading false
           (setKeys []
              (setShowMasterPasswordModal false
                 (setIsAppLocked false
                    (setMasterPasswordState (Some password) h)))), st')
    | (Throw error, st') =>
        (setIsLoading false (setMasterPasswordError (Some (message error)) h), st')
    end
  else
    match verifyMasterPassword st password with
    | Throw _ => (h, st)
    | Ok true =>
        let h := setShowMasterPasswordModal false
                   (setIsAppLocked false
                      (setMasterPasswordState (Some password) h)) in
        match loadKeysFromStorage st password with
        | (Ok loadedKeys, st') => (setIsLoading false (setKeys loadedKeys h), st')
        | (Throw error, st') =>
            (setIsLoading false
               (setShowMasterPasswordModal true
                  (setIsAppLocked true
                     (setMasterPasswordError (Some (message error)) h))), st')
        end
    | Ok false =>
        (setIsLoading false
           (setMasterPasswordError (Some "主密码错误，请重试。") h), st)
    end.

(** [saveKeys] (lines 436-448): the alerts raised and the storage left. *)
Definition saveKeys (h : Home) (st : Storage) (updatedKeys : list PGPKey)
    (seeds : nat -> Seed) : list string * Storage :=
  if absent (masterPassword h) then (["错误：无法保存密钥，主密码无效。"], st)
  else
    match masterPassword h with
    | None => (["错误：无法保存密钥，主密码无效。"], st)
    | Some pw =>
        match saveKeysToStorage st updatedKeys pw seeds with
        | (Ok _, st') => ([], st')
        | (Throw error, st') => (["保存密钥失败: " +:+ message error], st')
        end
    end.

(** The decision of [addKey] (lines 452-478): the alert shown, and the
    [updatedKeys] handed to [setKeys] and [saveKeys] when the function gets
    that far ([None]: it returned before). *)
Definition addKey_decide (keys : list PGPKey) (newKey : PGPKey)
  : string * option (list PGPKey) :=
  match list_find (fun k => keyId k = keyId newKey) keys with
  | Some (existingKeyIndex, existingKey) =>
      if isPrivate existingKey then
        ("错误：具有相同 KeyID (" +:+ slice_last 8 (keyId newKey) +:+ ") 的私钥已存在。",
         None)
      else if isPrivate newKey then
        ("密钥 " +:+ slice_last 8 (keyId newKey) +:+ " 已从公钥升级为私钥。",
         Some (<[existingKeyIndex := newKey]> keys))
      else
        ("具有相同 KeyID (" +:+ slice_last 8 (keyId newKey) +:+ ") 的公钥已存在。",
         None)
  | None =>
      ("成功导入 " +:+ (if isPrivate newKey then "私钥" else "公钥") +:+ ": " +:+
       primaryUserId newKey +:+ " (" +:+ slice_last 8 (keyId newKey) +:+ ")",
       Some (keys ++ [newKey])%list)
  end.

(** [addKey] (lines 450-483) as the callback of the render whose state is
    [h], called while [h] is still the state: alerts, state and storage
    afterwards.  The callback reads [keys] from its render; called after the
    state has moved on it is [Home.addKey_rendered]. *)
Definition addKey (h : Home) (st : Storage) (newKey : PGPKey) (seeds : nat -> Seed)
  : list string * Home * Storage :=
  match addKey_decide (keys h) newKey with
  | (alert, None) => ([alert], h, st)
  | (alert, Some updatedKeys) =>
      let '(alerts, st') := saveKeys h st updatedKeys seeds in
      (alert :: alerts, setKeys updatedKeys h, st')
  end.

(** [getDecryptedPrivateKeyArmored] (lines 506-542); [Ok None] is [null]. *)
Definition getDecryptedPrivateKeyArmored (keys : list PGPKey) (keyId' : string)
    (passphrase : option string) : result (option string) :=
  match find (fun k => String.eqb (keyId k) keyId' && isPrivate k) keys with
  | None => Ok None
  | Some key =>
      if negb (key_isPrivate (keyObject key)) then Ok None
      else if negb (key_isDecrypted (keyObject key)) then
        if absent passphrase then
          Throw (mkError ("需要密钥 " +:+ slice_last 8 keyId' +:+ " 的密码。"))
        else
          match passphrase with
          | None => Throw (mkError ("需要密钥 " +:+ slice_last 8 keyId' +:+ " 的密码。"))
          | Some pass =>
              match decryptKey (keyObject key) pass with
              | Ok decryptedKeyObject => Ok (Some (key_armor decryptedKeyObject))
              | Throw error =>
                  if includes (message error) "password"
                     || includes (message error) "Passphrase"
                  then Throw (mkError ("密钥 " +:+ slice_last 8 keyId' +:+ " 的密码错误。"))
                  else Throw (mkError ("解密密钥 " +:+ slice_last 8 keyId' +:+ " 失败。"))
              end
          end
      else Ok (Some (key_armor (keyObject key)))
  end.

End Page.
End Page.

(** ** src/components/SignMessage.tsx *)

Module SignMessage.
Section SignMessage.
Context `{OpenPGP}.

Inductive SignMode : Type := cleartext | detached.

Record State : Type := mkState {
  plaintext : string;
  signedMessageOutput : string;
  selectedPrivateKeyId : string;
  signMode : SignMode;
  isLoading : bool;
  error : option string;
  showKeyPasswordModal : bool;
  keyIdRequiringPassword : option string;
  dataToSign : option string
}.

Definition setSignedMessageOutput (v : string) (s : State) : State :=
  mkState (plaintext s) v (selectedPrivateKeyId s) (signMode s) (isLoading s) (error s)
          (showKeyPasswordModal s) (keyIdRequiringPassword s) (dataToSign s).
Definition setIsLoading (v : bool) (s : State) : State :=
  mkState (plaintext s) (signedMessageOutput s) (selectedPrivateKeyId s) (signMode s) v
          (error s) (showKeyPasswordModal s) (keyIdRequiringPassword s) (dataToSign s).
Definition setError (v : option string) (s : State) : State :=
  mkState (plaintext s) (signedMessageOutput s) (selectedPrivateKeyId s) (signMode s)
          (isLoading s) v (showKeyPasswordModal s) (keyIdRequiringPassword s) (dataToSign s).
Definition setShowKeyPasswordModal (v : bool) (s : State) : State :=
  mkState (plaintext s) (signedMessageOutput s) (selectedPrivateKeyId s) (signMode s)
          (isLoading s) (error s) v (keyIdRequiringPassword s) (dataToSign s).
Definition setKeyIdRequiringPassword (v : option string) (s : State) : State :=
  mkState (plaintext s) (signedMessageOutput s) (selectedPrivateKeyId s) (signMode s)
          (isLoading s) (error s) (showKeyPasswordModal s) v (dataToSign s).
Definition setDataToSign (v : option string) (s : State) : State :=
  mkState (plaintext s) (signedMessageOutput s) (selectedPrivateKeyId s) (signMode s)
          (isLoading s) (error s) (showKeyPasswordModal s) (keyIdRequiringPassword s) v.

(** The prop [getDecryptedPrivateKeyArmored] and the prop [privateKeys]. *)
Variable getDecryptedPrivateKeyArmored : string -> option string -> result (option string).
Variable privateKeys : list PGPKey.

(** [performSign] (lines 42-74) *)
Definition performSign (textToSign : string) (unlockedPrivateKeyObject : Key)
    (mode : SignMode) (s : State) : result State :=
  match (message ← createMessage textToSign;
         sign message unlockedPrivateKeyObject
              (match mode with cleartext => false | detached => true end)) with
  | Ok signed => Ok (setError None (setSignedMessageOutput signed s))
  | Throw signError => Throw (mkError ("签名操作失败: " +:+ message signError))
  end.

(** [handleSignClick] (lines 78-125) *)
Definition handleSignClick (st : State) : State :=
  if blank (plaintext st) then setError (Some "请输入要签名的消息。") st
  else if String.eqb (selectedPrivateKeyId st) "" then
    setError (Some "请选择一个用于签名的私钥。") st
  else
    match find (fun k => String.eqb (keyId k) (selectedPrivateKeyId st)) privateKeys with
    | None => setError (Some "选择的密钥无效或不是私钥。") st
    | Some selectedKey =>
        if negb (key_isPrivate (keyObject selectedKey)) then
          setError (Some "选择的密钥无效或不是私钥。") st
        else
          let s := setKeyIdRequiringPassword None
                     (setDataToSign None
                        (setSignedMessageOutput ""
                           (setError None (setIsLoading true st)))) in
          let privateKeyObject := keyObject selectedKey in
          if key_isDecrypted privateKeyObject then
            match performSign (plaintext st) privateKeyObject (signMode st) s with
            | Ok s' => setIsLoading false s'
            | Throw err => setIsLoading false (setError (Some (message err)) s)
            end
          else
            setIsLoading false
              (setShowKeyPasswordModal true
                 (setKeyIdRequiringPassword
                    (Some (slice_last 16 (selectedPrivateKeyId st)))
                    (setDataToSign (Some (plaintext st)) s)))
    end.

(** The [try] block of [handleKeyPasswordSubmit] (lines 151-165). *)
Definition submit_try (st : State) (data password : string) (s : State) : result State :=
  decryptedArmored ← getDecryptedPrivateKeyArmored (selectedPrivateKeyId st) (Some password);
  if absent decryptedArmored then Throw (mkError "无法使用提供的密码解密密钥。")
  else
    match decryptedArmored with
    | None => Throw (mkError "无法使用提供的密码解密密钥。")
    | Some armoredKey =>
        unlockedKeyObject ← readPrivateKey armoredKey;
        performSign data unlockedKeyObject (signMode st) s
    end.

(** [handleKeyPasswordSubmit] (lines 129-181) *)
Definition handleKeyPasswordSubmit (st : State) (password : string) : State :=
  if absent (dataToSign st) || String.eqb (selectedPrivateKeyId st) "" then
    setShowKeyPasswordModal false (setError (Some "内部错误：无法使用密码进行签名。") st)
  else
    match dataToSign st,
          find (fun k => String.eqb (keyId k) (selectedPrivateKeyId st)) privateKeys with
    | None, _ =>
        setShowKeyPasswordModal false (setError (Some "内部错误：无法使用密码进行签名。") st)
    | Some _, None =>
        setShowKeyPasswordModal false (setError (Some "内部错误：找不到选定的私钥。") st)
    | Some data, Some selectedKey =>
        let s := setError None (setIsLoading true (setShowKeyPasswordModal false st)) in
        let s :=
          match submit_try st data password s with
          | Ok s' => s'
          | Throw unlockOrSignError =>
              if includes (message unlockOrSignError) "密码错误"
                 || includes (message unlockOrSignError) "Passphrase"
              then setError (Some ("密钥 " +:+ slice_last 8 (selectedPrivateKeyId st)
                                   +:+ " 的密码错误。")) s
              else setError (Some ("使用密码签名时出错: " +:+ message unlockOrSignError)) s
          end in
        setIsLoading false (setKeyIdRequiringPassword None (setDataToSign None s))
    end.

(** The [onClose] of the password modal (lines 320-327). *)
Definition onClose (st : State) : State :=
  setIsLoading false
    (setKeyIdRequiringPassword None
       (setDataToSign None
          (setError (Some "签名已取消，因为未提供所需的密钥密码。")
             (setShowKeyPasswordModal false st)))).

End SignMessage.
End SignMessage.

(** ** src/components/DecryptMessage.tsx *)

Module DecryptMessage.
Section DecryptMessage.
Context `{OpenPGP}.

Record State : Type := mkState {
  ciphertext : string;
  plaintext : string;
  signatureInfo : option string;
  isLoading : bool;
  error : option string;
  showKeyPasswordModal : bool;
  keyIdRequiringPassword : option string;
  messageToDecrypt : option Message
}.

Definition setPlaintext (v : string) (s : State) : State :=
  mkState (ciphertext s) v (signatureInfo s) (isLoading s) (error s)
          (showKeyPasswordModal s) (keyIdRequiringPassword s) (messageToDecrypt s).
Definition setSignatureInfo (v : option string) (s : State) : State :=
  mkState (ciphertext s) (plaintext s) v (isLoading s) (error s)
          (showKeyPasswordModal s) (keyIdRequiringPassword s) (messageToDecrypt s).
Definition setIsLoading (v : bool) (s : State) : State :=
  mkState (ciphertext s) (plaintext s) (signatureInfo s) v (error s)
          (showKeyPasswordModal s) (keyIdRequiringPassword s) (messageToDecrypt s).
Definition setError (v : option string) (s : State) : State :=
  mkState (ciphertext s) (plaintext s) (signatureInfo s) (isLoading s) v
          (showKeyPasswordModal s) (keyIdRequiringPassword s) (messageToDecrypt s).
Definition setShowKeyPasswordModal (v : bool) (s : State) : State :=
  mkState (ciphertext s) (plaintext s) (signatureInfo s) (isLoading s) (error s)
          v (keyIdRequiringPassword s) (messageToDecrypt s).
Definition setKeyIdRequiringPassword (v : option string) (s : State) : State :=
  mkState (ciphertext s) (plaintext s) (signatureInfo s) (isLoading s) (error s)
          (showKeyPasswordModal s) v (messageToDecrypt s).
Definition setMessageToDecrypt (v : option Message) (s : State) : State :=
  mkState (ciphertext s) (plaintext s) (signatureInfo s) (isLoading s) (error s)
          (showKeyPasswordModal s) (keyIdRequiringPassword s) v.

(** The props. *)
Variable getDecryptedPrivateKeyArmored : string -> option string -> result (option string).
Variable privateKeys : list PGPKey.
Variable publicKeys : list Key.

(** [keyIDsInMessage.includes(id)] *)
Definition mentions (keyIDsInMessage : list string) (id : string) : bool :=
  existsb (String.eqb id) keyIDsInMessage.

(** [privateKeys.filter(pk => keyIDsInMessage.includes(pk.keyId))] *)
Definition potentialKeys_of (parsedMessage : Message) : list PGPKey :=
  List.filter (fun pk => mentions (msg_getEncryptionKeyIDs parsedMessage) (keyId pk))
              privateKeys.

(** The hint of lines 433-438. *)
Definition keyIdHint_of (parsedMessage : Message) : string :=
  let keyIDsInMessage := msg_getEncryptionKeyIDs parsedMessage in
  match potentialKeys_of parsedMessage with
  | [only] => slice_last 16 (keyId only)
  | _ =>
      match keyIDsInMessage with
      | [] => "Unknown Key"
      | [first] => slice_last 16 first
      | first :: _ => slice_last 16 first +:+ " 或其他"
      end
  end.

(** [handleDecryptAttempt] (lines 361-459); it catches whatever the engine
    throws. *)
Definition handleDecryptAttempt (parsedMessage : Message)
    (decryptionKeysAttempt : list Key) (s : State) : State :=
  match decrypt_keys parsedMessage decryptionKeysAttempt with
  | Ok (decryptedData, signatures) =>
      let s := setSignatureInfo None (setPlaintext decryptedData s) in
      let s :=
        match signatures with
        | first :: _ =>
            setIsLoading false
              (setSignatureInfo (Some (signature_report decryptedData first publicKeys))
                 (setIsLoading true s))
        | [] => setSignatureInfo (Some "消息未签名。") s
        end in
      setError None s
  | Throw decryptError =>
      if includes (message decryptError) "private key is encrypted"
         || includes (message decryptError) "Passphrase required"
      then
        setIsLoading false
          (setShowKeyPasswordModal true
             (setKeyIdRequiringPassword (Some (keyIdHint_of parsedMessage))
                (setMessageToDecrypt (Some parsedMessage)
                   (setError (Some "需要密码才能解密此消息。") s))))
      else if includes (message decryptError) "No private key available" then
        setIsLoading false
          (setError (Some "解密失败：找不到适用于此消息的私钥。请确保导入了正确的私钥。") s)
      else
        setIsLoading false (setError (Some ("解密失败: " +:+ message decryptError)) s)
  end.

(** [handleDecryptClick] (lines 463-497) *)
Definition handleDecryptClick (st : State) : State :=
  if blank (ciphertext st) then setError (Some "请粘贴要解密的 PGP 消息。") st
  else
    let s := setKeyIdRequiringPassword None
               (setMessageToDecrypt None
                  (setSignatureInfo None
                     (setPlaintext ""
                        (setError None (setIsLoading true st))))) in
    match readMessage (ciphertext st) with
    | Throw err => setIsLoading false (setError (Some ("处理消息失败: " +:+ message err)) s)
    | Ok parsedMessage =>
        match map keyObject privateKeys with
        | [] =>
            setIsLoading false
              (setError (Some ("处理消息失败: " +:+ "没有可用的私钥来尝试解密。")) s)
        | privateKeyObjects => handleDecryptAttempt parsedMessage privateKeyObjects s
        end
    end.

(** The [catch] of the retry loop (lines 548-560). *)
Definition retry_failed (targetKey : PGPKey) (unlockOrRetryError : JsError) (s : State)
  : State :=
  if includes (message unlockOrRetryError) "密码错误"
     || includes (message unlockOrRetryError) "Passphrase"
  then setError (Some ("密钥 " +:+ slice_last 8 (keyId targetKey) +:+ " 的密码错误。")) s
  else setError (Some ("尝试使用密钥 " +:+ slice_last 8 (keyId targetKey)
                       +:+ " 解密时出错: " +:+ message unlockOrRetryError)) s.

(** The loop over [potentialKeys] (lines 529-561): it stops at the first key
    that unlocks and parses. *)
Fixpoint retryLoop (parsedMessage : Message) (password : string)
    (targets : list PGPKey) (s : State) : State :=
  match targets with
  | [] => s
  | targetKey :: rest =>
      match getDecryptedPrivateKeyArmored (keyId targetKey) (Some password) with
      | Throw e => retryLoop parsedMessage password rest (retry_failed targetKey e s)
      | Ok decryptedArmored =>
          if absent decryptedArmored then retryLoop parsedMessage password rest s
          else
            match decryptedArmored with
            | None => retryLoop parsedMessage password rest s
            | Some armoredKey =>
                match readPrivateKey armoredKey with
                | Throw e =>
                    retryLoop parsedMessage password rest (retry_failed targetKey e s)
                | Ok unlockedKeyObject =>
                    handleDecryptAttempt parsedMessage [unlockedKeyObject] s
                end
            end
      end
  end.

(** [handleKeyPasswordSubmit] (lines 501-575) *)
Definition handleKeyPasswordSubmit (st : State) (password : string) : State :=
  match messageToDecrypt st with
  | None =>
      setShowKeyPasswordModal false (setError (Some "内部错误：无法使用密码重试解密。") st)
  | Some parsedMessage =>
      if absent (keyIdRequiringPassword st) then
        setShowKeyPasswordModal false (setError (Some "内部错误：无法使用密码重试解密。") st)
      else
        let s := setError None (setIsLoading true (setShowKeyPasswordModal false st)) in
        match potentialKeys_of parsedMessage with
        | [] =>
            setIsLoading false
              (setError (Some "内部错误：找不到与消息匹配的需要密码的私钥。") s)
        | potentialKeys =>
            let s := retryLoop parsedMessage password potentialKeys s in
            setIsLoading false (setKeyIdRequiringPassword None (setMessageToDecrypt None s))
        end
  end.

(** The [onClose] of the password modal (lines 663-670). *)
Definition onClose (st : State) : State :=
  setIsLoading false
    (setKeyIdRequiringPassword None
       (setMessageToDecrypt None
          (setError (Some "解密已取消，因为未提供所需的密钥密码。")
             (setShowKeyPasswordModal false st)))).

End DecryptMessage.
End DecryptMessage.

(** ** What the development assumes of the collaborators *)

(** The engine's symmetric primitive (spec 4.1, Property): what was wrapped
    under a password reads back and unwraps to the same text under that
    password, and under any other password decryption throws.  How the
    engine words that refusal is not assumed.  Nothing reads as a message out
    of the empty text. *)
Class OpenPGPLaws `{OpenPGP} : Prop := {
  password_roundtrip :
    forall text pw seed m c,
      createMessage text = Ok m ->
      encrypt_passwords m pw seed = Ok c ->
      exists m', readMessage c = Ok m' /\
                 decrypt_passwords m' pw = Ok (DataString text) /\
                 forall pw2, pw2 <> pw ->
                   exists e, decrypt_passwords m' pw2 = Throw e;
  readMessage_empty : exists e, readMessage "" = Throw e
}.

(** [JSON.parse("")] is a SyntaxError. *)
Class BrowserLaws `{Browser} : Prop := {
  JSON_parse_empty : JSON_parse "" = None
}.

(** ** A small engine and browser to run the functions on *)

Module Fixture.

Definition dq : string := String (ascii_of_nat 34) EmptyString.
Definition is_dq (c : ascii) : bool := Nat.eqb (nat_of_ascii c) 34.
Definition is_digit (c : ascii) : bool :=
  Nat.leb 48 (nat_of_ascii c) && Nat.leb (nat_of_ascii c) 57.

(** [JSON.stringify], for text without quotes or backslashes. *)
Fixpoint stringify (v : jsval) : string :=
  match v with
  | JNull => "null"
  | JBool b => if b then "true" else "false"
  | JNum n => pretty n
  | JStr s => dq +:+ s +:+ dq
  | JArr items => "[" +:+ String.concat "," (map stringify items) +:+ "]"
  | JObj fields =>
      "{" +:+ String.concat ","
                (map (fun kv => dq +:+ fst kv +:+ dq +:+ ":" +:+ stringify (snd kv)) fields)
          +:+ "}"
  end.

Fixpoint read_string (s : string) : option (string * string) :=
  match s with
  | EmptyString => None
  | String c rest =>
      if is_dq c then Some (EmptyString, rest)
      else match read_string rest with
           | Some (str, r) => Some (String c str, r)
           | None => None
           end
  end.

Fixpoint read_digits (s : string) (acc : Z) : Z * string :=
  match s with
  | EmptyString => (acc, EmptyString)
  | String c rest =>
      if is_digit c
      then read_digits rest (10 * acc + Z.of_nat (nat_of_ascii c - 48))%Z
      else (acc, s)
  end.

Definition after (n : nat) (s : string) : string :=
  String.substring n (String.length s - n) s.

(** [JSON.parse] on the subset [stringify] writes: no white space, no
    escapes, no fractions. *)
Fixpoint parse_value (fuel : nat) (s : string) : option (jsval * string) :=
  match fuel with
  | O => None
  | S fuel =>
      match s with
      | EmptyString => None
      | String c rest =>
          if is_dq c then
            match read_string rest with
            | Some (str, r) => Some (JStr str, r)
            | None => None
            end
          else if Ascii.eqb c "["%char then
            match rest with
            | String "]"%char r => Some (JArr [], r)
            | _ => parse_items fuel rest []
            end
          else if Ascii.eqb c "{"%char then
            match rest with
            | String "}"%char r => Some (JObj [], r)
            | _ => parse_members fuel rest []
            end
          else if String.prefix "null" s then Some (JNull, after 4 s)
          else if String.prefix "true" s then Some (JBool true, after 4 s)
          else if String.prefix "false" s then Some (JBool false, after 5 s)
          else if is_digit c then
            let '(n, r) := read_digits s 0 in Some (JNum n, r)
          else None
      end
  end
with parse_items (fuel : nat) (s : string) (acc : list jsval) : option (jsval * string) :=
  match fuel with
  | O => None
  | S fuel =>
      match parse_value fuel s with
      | Some (v, String ","%char r) => parse_items fuel r (acc ++ [v])
      | Some (v, String "]"%char r) => Some (JArr (acc ++ [v]), r)
      | _ => None
      end
  end
with parse_members (fuel : nat) (s : string) (acc : list (string * jsval))
  : option (jsval * string) :=
  match fuel with
  | O => None
  | S fuel =>
      match s with
      | String c rest =>
          if is_dq c then
            match read_string rest with
            | Some (k, String ":"%char r) =>
                match parse_value fuel r with
                | Some (v, String ","%char r') => parse_members fuel r' (acc ++ [(k, v)])
                | Some (v, String "}"%char r') => Some (JObj (acc ++ [(k, v)]), r')
                | _ => None
                end
            | _ => None
            end
          else None
      | EmptyString => None
      end
  end.

Definition parse (s : string) : option jsval :=
  match parse_value (S (String.length s)) s with
  | Some (v, EmptyString) => Some v
  | _ => None
  end.

Definition browser : Browser :=
  {| JSON_parse := parse;
     JSON_stringify := stringify;
     toISOString := fun t => Ok (pretty t);
     storage_accepts := fun _ _ _ => true |}.

(** Messages: a literal text, a text sealed under a password, or a text
    addressed to an encryption subkey. *)
Inductive ToyMessage : Type :=
| Literal (text : string)
| Sealed (password text : string)
| Addressed (recipient text : string).

(** The armour of a sealed text: each character of the password after a
    [+], then a [.], then the text. *)
Fixpoint seal (password text : string) : string :=
  match password with
  | EmptyString => String "."%char text
  | String c rest => String "+"%char (String c (seal rest text))
  end.

Fixpoint unseal (s : string) : option (string * string) :=
  match s with
  | String "."%char text => Some (EmptyString, text)
  | String "+"%char (String c rest) =>
      match unseal rest with
      | Some (password, text) => Some (String c password, text)
      | None => None
      end
  | _ => None
  end.

(** Keys: an identifier of the primary key and one of the encryption
    subkey.  The armour is a tag ([P] public, [S] private, [L] private and
    locked), four characters of primary identifier, then the subkey's. *)
Record ToyKey : Type := mkToyKey {
  primary : string;
  subkey : string;
  secret : bool;
  locked : bool
}.

Definition PASSPHRASE : string := "hunter2".

Definition parse_key (s : string) : option ToyKey :=
  match s with
  | String tag rest =>
      let k := mkToyKey (String.substring 0 4 rest) (after 4 rest) in
      if Ascii.eqb tag "P"%char then Some (k false false)
      else if Ascii.eqb tag "S"%char then Some (k true false)
      else if Ascii.eqb tag "L"%char then Some (k true true)
      else None
  | EmptyString => None
  end.

Definition armor_key (k : ToyKey) : string :=
  (if negb (secret k) then "P" else if locked k then "L" else "S")
  +:+ primary k +:+ subkey k.

Definition engine : OpenPGP :=
  {| Message := ToyMessage;
     Key := ToyKey;
     Signature := unit;
     Seed := unit;
     createMessage := fun text => Ok (Literal text);
     encrypt_passwords := fun m pw _ =>
       match m with
       | Literal text => Ok (seal pw text)
       | _ => Throw (mkError "Error encrypting message: not a literal message")
       end;
     readMessage := fun s =>
       match s with
       | String "@"%char rest => Ok (Addressed (String.substring 0 4 rest) (after 4 rest))
       | _ => match unseal s with
              | Some (pw, text) => Ok (Sealed pw text)
              | None => Throw (mkError "Misformed armored text")
              end
       end;
     decrypt_passwords := fun m pw =>
       match m with
       | Sealed pw' text =>
           if String.eqb pw pw' then Ok (DataString text)
           else Throw (mkError "Error decrypting message: Incorrect password")
       | _ => Throw (mkError "Error decrypting message: No symmetrically encrypted session key packet found.")
       end;
     readPrivateKey := fun s =>
       match parse_key s with
       | Some k => if secret k then Ok k
                   else Throw (mkError "Armored text not of type private key")
       | None => Throw (mkError "Misformed armored text")
       end;
     readKey := fun s =>
       match parse_key s with
       | Some k => Ok k
       | None => Throw (mkError "Misformed armored text")
       end;
     key_getKeyID := primary;
     key_getPrimaryUser := fun k => Ok (Some ("user " +:+ primary k));
     key_getUserIDs := fun k => [Some ("user " +:+ primary k)];
     key_getCreationTime := fun _ => 0%Z;
     key_isPrivate := secret;
     key_isDecrypted := fun k => negb (locked k);
     key_armor := armor_key;
     decryptKey := fun k pass =>
       if negb (locked k) then Throw (mkError "Key packet is already decrypted.")
       else if String.eqb pass PASSPHRASE
            then Ok (mkToyKey (primary k) (subkey k) (secret k) false)
            else Throw (mkError "Passphrase incorrect");
     msg_getEncryptionKeyIDs := fun m =>
       match m with
       | Addressed recipient _ => [recipient]
       | _ => []
       end;
     decrypt_keys := fun m ks =>
       match m with
       | Addressed recipient text =>
           match find (fun k => secret k && String.eqb (subkey k) recipient) ks with
           | Some k =>
               if locked k
               then Throw (mkError "Error decrypting message: private key is encrypted")
               else Ok (text, [])
           | None => Throw (mkError "Error decrypting message: No private key available")
           end
       | _ => Throw (mkError "Error decrypting message: no public-key session key")
       end;
     sign := fun m k _ =>
       match m with
       | Literal text =>
           if secret k && negb (locked k) then Ok ("signed:" +:+ text)
           else Throw (mkError "Error signing message: Signing key is not decrypted.")
       | _ => Throw (mkError "Error signing message: not a literal message")
       end;
     signature_report := fun _ _ _ => "signature checked" |}.

(** Data to run the functions on. *)

#[local] Existing Instance engine.
#[local] Existing Instance browser.

Definition W : string := "correct horse".

Definition entry (id kind data : string) : jsval :=
  JObj [ ("keyId", JStr id); ("type", JStr kind); ("data", JStr data);
         ("userIds", JArr [JStr ("user " +:+ id)]);
         ("primaryUserId", JStr ("user " +:+ id));
         ("creationTime", JStr "0") ].

(** A private key wrapped under [W]. *)
Definition privateRecord : jsval := entry "cafe" "private" (seal W "Scafebeef").
(** A public record whose data is not a key. *)
Definition corruptPublicRecord : jsval := entry "dead" "public" "garbage".
(** An entry marked public whose data is the armour of a private key. *)
Definition mislabelledRecord : jsval := entry "cafe" "public" "Scafebeef".

Definition store_of (records : list jsval) : Storage :=
  <[STORAGE_KEY := stringify (JArr records)]> ∅.

(** The key the loader makes of the armour [Scafebeef]. *)
Definition cafeKey : PGPKey :=
  {| keyId := "cafe";
     armored := "Scafebeef";
     keyObject := mkToyKey "cafe" "beef" true false;
     userIds := ["user cafe"];
     primaryUserId := "user cafe";
     isPrivate := true;
     creationTime := 0 |}.

(** A locked private key with primary identifier [cafe] and encryption
    subkey [beef], as [handleImportAttempt] would record it. *)
Definition lockedKey : PGPKey :=
  {| keyId := "cafe";
     armored := "Lcafebeef";
     keyObject := mkToyKey "cafe" "beef" true true;
     userIds := ["user cafe"];
     primaryUserId := "user cafe";
     isPrivate := true;
     creationTime := 0 |}.

Definition home (keys : list PGPKey) : Page.Home :=
  Page.mkHome keys false (Some W) false None false.

(** [DecryptMessage] as mounted, with a message for subkey [beef] pasted. *)
Definition decryptStart : DecryptMessage.State :=
  DecryptMessage.mkState "@beefhello" "" None false None false None None.

End Fixture.

(** ** The words of the specification, over the embedded functions *)

Section Vocabulary.
Context `{OpenPGP} `{Browser}.

(** [ciphertext] is what [encryptData] returned for [text] under
    [password], for some randomness. *)
Definition wrapped_under (text password ciphertext : string) : Prop :=
  exists seed, encryptData text password seed = Ok ciphertext.

(** The engine failed on [encryptedArmored] under [password], throwing [e]:
    reading the message failed, or decrypting it did. *)
Definition engine_failure (encryptedArmored password : string) (e : JsError) : Prop :=
  readMessage encryptedArmored = Throw e \/
  exists m, readMessage encryptedArmored = Ok m /\ decrypt_passwords m password = Throw e.

(** The engine decrypted, and handed back something that is not a string. *)
Definition engine_not_string (encryptedArmored password : string) : Prop :=
  exists m, readMessage encryptedArmored = Ok m /\
            decrypt_passwords m password = Ok DataBinary.

(** An entry of the persisted array with the two string fields the loader
    insists on. *)
Definition persisted (storedKey : jsval) (id data : string) : Prop :=
  get_prop storedKey "keyId" = Some (JStr id) /\
  get_prop storedKey "data" = Some (JStr data).

(** A record whose data is corrupted: it does not parse as a key, or it
    does not decrypt and the failure is not a password failure. *)
Inductive corrupted (masterPassword : string) (storedKey : jsval) : Prop :=
| corrupted_public id data e :
    persisted storedKey id data ->
    type_is_private storedKey = false ->
    readKey data = Throw e ->
    corrupted masterPassword storedKey
| corrupted_private_key id data armoredKey e :
    persisted storedKey id data ->
    type_is_private storedKey = true ->
    decryptData data masterPassword = Ok armoredKey ->
    readPrivateKey armoredKey = Throw e ->
    corrupted masterPassword storedKey
| corrupted_private_data id data e :
    persisted storedKey id data ->
    type_is_private storedKey = true ->
    decryptData_try data masterPassword = Throw e ->
    reports_password_failure e = false ->
    corrupted masterPassword storedKey.

(** A valid record and the key it stands for: a public record whose data
    parses, or a private record wrapped under the master password whose
    plaintext parses as a private key. *)
Inductive valid (masterPassword : string) (storedKey : jsval) (k : PGPKey) : Prop :=
| valid_public id data parsed :
    persisted storedKey id data ->
    type_is_private storedKey = false ->
    readKey data = Ok parsed ->
    hydrate parsed data = Ok k ->
    valid masterPassword storedKey k
| valid_private id data armoredKey parsed :
    persisted storedKey id data ->
    type_is_private storedKey = true ->
    wrapped_under armoredKey masterPassword data ->
    readPrivateKey armoredKey = Ok parsed ->
    hydrate parsed armoredKey = Ok k ->
    valid masterPassword storedKey k.

(** The keys of the valid records of a collection, in order, the corrupted
    records left out. *)
Inductive survivors (masterPassword : string) : list jsval -> list PGPKey -> Prop :=
| survivors_nil : survivors masterPassword [] []
| survivors_valid storedKey k rest ks :
    valid masterPassword storedKey k ->
    survivors masterPassword rest ks ->
    survivors masterPassword (storedKey :: rest) (k :: ks)
| survivors_corrupted storedKey rest ks :
    corrupted masterPassword storedKey ->
    survivors masterPassword rest ks ->
    survivors masterPassword (storedKey :: rest) ks.

End Vocabulary.

(** ** The rest of src/app/page.tsx *)

Module Home.
Section Home.
Context `{OpenPGP} `{Browser}.

(** The state [Home] starts with (lines 355-360). *)
Definition initial : Page.Home := Page.mkHome [] true None false None true.

(** The effect run on mount (lines 363-384). *)
Definition mount (st : Storage) : Page.Home :=
  if hasMasterPassword st
  then Page.setIsLoading false
         (Page.setShowMasterPasswordModal true (Page.setIsAppLocked true initial))
  else Page.setIsLoading false (Page.setIsAppLocked false initial).

(** The [onClick] of the lock button (lines 603-610). *)
Definition lockApp (h : Page.Home) : Page.Home :=
  Page.setKeys []
    (Page.setShowMasterPasswordModal true
       (Page.setIsAppLocked true (Page.setMasterPasswordState None h))).

(** [deleteKey] (lines 485-502); [confirmation] is what [window.confirm]
    answered. *)
Definition deleteKey (h : Page.Home) (st : Storage) (keyId' : string)
    (confirmation : bool) (seeds : nat -> Seed) : list string * Page.Home * Storage :=
  match find (fun k => String.eqb (keyId k) keyId') (Page.keys h) with
  | None => ([], h, st)
  | Some keyToDelete =>
      if confirmation then
        let updatedKeys :=
          List.filter (fun key => negb (String.eqb (keyId key) keyId')) (Page.keys h) in
        let '(alerts, st') := Page.saveKeys h st updatedKeys seeds in
        ((alerts ++ ["密钥 " +:+ slice_last 8 keyId' +:+ " 已删除。"])%list,
         Page.setKeys updatedKeys h, st')
      else ([], h, st)
  end.

(** The props computed at lines 592-593. *)
Definition publicKeys (h : Page.Home) : list Key :=
  map keyObject (List.filter (fun k => negb (isPrivate k)) (Page.keys h)).
Definition privatePGPKeys (h : Page.Home) : list PGPKey :=
  List.filter (fun k => isPrivate k) (Page.keys h).

(** What a handler acts on: the alerts raised so far, the state of [Home]
    and [localStorage]. *)
Definition World : Type := (list string * Page.Home * Storage)%type.

(** The [addKey] callback created by the render whose state is [rendered],
    run later in the world [w]: it reads [keys] and, through [saveKeys],
    [masterPassword] from its own render, while [setKeys] and the storage
    write land in the world as it is now. *)
Definition addKey_rendered (rendered : Page.Home) (newKey : PGPKey)
    (seeds : nat -> Seed) (w : World) : World :=
  let '(alerts, h, st) := w in
  match Page.addKey_decide (Page.keys rendered) newKey with
  | (alert, None) => ((alerts ++ [alert])%list, h, st)
  | (alert, Some updatedKeys) =>
      let '(saved, st') := Page.saveKeys rendered st updatedKeys seeds in
      ((alerts ++ alert :: saved)%list, Page.setKeys updatedKeys h, st')
  end.

End Home.
End Home.

(** ** More of OpenPGP.js: what the other components call *)

Inductive KeyType : Type := rsa | ecc.

(** The options [handleGenerateKey] hands to [openpgp.generateKey]. *)
Record GenerateOptions : Type := mkGenerateOptions {
  gen_type : KeyType;
  gen_name : string;
  gen_email : string;
  gen_passphrase : option string;
  gen_curve : option string;
  gen_rsaBits : option Z
}.

(** What [openpgp.verify] is given. *)
Inductive VerifyInput `{OpenPGP} (CleartextMessage : Type) : Type :=
| VerifyCleartext (message : CleartextMessage)
| VerifyDetached (message : Message) (signature : Signature).
Global Arguments VerifyCleartext {_ _} message.
Global Arguments VerifyDetached {_ _} message signature.

(** One entry of [result.signatures]: the awaited [verified] and the
    hexadecimal [keyID]. *)
Record VerificationResult : Type := mkVerificationResult {
  verified : result bool;
  signerKeyID : string
}.

Class OpenPGPComponents `{OpenPGP} : Type := {
  CleartextMessage : Type;
  (* readPrivateKey({ armoredKey, passphrase }), as KeyManagement calls it *)
  readPrivateKey_with : string -> option string -> result Key;
  (* the armoured private and public key of the generated pair *)
  generateKey : GenerateOptions -> Seed -> result (string * string);
  (* encrypt({ message, encryptionKeys, format: 'armored' }) *)
  encrypt_keys : Message -> list Key -> Seed -> result string;
  readCleartextMessage : string -> result CleartextMessage;
  readSignature : string -> result Signature;
  verify : VerifyInput CleartextMessage -> list Key -> result (list VerificationResult);
  (* getUserIDs(), each element as a template literal prints it *)
  key_getUserIDs_text : Key -> list string
}.

(** ** src/components/EncryptMessage.tsx *)

Module EncryptMessage.
Section EncryptMessage.
Context `{OpenPGP} `{!OpenPGPComponents}.

(** [selectedKeyIds] is a [Set<string>]: its elements in insertion order. *)
Record State : Type := mkState {
  plaintext : string;
  ciphertext : string;
  selectedKeyIds : list string;
  isLoading : bool;
  error : option string
}.

Definition setCiphertext (v : string) (s : State) : State :=
  mkState (plaintext s) v (selectedKeyIds s) (isLoading s) (error s).
Definition setSelectedKeyIds (v : list string) (s : State) : State :=
  mkState (plaintext s) (ciphertext s) v (isLoading s) (error s).
Definition setIsLoading (v : bool) (s : State) : State :=
  mkState (plaintext s) (ciphertext s) (selectedKeyIds s) v (error s).
Definition setError (v : option string) (s : State) : State :=
  mkState (plaintext s) (ciphertext s) (selectedKeyIds s) (isLoading s) v.

(** [Set.prototype.has], [add] and [delete] *)
Definition set_has (id : string) (ids : list string) : bool := existsb (String.eqb id) ids.
Definition set_add (id : string) (ids : list string) : list string :=
  if set_has id ids then ids else (ids ++ [id])%list.
Definition set_delete (id : string) (ids : list string) : list string :=
  List.filter (fun id' => negb (String.eqb id' id)) ids.

(** [handleRecipientChange] (lines 527-537 of src/unnamed/part_001) *)
Definition handleRecipientChange (keyId' : string) (checked : bool) (st : State) : State :=
  setSelectedKeyIds
    (if checked then set_add keyId' (selectedKeyIds st)
     else set_delete keyId' (selectedKeyIds st)) st.

Variable publicKeys : list Key.

(** The [map] of lines 561-568: the key of each selected identifier, or the
    error for the first identifier without one. *)
Fixpoint encryptionKeys_of (keyIdArray : list string) : result (list Key) :=
  match keyIdArray with
  | [] => Ok []
  | id :: rest =>
      match find (fun pk => String.eqb (key_getKeyID pk) id) publicKeys with
      | None => Throw (mkError ("找不到 KeyID 为 " +:+ slice_last 8 id +:+ " 的公钥对象。"))
      | Some key => keys ← encryptionKeys_of rest; Ok (key :: keys)
      end
  end.

(** [handleEncrypt] (lines 540-596) *)
Definition handleEncrypt (st : State) (seed : Seed) : State :=
  if blank (plaintext st) then setError (Some "请输入要加密的消息。") st
  else
    match selectedKeyIds st with
    | [] => setError (Some "请至少选择一个收件人的公钥。") st
    | keyIdArray =>
        let s := setCiphertext "" (setError None (setIsLoading true st)) in
        let s :=
          match (encryptionKeys ← encryptionKeys_of keyIdArray;
                 message ← createMessage (plaintext st);
                 encrypt_keys message encryptionKeys seed) with
          | Ok encryptedArmored => setCiphertext encryptedArmored s
          | Throw err => setError (Some ("加密失败: " +:+ message err)) s
          end in
        setIsLoading false s
    end.

End EncryptMessage.
End EncryptMessage.

(** ** src/components/VerifySignature.tsx *)

Module VerifySignature.
Section VerifySignature.
Context `{OpenPGP} `{!OpenPGPComponents}.

Inductive VerifyMode : Type := cleartext | detached.

Record State : Type := mkState {
  verifyMode : VerifyMode;
  inputText : string;
  signatureText : string;
  verificationResult : option string;
  isLoading : bool;
  error : option string
}.

Definition setVerificationResult (v : option string) (s : State) : State :=
  mkState (verifyMode s) (inputText s) (signatureText s) v (isLoading s) (error s).
Definition setIsLoading (v : bool) (s : State) : State :=
  mkState (verifyMode s) (inputText s) (signatureText s) (verificationResult s) v (error s).
Definition setError (v : option string) (s : State) : State :=
  mkState (verifyMode s) (inputText s) (signatureText s) (verificationResult s)
          (isLoading s) v.

Variable publicKeys : list Key.

(** Step 3 of [handleVerify] (lines 52-69). *)
Definition verifyInput_of (st : State) : result (VerifyInput CleartextMessage) :=
  match verifyMode st with
  | cleartext =>
      cleartextMessage ← readCleartextMessage (inputText st);
      Ok (VerifyCleartext cleartextMessage)
  | detached =>
      message ← createMessage (inputText st);
      signature ← readSignature (signatureText st);
      Ok (VerifyDetached message signature)
  end.

(** Steps 4 and 5 (lines 72-98): the text left in [verificationResult]. *)
Definition verdict (st : State) : result string :=
  verifyInput ← verifyInput_of st;
  signatures ← verify verifyInput publicKeys;
  match signatures with
  | [] => Ok "⚠️ 未找到有效的签名信息。"
  | firstSignature :: _ =>
      isValid ← verified firstSignature;
      let signerHex := signerKeyID firstSignature in
      if (isValid : bool) then
        let signerKey :=
          find (fun pk => String.eqb (key_getKeyID pk) signerHex) publicKeys in
        let signerUserID :=
          match signerKey with
          | Some pk =>
              match key_getUserIDs_text pk with
              | uid :: _ => uid
              | [] => "未知用户 (" +:+ slice_last 8 signerHex +:+ ")"
              end
          | None => "未知用户 (" +:+ slice_last 8 signerHex +:+ ")"
          end in
        Ok ("✔️ 签名有效！由 " +:+ signerUserID +:+ " (KeyID: ..."
            +:+ slice_last 16 signerHex +:+ ") 签署。")
      else
        Ok ("❌ 签名无效或无法使用已知公钥验证。(Signer KeyID: ..."
            +:+ slice_last 16 signerHex +:+ ")")
  end.

(** The [catch] of lines 100-109. *)
Definition verify_failed (err : JsError) : string :=
  if includes (message err) "Failed to read cleartext message"
     || includes (message err) "Misformed armored text"
  then "验证失败：输入的文本格式不正确，请检查是否为有效的 PGP 签名消息。"
  else if includes (message err) "Failed to read signature"
          || includes (message err) "No valid signature packets found"
  then "验证失败：无法读取分离式签名，请检查签名格式。"
  else "验证失败: " +:+ message err.

(** [handleVerify] (lines 21-114) *)
Definition handleVerify (st : State) : State :=
  let s := setVerificationResult None (setError None (setIsLoading true st)) in
  match verifyMode st with
  | cleartext =>
      if blank (inputText st) then
        setIsLoading false
          (setError (Some "请粘贴要验证的文本内签名消息 (Clear-signed message)。") s)
      else
        match publicKeys with
        | [] =>
            setIsLoading false
              (setError (Some "无法验证签名，因为没有可用的公钥。请先导入签名者的公钥。") s)
        | _ =>
            match verdict st with
            | Ok text => setIsLoading false (setVerificationResult (Some text) s)
            | Throw err => setIsLoading false (setError (Some (verify_failed err)) s)
            end
        end
  | detached =>
      if blank (inputText st) || blank (signatureText st) then
        setIsLoading false
          (setError (Some "请同时提供原始消息和分离式签名 (Detached signature)。") s)
      else
        match publicKeys with
        | [] =>
            setIsLoading false
              (setError (Some "无法验证签名，因为没有可用的公钥。请先导入签名者的公钥。") s)
        | _ =>
            match verdict st with
            | Ok text => setIsLoading false (setVerificationResult (Some text) s)
            | Throw err => setIsLoading false (setError (Some (verify_failed err)) s)
            end
        end
  end.

End VerifySignature.
End VerifySignature.

(** ** src/components/KeyManagement.tsx *)

Module KeyManagement.
Section KeyManagement.
Context `{OpenPGP} `{Browser} `{!OpenPGPComponents}.

(** [\S] *)
Definition not_white_space (u : N) : bool := negb (is_white_space u).

(** The pattern [/\S+@\S+\.\S+/] of line 187. *)
Definition EMAIL_PATTERN : Regex.regex :=
  Regex.Then (Regex.Plus (Regex.Unit not_white_space))
    (Regex.Then (Regex.Unit (N.eqb 64))
       (Regex.Then (Regex.Plus (Regex.Unit not_white_space))
          (Regex.Then (Regex.Unit (N.eqb 46))
             (Regex.Plus (Regex.Unit not_white_space))))).

(** [/\S+@\S+\.\S+/.test(email)] *)
Definition email_like (email : string) : bool :=
  Regex.test EMAIL_PATTERN (code_units email).

(** [genOptions] *)
Record KeyGenOptions : Type := mkKeyGenOptions {
  name : string;
  email : string;
  passphrase : string;
  keyType : KeyType;
  curve : string;
  rsaBits : Z
}.

Record State : Type := mkState {
  keyImportText : string;
  isImporting : bool;
  importError : option string;
  showImportPasswordModal : bool;
  armoredKeyToImport : option string;
  keyIdRequiringPassword : option string;
  showGenerateModal : bool;
  isGenerating : bool;
  generateError : option string;
  genOptions : KeyGenOptions
}.

Definition setKeyImportText (v : string) (s : State) : State :=
  mkState v (isImporting s) (importError s) (showImportPasswordModal s)
          (armoredKeyToImport s) (keyIdRequiringPassword s) (showGenerateModal s)
          (isGenerating s) (generateError s) (genOptions s).
Definition setIsImporting (v : bool) (s : State) : State :=
  mkState (keyImportText s) v (importError s) (showImportPasswordModal s)
          (armoredKeyToImport s) (keyIdRequiringPassword s) (showGenerateModal s)
          (isGenerating s) (generateError s) (genOptions s).
Definition setImportError (v : option string) (s : State) : State :=
  mkState (keyImportText s) (isImporting s) v (showImportPasswordModal s)
          (armoredKeyToImport s) (keyIdRequiringPassword s) (showGenerateModal s)
          (isGenerating s) (generateError s) (genOptions s).
Definition setShowImportPasswordModal (v : bool) (s : State) : State :=
  mkState (keyImportText s) (isImporting s) (importError s) v
          (armoredKeyToImport s) (keyIdRequiringPassword s) (showGenerateModal s)
          (isGenerating s) (generateError s) (genOptions s).
Definition setArmoredKeyToImport (v : option string) (s : State) : State :=
  mkState (keyImportText s) (isImporting s) (importError s) (showImportPasswordModal s)
          v (keyIdRequiringPassword s) (showGenerateModal s)
          (isGenerating s) (generateError s) (genOptions s).
Definition setKeyIdRequiringPassword (v : option string) (s : State) : State :=
  mkState (keyImportText s) (isImporting s) (importError s) (showImportPasswordModal s)
          (armoredKeyToImport s) v (showGenerateModal s)
          (isGenerating s) (generateError s) (genOptions s).

(** The prop [onAddKey]: what adding a key does to [Home] and the storage,
    with the randomness of that call. *)
Variable onAddKey : PGPKey -> (nat -> Seed) -> Home.World -> Home.World.

(** Steps 1 and 2 of [handleImportAttempt] (lines 55-96): the key object to
    import, or [Ok None] when the passphrase prompt has to be opened first;
    the error thrown when the text reads as no key at all. *)
Definition readForImport (armoredKey : string) (passphrase : option string)
  : result (option Key) :=
  match readPrivateKey_with armoredKey passphrase with
  | Ok keyObject => Ok (Some keyObject)
  | Throw privError =>
      if includes (message privError) "encrypted" && absent passphrase then Ok None
      else
        match readKey armoredKey with
        | Ok keyObject => Ok (Some keyObject)
        | Throw pubError =>
            Throw (mkError ("无法读取密钥。请检查密钥格式。错误: " +:+ message pubError))
        end
  end.

(** The hint of lines 68-72. *)
Definition keyIdHint_of (armoredKey : string) : string :=
  match readKey armoredKey with
  | Ok pubKey => slice_last 16 (key_getKeyID pubKey)
  | Throw _ => "Unknown Key"
  end.

(** [handleImportAttempt] (lines 48-138).  [rendered] is the state of the
    render that made the callback: the [finally] block reads
    [showImportPasswordModal] and [armoredKeyToImport] from it.  [s] and [w]
    are the state of the component and the world when the call is made. *)
Definition handleImportAttempt (rendered : State) (armoredKey : string)
    (passphrase : option string) (seeds : nat -> Seed) (s : State) (w : Home.World)
  : State * Home.World :=
  let s := setImportError None (setIsImporting true s) in
  let '(s, w) :=
    match readForImport armoredKey passphrase with
    | Ok None =>
        (setIsImporting false
           (setShowImportPasswordModal true
              (setKeyIdRequiringPassword (Some (keyIdHint_of armoredKey))
                 (setArmoredKeyToImport (Some armoredKey) s))), w)
    | Ok (Some keyObject) =>
        match hydrate keyObject armoredKey with
        | Ok parsedKey =>
            (setKeyIdRequiringPassword None
               (setArmoredKeyToImport None (setKeyImportText "" s)),
             onAddKey parsedKey seeds w)
        | Throw error => (setImportError (Some ("导入失败: " +:+ message error)) s, w)
        end
    | Throw error => (setImportError (Some ("导入失败: " +:+ message error)) s, w)
    end in
  let s := setIsImporting false s in
  (if showImportPasswordModal rendered
      && match armoredKeyToImport rendered with None => true | Some _ => false end
   then setShowImportPasswordModal false s else s, w).

(** [handleImportClick] (lines 141-147) *)
Definition handleImportClick (st : State) (seeds : nat -> Seed) (w : Home.World)
  : State * Home.World :=
  if blank (keyImportText st) then (setImportError (Some "请先粘贴 Armored PGP 密钥。") st, w)
  else handleImportAttempt st (trim (keyImportText st)) None seeds st w.

(** [handleImportWithPassword] (lines 150-159) *)
Definition handleImportWithPassword (st : State) (password : string)
    (seeds : nat -> Seed) (w : Home.World) : State * Home.World :=
  if absent (armoredKeyToImport st) then
    (setShowImportPasswordModal false
       (setImportError (Some "内部错误：丢失了要导入的密钥。") st), w)
  else
    match armoredKeyToImport st with
    | None =>
        (setShowImportPasswordModal false
           (setImportError (Some "内部错误：丢失了要导入的密钥。") st), w)
    | Some armoredKey =>
        handleImportAttempt st armoredKey (Some password) seeds
          (setShowImportPasswordModal false st) w
    end.

(** The [onClose] of the import prompt (lines 382-388). *)
Definition onClose (st : State) : State :=
  setImportError (Some "导入已取消，因为未提供密码。")
    (setKeyIdRequiringPassword None
       (setArmoredKeyToImport None (setShowImportPasswordModal false st))).


Definition alert (text : string) (w : Home.World) : Home.World :=
  let '(alerts, h, st) := w in ((alerts ++ [text])%list, h, st).


End KeyManagement.
End KeyManagement.

(** ** More words of the specification *)

Section MoreVocabulary.
Context `{OpenPGP} `{Browser}.

(** What the loader makes of the armour a key carries: the armour parsed
    again, as a private key when the record is private, and the record built
    from the parsed key. *)
Definition rehydrate (k : PGPKey) : result PGPKey :=
  parsed ← (if isPrivate k then readPrivateKey (armored k) else readKey (armored k));
  hydrate parsed (armored k).

(** [entry] is what [saveKeysToStorage] writes for [k] under
    [masterPassword]: the key's identifier, kind and cached metadata, with the
    armour itself for a public key and the armour wrapped under the master
    password for a private one. *)
Definition stored_as (masterPassword : string) (k : PGPKey) (entry : jsval) : Prop :=
  exists dataToStore created,
    entry = storedKey_of k dataToStore created /\
    toISOString (creationTime k) = Ok created /\
    (if isPrivate k
     then wrapped_under (armored k) masterPassword dataToStore
     else dataToStore = armored k).

(** A candidate the retry loop of [DecryptMessage] passes over: unlocking
    threw, or gave nothing, or gave an armour that does not read as a private
    key. *)
Definition passed_over
    (getDecryptedPrivateKeyArmored : string -> option string -> result (option string))
    (password : string) (targetKey : PGPKey) : Prop :=
  (exists e, getDecryptedPrivateKeyArmored (keyId targetKey) (Some password) = Throw e) \/
  (exists a, getDecryptedPrivateKeyArmored (keyId targetKey) (Some password) = Ok a /\
             absent a = true) \/
  (exists a e, getDecryptedPrivateKeyArmored (keyId targetKey) (Some password)
               = Ok (Some a) /\ a <> "" /\ readPrivateKey a = Throw e).

End MoreVocabulary.

(** Unfolding the state records of the two components. *)
Ltac sign_simpl :=
  cbn [SignMessage.plaintext SignMessage.signedMessageOutput
       SignMessage.selectedPrivateKeyId SignMessage.signMode SignMessage.isLoading
       SignMessage.error SignMessage.showKeyPasswordModal
       SignMessage.keyIdRequiringPassword SignMessage.dataToSign
       SignMessage.setSignedMessageOutput SignMessage.setIsLoading SignMessage.setError
       SignMessage.setShowKeyPasswordModal SignMessage.setKeyIdRequiringPassword
       SignMessage.setDataToSign absent orb negb mbind result_mbind result_bind message].

Ltac decrypt_simpl :=
  cbn [DecryptMessage.ciphertext DecryptMessage.plaintext DecryptMessage.signatureInfo
       DecryptMessage.isLoading DecryptMessage.error DecryptMessage.showKeyPasswordModal
       DecryptMessage.keyIdRequiringPassword DecryptMessage.messageToDecrypt
       DecryptMessage.setPlaintext DecryptMessage.setSignatureInfo
       DecryptMessage.setIsLoading DecryptMessage.setError
       DecryptMessage.setShowKeyPasswordModal DecryptMessage.setKeyIdRequiringPassword
       DecryptMessage.setMessageToDecrypt absent orb negb].

Ltac verify_simpl :=
  cbn [VerifySignature.verifyMode VerifySignature.inputText VerifySignature.signatureText
       VerifySignature.verificationResult VerifySignature.isLoading VerifySignature.error
       VerifySignature.setVerificationResult VerifySignature.setIsLoading
       VerifySignature.setError orb mbind result_mbind result_bind] in *.

(** ** The fixture, continued: the calls of the other components *)

Module FixtureComponents.

#[local] Existing Instance Fixture.engine.
#[local] Existing Instance Fixture.browser.

(** A cleartext message is the signer's identifier (four characters), a
    colon and the text.  The signature checks when the signer's key is among
    the verification keys; otherwise [verified] rejects.  A locked private key
    is read with its passphrase only. *)
Definition components : OpenPGPComponents :=
  {| CleartextMessage := (string * string)%type;
     readPrivateKey_with := fun s pass =>
       match Fixture.parse_key s with
       | Some k =>
           if negb (Fixture.secret k)
           then Throw (mkError "Armored text not of type private key")
           else if Fixture.locked k then
             match pass with
             | Some p =>
                 if String.eqb p Fixture.PASSPHRASE
                 then Ok (Fixture.mkToyKey (Fixture.primary k) (Fixture.subkey k) true false)
                 else Throw (mkError "Error decrypting private key: Incorrect key passphrase")
             | None => Throw (mkError "Private key is encrypted: a passphrase is needed")
             end
           else Ok k
       | None => Throw (mkError "Misformed armored text")
       end;
     generateKey := fun o _ =>
       Ok ((match gen_passphrase o with Some _ => "L" | None => "S" end) +:+ "f00dfeed",
           "Pf00dfeed");
     encrypt_keys := fun m ks _ =>
       match m, ks with
       | Fixture.Literal text, k :: _ => Ok ("@" +:+ Fixture.subkey k +:+ text)
       | Fixture.Literal _, [] =>
           Throw (mkError "Error encrypting message: No keys, passwords, or session key provided.")
       | _, _ => Throw (mkError "Error encrypting message: not a literal message")
       end;
     readCleartextMessage := fun s =>
       match String.get 4 s with
       | Some ":"%char => Ok (String.substring 0 4 s, Fixture.after 5 s)
       | _ => Throw (mkError "Misformed armored text")
       end;
     readSignature := fun s =>
       if String.prefix "sig:" s then Ok tt
       else Throw (mkError "Failed to read signature");
     verify := fun input ks =>
       match input with
       | VerifyCleartext (signer, _) =>
           Ok [ {| verified :=
                     if existsb (fun k => String.eqb (Fixture.primary k) signer) ks
                     then Ok true
                     else Throw (mkError ("Could not find signing key with key ID " +:+ signer));
                   signerKeyID := signer |} ]
       | VerifyDetached _ _ => Ok []
       end;
     key_getUserIDs_text := fun k => ["user " +:+ Fixture.primary k] |}.

#[local] Existing Instance components.

(** The public key [abcd] with encryption subkey [1234], as a record. *)
Definition abcdKey : PGPKey :=
  {| keyId := "abcd";
     armored := "Pabcd1234";
     keyObject := Fixture.mkToyKey "abcd" "1234" false false;
     userIds := ["user abcd"];
     primaryUserId := "user abcd";
     isPrivate := false;
     creationTime := 0 |}.

(** The records of the generated pair [f00d]. *)
Definition f00dPrivate : PGPKey :=
  {| keyId := "f00d";
     armored := "Sf00dfeed";
     keyObject := Fixture.mkToyKey "f00d" "feed" true false;
     userIds := ["user f00d"];
     primaryUserId := "user f00d";
     isPrivate := true;
     creationTime := 0 |}.

Definition f00dPublic : PGPKey :=
  {| keyId := "f00d";
     armored := "Pf00dfeed";
     keyObject := Fixture.mkToyKey "f00d" "feed" false false;
     userIds := ["user f00d"];
     primaryUserId := "user f00d";
     isPrivate := false;
     creationTime := 0 |}.

(** [SignMessage] as mounted, with a text typed and the key [cafe] chosen;
    and the same after an earlier attempt left its traces. *)
Definition signStart : SignMessage.State :=
  SignMessage.mkState "hello" "" "cafe" SignMessage.cleartext false None false None None.
Definition signAgain : SignMessage.State :=
  SignMessage.mkState "hello" "signed:older" "cafe" SignMessage.cleartext true
    (Some "签名操作失败: older") false (Some "0000") (Some "older").

(** [DecryptMessage] after an earlier attempt, the same message pasted. *)
Definition decryptAgain : DecryptMessage.State :=
  DecryptMessage.mkState "@beefhello" "older" (Some "older") true (Some "older") false
    (Some "0000") (Some (Fixture.Literal "older")).

(** [EncryptMessage] with a text typed. *)
Definition encryptStart (selected : list string) : EncryptMessage.State :=
  EncryptMessage.mkState "hello" "" selected false None.

(** [VerifySignature] with a text pasted. *)
Definition verifyStart (text : string) : VerifySignature.State :=
  VerifySignature.mkState VerifySignature.cleartext text "" None false None.

(** [KeyManagement] as mounted, with a text pasted and a form filled in. *)
Definition keyManagementStart (text : string) : KeyManagement.State :=
  KeyManagement.mkState text false None false None None false false None
    (KeyManagement.mkKeyGenOptions "Ada" "ada@example.org" "" ecc "curve25519" 4096).

End FixtureComponents.


(** ** The fixture, once more: the engine with the wording of OpenPGP.js

    The same toy engine, with two refusals worded as OpenPGP.js words them:
    the wrong password of a symmetric message ("Session key decryption
    failed.") and the wrong passphrase of a key ("Incorrect key
    passphrase"). *)

Module FixtureWording.

Definition engine : OpenPGP :=
  {| Message := Fixture.ToyMessage;
     Key := Fixture.ToyKey;
     Signature := unit;
     Seed := unit;
     createMessage := @createMessage Fixture.engine;
     encrypt_passwords := @encrypt_passwords Fixture.engine;
     readMessage := @readMessage Fixture.engine;
     decrypt_passwords := fun m pw =>
       match m with
       | Fixture.Sealed pw' text =>
           if String.eqb pw pw' then Ok (DataString text)
           else Throw (mkError "Error decrypting message: Session key decryption failed.")
       | _ => Throw (mkError "Error decrypting message: No symmetrically encrypted session key packet found.")
       end;
     readPrivateKey := @readPrivateKey Fixture.engine;
     readKey := @readKey Fixture.engine;
     key_getKeyID := @key_getKeyID Fixture.engine;
     key_getPrimaryUser := @key_getPrimaryUser Fixture.engine;
     key_getUserIDs := @key_getUserIDs Fixture.engine;
     key_getCreationTime := @key_getCreationTime Fixture.engine;
     key_isPrivate := @key_isPrivate Fixture.engine;
     key_isDecrypted := @key_isDecrypted Fixture.engine;
     key_armor := @key_armor Fixture.engine;
     decryptKey := fun k pass =>
       if negb (Fixture.locked k) then Throw (mkError "Key packet is already decrypted.")
       else if String.eqb pass Fixture.PASSPHRASE
            then Ok (Fixture.mkToyKey (Fixture.primary k) (Fixture.subkey k)
                       (Fixture.secret k) false)
            else Throw (mkError "Error decrypting private key: Incorrect key passphrase");
     msg_getEncryptionKeyIDs := @msg_getEncryptionKeyIDs Fixture.engine;
     decrypt_keys := @decrypt_keys Fixture.engine;
     sign := @sign Fixture.engine;
     signature_report := @signature_report Fixture.engine |}.

#[local] Existing Instance engine.
#[local] Existing Instance Fixture.browser.

(** The records of the fixture, over this engine. *)
Definition abcdKey : PGPKey :=
  {| keyId := "abcd";
     armored := "Pabcd1234";
     keyObject := Fixture.mkToyKey "abcd" "1234" false false;
     userIds := ["user abcd"];
     primaryUserId := "user abcd";
     isPrivate := false;
     creationTime := 0 |}.

Definition cafeKey : PGPKey :=
  {| keyId := "cafe";
     armored := "Scafebeef";
     keyObject := Fixture.mkToyKey "cafe" "beef" true false;
     userIds := ["user cafe"];
     primaryUserId := "user cafe";
     isPrivate := true;
     creationTime := 0 |}.

Definition lockedKey : PGPKey :=
  {| keyId := "cafe";
     armored := "Lcafebeef";
     keyObject := Fixture.mkToyKey "cafe" "beef" true true;
     userIds := ["user cafe"];
     primaryUserId := "user cafe";
     isPrivate := true;
     creationTime := 0 |}.

(** A public record that is in order. *)
Definition publicRecord : jsval := Fixture.entry "abcd" "public" "Pabcd1234".

End FixtureWording.


(** * Properties *)

(** ** Strings and messages *)

Lemma wrong_password_message_marked :
  includes MSG_WRONG_PASSWORD MARK_WRONG_PASSWORD = true.
Proof. reflexivity. Qed.

Lemma decrypt_failed_message_unmarked :
  includes MSG_DECRYPT_FAILED MARK_WRONG_PASSWORD = false.
Proof. reflexivity. Qed.

Lemma includes_append_r front back needle :
  includes back needle = true -> includes (front +:+ back) needle = true.
Proof.
  intros Hb. induction front as [| c front IH]; [exact Hb |].
  change (String c front +:+ back) with (String c (front +:+ back)).
  cbn [includes]. rewrite IH. apply orb_true_r.
Qed.

(** The message the loader throws names the master password, whatever the
    identifier in it. *)
Lemma load_abort_message_marked id :
  includes (MSG_LOAD_ABORT id) "主密码错误" = true.
Proof.
  unfold MSG_LOAD_ABORT.
  apply includes_append_r, includes_append_r. reflexivity.
Qed.

Section StorageFacts.
Context `{OpenPGP} `{Browser}.

Lemma decryptData_ok encryptedArmored password text :
  decryptData encryptedArmored password = Ok text <->
  decryptData_try encryptedArmored password = Ok text.
Proof.
  unfold decryptData.
  destruct (decryptData_try encryptedArmored password) as [s | e].
  - tauto.
  - destruct (reports_password_failure e); split; discriminate.
Qed.

Lemma decryptData_wrong_password encryptedArmored password :
  decryptData encryptedArmored password = Throw (mkError MSG_WRONG_PASSWORD) <->
  exists e, decryptData_try encryptedArmored password = Throw e /\
            reports_password_failure e = true.
Proof.
  unfold decryptData.
  destruct (decryptData_try encryptedArmored password) as [s | e].
  - split; [discriminate | intros (e & He & _); discriminate].
  - destruct (reports_password_failure e) eqn:Hr; split.
    + eauto.
    + reflexivity.
    + intros Heq. injection Heq as Heq. vm_compute in Heq. discriminate.
    + intros (e' & He' & Hr'). injection He' as <-. congruence.
Qed.

Lemma decryptData_corrupt encryptedArmored password :
  decryptData encryptedArmored password = Throw (mkError MSG_DECRYPT_FAILED) <->
  exists e, decryptData_try encryptedArmored password = Throw e /\
            reports_password_failure e = false.
Proof.
  unfold decryptData.
  destruct (decryptData_try encryptedArmored password) as [s | e].
  - split; [discriminate | intros (e & He & _); discriminate].
  - destruct (reports_password_failure e) eqn:Hr; split.
    + intros Heq. injection Heq as Heq. vm_compute in Heq. discriminate.
    + intros (e' & He' & Hr'). injection He' as <-. congruence.
    + eauto.
    + reflexivity.
Qed.

Lemma decryptData_try_ok encryptedArmored password text :
  decryptData_try encryptedArmored password = Ok text <->
  exists m, readMessage encryptedArmored = Ok m /\
            decrypt_passwords m password = Ok (DataString text).
Proof.
  unfold decryptData_try. cbn.
  destruct (readMessage encryptedArmored) as [m | e]; cbn.
  - destruct (decrypt_passwords m password) as [[s |] | e] eqn:Hd; cbn.
    + split.
      * intros [= ->]. eauto.
      * intros (m' & [= <-] & Hd'). congruence.
    + split; [discriminate |]. intros (m' & [= <-] & Hd'). congruence.
    + split; [discriminate |]. intros (m' & [= <-] & Hd'). congruence.
  - split; [discriminate |]. intros (m' & Hm' & _). discriminate.
Qed.

Lemma decryptData_try_throw encryptedArmored password e :
  decryptData_try encryptedArmored password = Throw e <->
  engine_failure encryptedArmored password e \/
  (engine_not_string encryptedArmored password /\
   e = mkError "Decrypted data is not a string.").
Proof.
  unfold decryptData_try, engine_failure, engine_not_string. cbn.
  destruct (readMessage encryptedArmored) as [m | e0]; cbn.
  - destruct (decrypt_passwords m password) as [[s |] | e1] eqn:Hd; cbn.
    + split; [discriminate |].
      intros [[Hr | (m' & [= <-] & Hd')] | [(m' & [= <-] & Hd') _]]; congruence.
    + split.
      * intros [= <-]. right. eauto.
      * intros [[Hr | (m' & [= <-] & Hd')] | [_ ->]]; congruence.
    + split.
      * intros [= <-]. left. right. eauto.
      * intros [[Hr | (m' & [= <-] & Hd')] | [(m' & [= <-] & Hd') _]]; congruence.
  - split.
    + intros [= <-]. left. left. reflexivity.
    + intros [[Hr | (m' & Hm' & _)] | [(m' & Hm' & _) _]]; congruence.
Qed.

End StorageFacts.

(** ** The vault: verifier and symmetric wrapping *)

Section VaultFacts.
Context `{OpenPGP} `{Browser} `{!OpenPGPLaws}.

Lemma decryptData_empty password :
  exists e, decryptData "" password = Throw e.
Proof.
  destruct readMessage_empty as [e He].
  unfold decryptData, decryptData_try. cbn. rewrite He. cbn.
  destruct (reports_password_failure e); eauto.
Qed.

Lemma encryptData_ok text password seed c :
  encryptData text password seed = Ok c ->
  exists m, createMessage text = Ok m /\ encrypt_passwords m password seed = Ok c.
Proof.
  unfold encryptData. cbn.
  destruct (createMessage text) as [m | e]; cbn; [| discriminate].
  destruct (encrypt_passwords m password seed) as [c' | e] eqn:He; [| discriminate].
  intros [= <-]. eauto.
Qed.

(** What the engine's laws give at the level of [decryptData]. *)
Lemma wrapped_unwraps text password c :
  wrapped_under text password c ->
  decryptData c password = Ok text /\
  c <> "" /\
  forall password2, password2 <> password ->
    exists e, engine_failure c password2 e /\
              decryptData_try c password2 = Throw e /\
              decryptData c password2
              = Throw (mkError (if reports_password_failure e
                                then MSG_WRONG_PASSWORD else MSG_DECRYPT_FAILED)).
Proof.
  intros [seed Hw]. apply encryptData_ok in Hw as (m & Hm & Hc).
  destruct (password_roundtrip _ _ _ _ _ Hm Hc) as (m' & Hr & Hd & Hother).
  split; [| split].
  - apply decryptData_ok, decryptData_try_ok. eauto.
  - intros ->. destruct readMessage_empty as [e He]. congruence.
  - intros password2 Hne. destruct (Hother _ Hne) as (e & He).
    assert (engine_failure c password2 e) as Hfailure by (right; eauto).
    assert (decryptData_try c password2 = Throw e) as Htry
      by (apply decryptData_try_throw; now left).
    exists e. split; [exact Hfailure |]. split; [exact Htry |].
    unfold decryptData. rewrite Htry. now destruct (reports_password_failure e).
Qed.

(** C4: [decryptData] tells a wrong password from damaged data by the words
    of the engine's error, not by what failed.  For a text wrapped under [W]
    and any other password the engine fails with some error [e]; the error
    thrown is the wrong-password one only when the message of [e] contains
    "password" or "Passphrase incorrect".  On any other wording of the
    refusal the wrong password is reported with the message of damaged data,
    which the loader's test does not recognise as a password failure. *)
Theorem decryptData_wrong_password_follows_wording text W c W2 :
  wrapped_under text W c ->
  W2 <> W ->
  exists e,
    engine_failure c W2 e /\
    (reports_password_failure e = true ->
     decryptData c W2 = Throw (mkError MSG_WRONG_PASSWORD)) /\
    (reports_password_failure e = false ->
     decryptData c W2 = Throw (mkError MSG_DECRYPT_FAILED) /\
     includes MSG_DECRYPT_FAILED MARK_WRONG_PASSWORD = false).
Proof.
  intros Hw Hne.
  destruct (wrapped_unwraps _ _ _ Hw) as (_ & _ & Hother).
  destruct (Hother _ Hne) as (e & Hfailure & _ & Hthrows).
  exists e. split; [exact Hfailure |]. split.
  - intros Hmarked. now rewrite Hmarked in Hthrows.
  - intros Hunmarked. rewrite Hunmarked in Hthrows. now split.
Qed.

Lemma setMasterPassword_ok st password seed st' :
  setMasterPassword st password seed = (Ok tt, st') ->
  exists c, encryptData VERIFIER_PLAINTEXT password seed = Ok c /\
            storage_accepts st MASTER_PASSWORD_VERIFIER_KEY c = true /\
            st' = <[MASTER_PASSWORD_VERIFIER_KEY := c]> st.
Proof.
  unfold setMasterPassword. cbn.
  destruct (encryptData VERIFIER_PLAINTEXT password seed) as [c | e]; cbn; [| discriminate].
  unfold setItem.
  destruct (storage_accepts st MASTER_PASSWORD_VERIFIER_KEY c) eqn:Hq; [| discriminate].
  intros [= <-]. eauto.
Qed.

Lemma verifyMasterPassword_true_iff st password :
  verifyMasterPassword st password = Ok true <->
  exists stored, getItem st MASTER_PASSWORD_VERIFIER_KEY = Some stored /\
                 decryptData stored password = Ok VERIFIER_PLAINTEXT.
Proof.
  unfold verifyMasterPassword.
  destruct (getItem st MASTER_PASSWORD_VERIFIER_KEY) as [stored |] eqn:Hg;
    unfold absent.
  - destruct (String.eqb stored "") eqn:Hempty.
    + apply String.eqb_eq in Hempty as ->.
      destruct (decryptData_empty password) as [e He].
      split; [discriminate |]. intros (s & [= <-] & Hd). congruence.
    + destruct (decryptData stored password) as [text | e] eqn:Hd.
      * split.
        -- intros [= Heq]. apply String.eqb_eq in Heq as ->. eauto.
        -- intros (s & [= <-] & Hd'). rewrite Hd in Hd'. injection Hd' as ->.
           now rewrite String.eqb_refl.
      * split; [discriminate |]. intros (s & [= <-] & Hd'). congruence.
  - split; [discriminate |]. intros (s & ? & _). discriminate.
Qed.

Lemma verifyMasterPassword_total st password :
  exists b, verifyMasterPassword st password = Ok b.
Proof.
  unfold verifyMasterPassword.
  destruct (absent _); [eauto |].
  destruct (getItem st MASTER_PASSWORD_VERIFIER_KEY); [| eauto].
  destruct (decryptData _ _); eauto.
Qed.

Lemma verifyMasterPassword_unwrap_failure st password stored e :
  getItem st MASTER_PASSWORD_VERIFIER_KEY = Some stored ->
  decryptData stored password = Throw e ->
  verifyMasterPassword st password = Ok false.
Proof.
  intros Hg Hd. unfold verifyMasterPassword. rewrite Hg, Hd.
  now destruct (absent _).
Qed.

(** C3: once [setMasterPassword W] has succeeded, [verifyMasterPassword W] is
    true and [verifyMasterPassword W2] is false for every other password.
    On any storage, [verifyMasterPassword] is true exactly when the stored
    verifier unwraps to the marker, it answers false when unwrapping fails,
    and it never throws. *)
Theorem verifyMasterPassword_correct st W seed st' :
  setMasterPassword st W seed = (Ok tt, st') ->
  verifyMasterPassword st' W = Ok true /\
  (forall W2, W2 <> W -> verifyMasterPassword st' W2 = Ok false) /\
  (forall st0 password,
     verifyMasterPassword st0 password = Ok true <->
     exists stored, getItem st0 MASTER_PASSWORD_VERIFIER_KEY = Some stored /\
                    decryptData stored password = Ok VERIFIER_PLAINTEXT) /\
  (forall st0 password stored e,
     getItem st0 MASTER_PASSWORD_VERIFIER_KEY = Some stored ->
     decryptData stored password = Throw e ->
     verifyMasterPassword st0 password = Ok false) /\
  (forall st0 password, exists b, verifyMasterPassword st0 password = Ok b).
Proof.
  intros Hset.
  apply setMasterPassword_ok in Hset as (c & Henc & _ & ->).
  assert (Hg : getItem (<[MASTER_PASSWORD_VERIFIER_KEY := c]> st)
                 MASTER_PASSWORD_VERIFIER_KEY = Some c)
    by apply lookup_insert_eq.
  destruct (wrapped_unwraps VERIFIER_PLAINTEXT W c) as (Hsame & Hne & Hother);
    [now exists seed |].
  split; [| split; [| split; [| split]]].
  - apply verifyMasterPassword_true_iff. eauto.
  - intros W2 HW2. destruct (Hother _ HW2) as (e & _ & _ & Hthrows).
    eapply verifyMasterPassword_unwrap_failure; [exact Hg | exact Hthrows].
  - apply verifyMasterPassword_true_iff.
  - apply verifyMasterPassword_unwrap_failure.
  - apply verifyMasterPassword_total.
Qed.

End VaultFacts.

(** ** The loader, one record at a time *)

Section LoaderFacts.
Context `{OpenPGP} `{Browser}.

Lemma get_prop_truthy v name x : get_prop v name = Some x -> truthy v = true.
Proof. destruct v; cbn; congruence. Qed.

Lemma loadOne_persisted storedKey id data masterPassword :
  persisted storedKey id data ->
  loadOne storedKey masterPassword =
  match loadOne_try storedKey data masterPassword with
  | Ok (Some k) => Loaded k
  | Ok None => Skipped
  | Throw error =>
      if includes (message error) MARK_WRONG_PASSWORD
      then Aborted (mkError (MSG_LOAD_ABORT id))
      else Skipped
  end.
Proof.
  intros [Hid Hdata]. unfold loadOne.
  rewrite (get_prop_truthy _ _ _ Hid), Hid, Hdata. reflexivity.
Qed.

Lemma loadOne_unpersisted storedKey masterPassword :
  (forall id data, ~ persisted storedKey id data) ->
  loadOne storedKey masterPassword = Skipped.
Proof.
  intros Hno. unfold loadOne.
  destruct (negb (truthy storedKey)); [reflexivity |].
  destruct (get_prop storedKey "keyId") as [[| | | id | |] |] eqn:Hid; try reflexivity.
  destruct (get_prop storedKey "data") as [[| | | data | |] |] eqn:Hdata; try reflexivity.
  destruct (Hno id data). now split.
Qed.

(** Whatever aborts the load is the wrong-password error of line 222. *)
Lemma loadOne_aborted storedKey masterPassword e :
  loadOne storedKey masterPassword = Aborted e ->
  exists id, e = mkError (MSG_LOAD_ABORT id).
Proof.
  unfold loadOne.
  destruct (negb (truthy storedKey)); [discriminate |].
  destruct (get_prop storedKey "keyId") as [[| | | id | |] |]; try discriminate.
  destruct (get_prop storedKey "data") as [[| | | data | |] |]; try discriminate.
  destruct (loadOne_try storedKey data masterPassword) as [[k |] | err]; try discriminate.
  destruct (includes (message err) MARK_WRONG_PASSWORD); [| discriminate].
  intros [= <-]. eauto.
Qed.

Lemma hydrate_fields parsed armoredKeyData k :
  hydrate parsed armoredKeyData = Ok k ->
  keyObject k = parsed /\ armored k = armoredKeyData.
Proof.
  unfold hydrate. cbn.
  destruct (key_getPrimaryUser parsed) as [primaryUser | e]; cbn; [| discriminate].
  intros [= <-]. now split.
Qed.

Lemma hydrate_metadata parsed armoredKeyData k :
  hydrate parsed armoredKeyData = Ok k ->
  isPrivate k = key_isPrivate parsed /\
  keyId k = key_getKeyID parsed /\
  creationTime k = key_getCreationTime parsed /\
  (exists primaryUser,
     key_getPrimaryUser parsed = Ok primaryUser /\
     primaryUserId k =
       nullish primaryUser ("No User ID (" +:+ slice_last 8 (key_getKeyID parsed) +:+ ")") /\
     userIds k =
       match key_getUserIDs parsed with
       | [] => [primaryUserId k]
       | uids => map (fun uid => nullish uid "No UserID packet") uids
       end).
Proof.
  unfold hydrate. cbn.
  destruct (key_getPrimaryUser parsed) as [primaryUser | e]; cbn; [| discriminate].
  intros [= <-]. cbn. repeat split.
  exists primaryUser. repeat split.
  now destruct (key_getUserIDs parsed).
Qed.

(** A record that was loaded: where its key object came from, and that
    the record is [hydrate] of that key object. *)
Lemma loadOne_loaded storedKey masterPassword k :
  loadOne storedKey masterPassword = Loaded k ->
  exists id data,
    persisted storedKey id data /\
    (if type_is_private storedKey
     then decryptData data masterPassword = Ok (armored k) /\
          readPrivateKey (armored k) = Ok (keyObject k)
     else armored k = data /\ readKey data = Ok (keyObject k)) /\
    hydrate (keyObject k) (armored k) = Ok k.
Proof.
  unfold loadOne.
  destruct (negb (truthy storedKey)); [discriminate |].
  destruct (get_prop storedKey "keyId") as [[| | | id | |] |] eqn:Hid; try discriminate.
  destruct (get_prop storedKey "data") as [[| | | data | |] |] eqn:Hdata; try discriminate.
  destruct (loadOne_try storedKey data masterPassword) as [[k' |] | err] eqn:Htry;
    try discriminate.
  - intros [= ->]. exists id, data. split; [now split |].
    unfold loadOne_try in Htry. cbn in Htry.
    destruct (type_is_private storedKey).
    + destruct (decryptData data masterPassword) as [armoredKey | e] eqn:Hd; cbn in Htry;
        [| discriminate].
      destruct (readPrivateKey armoredKey) as [parsed | e] eqn:Hr; [| discriminate].
      destruct (hydrate parsed armoredKey) as [k' | e] eqn:Hh; cbn in Htry; [| discriminate].
      injection Htry as ->.
      destruct (hydrate_fields _ _ _ Hh) as [-> ->]. now repeat split.
    + cbn in Htry.
      destruct (readKey data) as [parsed | e] eqn:Hr; [| discriminate].
      destruct (hydrate parsed data) as [k' | e] eqn:Hh; cbn in Htry; [| discriminate].
      injection Htry as ->.
      destruct (hydrate_fields _ _ _ Hh) as [-> ->]. now repeat split.
  - destruct (includes (message err) MARK_WRONG_PASSWORD); discriminate.
Qed.

Lemma loadOne_corrupted storedKey masterPassword :
  corrupted masterPassword storedKey ->
  loadOne storedKey masterPassword = Skipped.
Proof.
  intros [id data e Hp Ht Hr | id data armoredKey e Hp Ht Hd Hr | id data e Hp Ht Hd Hr];
    rewrite (loadOne_persisted _ _ _ _ Hp); unfold loadOne_try; rewrite Ht; cbn.
  - now rewrite Hr.
  - rewrite Hd. cbn. now rewrite Hr.
  - assert (Hc : decryptData data masterPassword = Throw (mkError MSG_DECRYPT_FAILED))
      by (apply decryptData_corrupt; eauto).
    rewrite Hc. reflexivity.
Qed.

Lemma loadLoop_aborts storedKeys masterPassword storedKey e :
  storedKey ∈ storedKeys ->
  loadOne storedKey masterPassword = Aborted e ->
  forall loadedKeys,
    exists id, loadLoop storedKeys masterPassword loadedKeys =
               Throw (mkError (MSG_LOAD_ABORT id)).
Proof.
  intros Hin Habort.
  induction storedKeys as [| first rest IH]; [now apply elem_of_nil in Hin |].
  intros loadedKeys. cbn.
  destruct (loadOne first masterPassword) as [k | | e'] eqn:Hfirst.
  - apply elem_of_cons in Hin as [-> | Hin]; [congruence | now apply IH].
  - apply elem_of_cons in Hin as [-> | Hin]; [congruence | now apply IH].
  - apply loadOne_aborted in Hfirst as [id ->]. eauto.
Qed.

Lemma loadLoop_members storedKeys masterPassword :
  forall loadedKeys ks k,
    loadLoop storedKeys masterPassword loadedKeys = Ok ks ->
    k ∈ ks ->
    k ∈ loadedKeys \/
    exists storedKey, storedKey ∈ storedKeys /\
                      loadOne storedKey masterPassword = Loaded k.
Proof.
  induction storedKeys as [| first rest IH]; intros loadedKeys ks k; cbn.
  - intros [= <-] Hk. now left.
  - destruct (loadOne first masterPassword) as [k' | | e] eqn:Hfirst;
      [| | discriminate]; intros Hloop Hk.
    + destruct (IH _ _ _ Hloop Hk) as [Hacc | (sk & Hsk & Hl)].
      * apply elem_of_app in Hacc as [Hacc | Hone]; [now left |].
        apply list_elem_of_singleton in Hone as ->.
        right. exists first. split; [apply list_elem_of_here | exact Hfirst].
      * right. exists sk. split; [now apply list_elem_of_further | exact Hl].
    + destruct (IH _ _ _ Hloop Hk) as [Hacc | (sk & Hsk & Hl)]; [now left |].
      right. exists sk. split; [now apply list_elem_of_further | exact Hl].
Qed.

(** The loader leaves [localStorage] alone once the collection parsed. *)
Lemma loadKeysFromStorage_array st text storedKeys masterPassword :
  getItem st STORAGE_KEY = Some text ->
  text <> "" ->
  JSON_parse text = Some (JArr storedKeys) ->
  loadKeysFromStorage st masterPassword = (loadLoop storedKeys masterPassword [], st).
Proof.
  intros Hg Hne Hp. unfold loadKeysFromStorage. rewrite Hg. cbn.
  destruct (String.eqb text "") eqn:He; [now apply String.eqb_eq in He |].
  now rewrite Hp.
Qed.

Lemma loadKeysFromStorage_ok st masterPassword ks st' :
  loadKeysFromStorage st masterPassword = (Ok ks, st') ->
  ks = [] \/
  exists text storedKeys,
    getItem st STORAGE_KEY = Some text /\
    JSON_parse text = Some (JArr storedKeys) /\
    loadLoop storedKeys masterPassword [] = Ok ks.
Proof.
  unfold loadKeysFromStorage.
  destruct (getItem st STORAGE_KEY) as [text |]; cbn.
  - destruct (String.eqb text ""); [intros [= <- _]; now left |].
    destruct (JSON_parse text) as [[| | | | storedKeys |] |] eqn:Hp;
      try (intros [= <- _]; now left).
    intros [= Hl _]. right. eauto.
  - intros [= <- _]. now left.
Qed.

(** C5, as the code has it: every record [loadKeysFromStorage] returns comes
    from a persisted entry whose data was (unwrapped and) parsed into its key
    object, the persisted kind only choosing between the two ways; and the
    record is [hydrate] of that key object, so that its kind is what
    [isPrivate()] of the parsed key says and its identifier, user identities,
    primary identity and creation time are read from the parsed key, none of
    them from the persisted entry. *)
Theorem loaded_record_from_parsed_key st masterPassword ks st' k :
  loadKeysFromStorage st masterPassword = (Ok ks, st') ->
  k ∈ ks ->
  (exists text storedKeys storedKey id data,
     getItem st STORAGE_KEY = Some text /\
     JSON_parse text = Some (JArr storedKeys) /\
     storedKey ∈ storedKeys /\
     persisted storedKey id data /\
     (if type_is_private storedKey
      then decryptData data masterPassword = Ok (armored k) /\
           readPrivateKey (armored k) = Ok (keyObject k)
      else armored k = data /\ readKey data = Ok (keyObject k))) /\
  hydrate (keyObject k) (armored k) = Ok k /\
  isPrivate k = key_isPrivate (keyObject k) /\
  keyId k = key_getKeyID (keyObject k) /\
  creationTime k = key_getCreationTime (keyObject k) /\
  (exists primaryUser,
     key_getPrimaryUser (keyObject k) = Ok primaryUser /\
     primaryUserId k =
       nullish primaryUser
         ("No User ID (" +:+ slice_last 8 (key_getKeyID (keyObject k)) +:+ ")") /\
     userIds k =
       match key_getUserIDs (keyObject k) with
       | [] => [primaryUserId k]
       | uids => map (fun uid => nullish uid "No UserID packet") uids
       end).
Proof.
  intros Hload Hk.
  apply loadKeysFromStorage_ok in Hload as [-> | (text & storedKeys & Hg & Hp & Hloop)];
    [now apply elem_of_nil in Hk |].
  destruct (loadLoop_members _ _ _ _ _ Hloop Hk) as [Hnil | (storedKey & Hin & Hone)];
    [now apply elem_of_nil in Hnil |].
  apply loadOne_loaded in Hone as (id & data & Hpers & Hsrc & Hh).
  split; [exists text, storedKeys, storedKey, id, data; tauto |].
  split; [exact Hh |].
  exact (hydrate_metadata _ _ _ Hh).
Qed.

(** C9, as the code has it: a stored collection that is not empty text and
    does not parse to an array makes the loader remove both the collection
    and the verifier and return an empty list; empty text is taken for no
    collection at all, with an empty list and nothing removed. *)
Theorem load_unreadable_collection st text masterPassword :
  getItem st STORAGE_KEY = Some text ->
  (forall items, JSON_parse text <> Some (JArr items)) ->
  (text <> "" ->
   loadKeysFromStorage st masterPassword = (Ok [], clearAllStoredKeys st) /\
   getItem (clearAllStoredKeys st) STORAGE_KEY = None /\
   getItem (clearAllStoredKeys st) MASTER_PASSWORD_VERIFIER_KEY = None) /\
  (text = "" -> loadKeysFromStorage st masterPassword = (Ok [], st)).
Proof.
  intros Hg Hbad. unfold loadKeysFromStorage. rewrite Hg. cbn. split.
  - intros Hne.
    destruct (String.eqb text "") eqn:He; [now apply String.eqb_eq in He |].
    split; [| split].
    + destruct (JSON_parse text) as [[| | | | items |] |] eqn:Hp; try reflexivity.
      now destruct (Hbad items).
    + unfold clearAllStoredKeys, removeItem, getItem.
      rewrite lookup_delete_ne by (intros Heq; vm_compute in Heq; discriminate).
      apply lookup_delete_eq.
    + unfold clearAllStoredKeys, removeItem, getItem. apply lookup_delete_eq.
  - intros ->. reflexivity.
Qed.

End LoaderFacts.

(** ** The loader and the master password *)

Section LoaderPasswordFacts.
Context `{OpenPGP} `{Browser} `{!OpenPGPLaws} `{!BrowserLaws}.

Lemma parsed_text_nonempty text v : JSON_parse text = Some v -> text <> "".
Proof. intros Hp ->. rewrite JSON_parse_empty in Hp. discriminate. Qed.

(** A private record wrapped under another password: the engine refuses,
    and the iteration aborts the load or skips the record according to the
    words of the refusal. *)
Lemma loadOne_other_password storedKey id data armoredKey W W2 :
  persisted storedKey id data ->
  type_is_private storedKey = true ->
  wrapped_under armoredKey W data ->
  W2 <> W ->
  exists e,
    engine_failure data W2 e /\
    loadOne storedKey W2
    = if reports_password_failure e
      then Aborted (mkError (MSG_LOAD_ABORT id)) else Skipped.
Proof.
  intros Hp Ht Hw Hne.
  rewrite (loadOne_persisted _ _ _ _ Hp). unfold loadOne_try. rewrite Ht.
  destruct (wrapped_unwraps _ _ _ Hw) as (_ & _ & Hother).
  destruct (Hother _ Hne) as (e & Hfailure & _ & ->).
  exists e. split; [exact Hfailure |].
  now destruct (reports_password_failure e).
Qed.

Lemma loadOne_valid storedKey masterPassword k :
  valid masterPassword storedKey k ->
  loadOne storedKey masterPassword = Loaded k.
Proof.
  intros [id data parsed Hp Ht Hr Hh | id data armoredKey parsed Hp Ht Hw Hr Hh];
    rewrite (loadOne_persisted _ _ _ _ Hp); unfold loadOne_try; rewrite Ht; cbn.
  - rewrite Hr, Hh. reflexivity.
  - destruct (wrapped_unwraps _ _ _ Hw) as (Hd & _ & _).
    rewrite Hd. cbn. rewrite Hr, Hh. reflexivity.
Qed.

Lemma loadLoop_survivors_then masterPassword storedKeys ks :
  survivors masterPassword storedKeys ks ->
  forall rest loadedKeys,
    loadLoop (storedKeys ++ rest) masterPassword loadedKeys
    = loadLoop rest masterPassword (loadedKeys ++ ks)%list.
Proof.
  induction 1 as [| storedKey k storedKeys ks Hv _ IH | storedKey storedKeys ks Hc _ IH];
    intros rest loadedKeys; cbn.
  - now rewrite app_nil_r.
  - rewrite (loadOne_valid _ _ _ Hv), IH, <- app_assoc. reflexivity.
  - rewrite (loadOne_corrupted _ _ Hc). apply IH.
Qed.

Lemma loadLoop_survivors masterPassword storedKeys ks :
  survivors masterPassword storedKeys ks ->
  forall loadedKeys,
    loadLoop storedKeys masterPassword loadedKeys = Ok (loadedKeys ++ ks)%list.
Proof.
  induction 1 as [| storedKey k rest ks Hv _ IH | storedKey rest ks Hc _ IH];
    intros loadedKeys; cbn.
  - now rewrite app_nil_r.
  - rewrite (loadOne_valid _ _ _ Hv), IH, <- app_assoc. reflexivity.
  - rewrite (loadOne_corrupted _ _ Hc). apply IH.
Qed.

(** C1: what the load does with a private record wrapped under [W] when it
    is given another password depends on the words of the engine's refusal.
    The engine fails on the record with some error [e].  When the message of
    [e] contains "password" or "Passphrase incorrect" the load throws the
    loader's wrong-password error and returns no list.  On any other wording
    the record is skipped like a damaged one and the load returns, without an
    exception, the keys of the valid records before and after it.  The
    records before the one in question are such that the loop reaches it. *)
Theorem load_wrong_password_follows_wording st text before storedKey after id data
    armoredKey W W2 ks1 ks2 :
  getItem st STORAGE_KEY = Some text ->
  JSON_parse text = Some (JArr (before ++ storedKey :: after)%list) ->
  persisted storedKey id data ->
  type_is_private storedKey = true ->
  wrapped_under armoredKey W data ->
  W2 <> W ->
  survivors W2 before ks1 ->
  survivors W2 after ks2 ->
  exists e,
    engine_failure data W2 e /\
    (reports_password_failure e = true ->
     loadKeysFromStorage st W2 = (Throw (mkError (MSG_LOAD_ABORT id)), st) /\
     includes (MSG_LOAD_ABORT id) "主密码错误" = true) /\
    (reports_password_failure e = false ->
     loadKeysFromStorage st W2 = (Ok (ks1 ++ ks2)%list, st)).
Proof.
  intros Hg Hp Hpers Ht Hw Hne Hbefore Hafter.
  rewrite (loadKeysFromStorage_array _ _ _ _ Hg (parsed_text_nonempty _ _ Hp) Hp).
  rewrite (loadLoop_survivors_then _ _ _ Hbefore). cbn [app loadLoop].
  destruct (loadOne_other_password _ _ _ _ _ _ Hpers Ht Hw Hne) as (e & Hfailure & ->).
  exists e. split; [exact Hfailure |]. split; intros ->.
  - split; [reflexivity | apply load_abort_message_marked].
  - now rewrite (loadLoop_survivors _ _ _ Hafter).
Qed.

(** C8: corrupted records are skipped one by one and the load goes on: on a
    collection in which every record is either valid or corrupted, loading
    with the master password returns exactly the keys of the valid records,
    in order, and leaves the storage as it was.  One corrupted public record
    and one valid private record, in either order, is the case
    [survivors_corrupted] then [survivors_valid] (or the reverse) of it. *)
Theorem load_skips_corrupted_records st text storedKeys masterPassword ks :
  getItem st STORAGE_KEY = Some text ->
  JSON_parse text = Some (JArr storedKeys) ->
  survivors masterPassword storedKeys ks ->
  loadKeysFromStorage st masterPassword = (Ok ks, st).
Proof.
  intros Hg Hp Hs.
  rewrite (loadKeysFromStorage_array _ _ _ _ Hg (parsed_text_nonempty _ _ Hp) Hp).
  now rewrite (loadLoop_survivors _ _ _ Hs []).
Qed.

End LoaderPasswordFacts.

(** ** page.tsx: the verifier guard, the merge rule, the unlock helper *)

Section PageFacts.
Context `{OpenPGP} `{Browser}.

Lemma setMasterPassword_throws st password seed e st' :
  setMasterPassword st password seed = (Throw e, st') ->
  e = mkError "无法设置主密码验证器。" /\ st' = st.
Proof.
  unfold setMasterPassword.
  destruct (_ ≫= _) as [st1 | e1]; [discriminate |].
  intros [= <- <-]. now split.
Qed.

Lemma clearAllStoredKeys_verifier st :
  getItem (clearAllStoredKeys st) MASTER_PASSWORD_VERIFIER_KEY = None.
Proof. apply lookup_delete_eq. Qed.

Lemma loadKeysFromStorage_storage st masterPassword :
  (loadKeysFromStorage st masterPassword).2 = st \/
  (loadKeysFromStorage st masterPassword).2 = clearAllStoredKeys st.
Proof.
  unfold loadKeysFromStorage.
  destruct (absent _); [now left |].
  destruct (getItem st STORAGE_KEY) as [text |]; [| now left].
  destruct (JSON_parse text) as [[| | | | storedKeys |] |]; cbn; auto.
Qed.

(** With a verifier in storage the handler verifies and loads; it never
    calls [setMasterPassword]. *)
Lemma handleMasterPasswordSubmit_keeps_verifier h st password seed :
  hasMasterPassword st = true ->
  let st' := (Page.handleMasterPasswordSubmit h st password seed).2 in
  getItem st' MASTER_PASSWORD_VERIFIER_KEY = getItem st MASTER_PASSWORD_VERIFIER_KEY \/
  getItem st' MASTER_PASSWORD_VERIFIER_KEY = None.
Proof.
  intros Hhas. unfold Page.handleMasterPasswordSubmit. rewrite Hhas. cbn.
  destruct (verifyMasterPassword st password) as [[|] | e]; cbn; [| now left | now left].
  pose proof (loadKeysFromStorage_storage st password) as Hst.
  destruct (loadKeysFromStorage st password) as [[loadedKeys | e] st1];
    cbn [snd] in *; destruct Hst as [-> | ->];
    first [now left | right; apply clearAllStoredKeys_verifier].
Qed.

(** C7, as the code has it: [setMasterPassword] does not look for an
    existing verifier.  With a verifier already in storage, when wrapping the
    marker and the write succeed it returns normally and the stored verifier
    is the new ciphertext; the only error it ever throws is the one for a
    failed wrap or write, with the storage untouched.  The guard is in the
    caller: with a verifier in storage [handleMasterPasswordSubmit] leaves the
    verifier as it is, or removed with the collection by the loader, and never
    writes a new one. *)
Theorem setMasterPassword_overwrites_verifier st password seed c :
  hasMasterPassword st = true ->
  encryptData VERIFIER_PLAINTEXT password seed = Ok c ->
  storage_accepts st MASTER_PASSWORD_VERIFIER_KEY c = true ->
  setMasterPassword st password seed =
    (Ok tt, <[MASTER_PASSWORD_VERIFIER_KEY := c]> st) /\
  getItem (<[MASTER_PASSWORD_VERIFIER_KEY := c]> st) MASTER_PASSWORD_VERIFIER_KEY = Some c /\
  (forall st0 password0 seed0 e st1,
     setMasterPassword st0 password0 seed0 = (Throw e, st1) ->
     e = mkError "无法设置主密码验证器。" /\ st1 = st0) /\
  (forall h password' seed',
     let st' := (Page.handleMasterPasswordSubmit h st password' seed').2 in
     getItem st' MASTER_PASSWORD_VERIFIER_KEY = getItem st MASTER_PASSWORD_VERIFIER_KEY \/
     getItem st' MASTER_PASSWORD_VERIFIER_KEY = None).
Proof.
  intros Hhas Henc Hq. split; [| split; [| split]].
  - unfold setMasterPassword. rewrite Henc. cbn. unfold setItem. now rewrite Hq.
  - apply lookup_insert_eq.
  - apply setMasterPassword_throws.
  - intros h password' seed'. now apply handleMasterPasswordSubmit_keeps_verifier.
Qed.

End PageFacts.

Section KeyListFacts.
Context `{OpenPGP} `{Browser}.

(** Under the invariant of the store, an identifier names one record. *)
Lemma keyId_unique (keys : list PGPKey) (x y : PGPKey) :
  NoDup (keyId <$> keys) -> x ∈ keys -> y ∈ keys -> keyId x = keyId y -> x = y.
Proof.
  intros Hnd Hx Hy Heq.
  apply list_elem_of_lookup in Hx as [i Hi].
  apply list_elem_of_lookup in Hy as [j Hj].
  assert (Hi' : (keyId <$> keys) !! i = Some (keyId x))
    by (rewrite list_lookup_fmap, Hi; reflexivity).
  assert (Hj' : (keyId <$> keys) !! j = Some (keyId x))
    by (rewrite list_lookup_fmap, Hj, Heq; reflexivity).
  pose proof (NoDup_lookup _ _ _ _ Hnd Hi' Hj') as ->.
  congruence.
Qed.

Lemma list_find_keyId (keys : list PGPKey) (newKey existing : PGPKey) :
  NoDup (keyId <$> keys) ->
  existing ∈ keys ->
  keyId existing = keyId newKey ->
  exists i, list_find (fun k => keyId k = keyId newKey) keys = Some (i, existing) /\
            keys !! i = Some existing.
Proof.
  intros Hnd Hin Heq.
  destruct (list_find (fun k => keyId k = keyId newKey) keys) as [[i x] |] eqn:Hf.
  - apply list_find_Some in Hf as (Hi & Hx & _).
    assert (x = existing) as ->.
    { eapply keyId_unique; eauto; [| congruence].
      apply list_elem_of_lookup. eauto. }
    eauto.
  - apply list_find_None in Hf. rewrite Forall_forall in Hf.
    now destruct (Hf existing Hin).
Qed.

Lemma addKey_decide_NoDup (keys : list PGPKey) (newKey : PGPKey) alert updatedKeys :
  NoDup (keyId <$> keys) ->
  Page.addKey_decide keys newKey = (alert, Some updatedKeys) ->
  NoDup (keyId <$> updatedKeys).
Proof.
  intros Hnd. unfold Page.addKey_decide.
  destruct (list_find (fun k => keyId k = keyId newKey) keys) as [[i x] |] eqn:Hf.
  - apply list_find_Some in Hf as (Hi & Hx & _).
    destruct (isPrivate x); [discriminate |].
    destruct (isPrivate newKey); [| discriminate].
    intros [= _ <-].
    rewrite list_fmap_insert, list_insert_id; [exact Hnd |].
    rewrite list_lookup_fmap, Hi. cbn. congruence.
  - apply list_find_None in Hf. rewrite Forall_forall in Hf.
    intros [= _ <-]. rewrite fmap_app. cbn.
    apply NoDup_app. split; [exact Hnd |]. split; [| apply NoDup_singleton].
    intros id Hid Hnew. apply list_elem_of_singleton in Hnew as ->.
    apply list_elem_of_fmap in Hid as (k & Hk & Hin).
    now destruct (Hf k Hin).
Qed.

(** The merge rule on the key list of the render that made the callback, on
    a list with at most one record per identifier.  If the record with the
    identifier of the imported key is private the import is rejected with an
    alert and neither the key list nor the storage changes, whatever the kind
    of the imported key; if that record is public and the imported key
    private the record is replaced in place; if both are public nothing
    changes; an identifier not yet present is appended.  Afterwards there is
    still at most one record per identifier. *)
Lemma addKey_merge_rule h st newKey seeds :
  NoDup (keyId <$> Page.keys h) ->
  let r := Page.addKey h st newKey seeds in
  (forall existing,
     existing ∈ Page.keys h -> keyId existing = keyId newKey ->
     isPrivate existing = true ->
     r = (["错误：具有相同 KeyID (" +:+ slice_last 8 (keyId newKey) +:+ ") 的私钥已存在。"],
          h, st)) /\
  (forall existing,
     existing ∈ Page.keys h -> keyId existing = keyId newKey ->
     isPrivate existing = false -> isPrivate newKey = true ->
     exists i, Page.keys h !! i = Some existing /\
               Page.keys r.1.2 = <[i := newKey]> (Page.keys h)) /\
  (forall existing,
     existing ∈ Page.keys h -> keyId existing = keyId newKey ->
     isPrivate existing = false -> isPrivate newKey = false ->
     r.1.2 = h /\ r.2 = st) /\
  ((forall k, k ∈ Page.keys h -> keyId k <> keyId newKey) ->
   Page.keys r.1.2 = (Page.keys h ++ [newKey])%list) /\
  NoDup (keyId <$> Page.keys r.1.2).
Proof.
  intros Hnd r. subst r. unfold Page.addKey.
  split; [| split; [| split; [| split]]].
  - intros existing Hin Heq Hpriv.
    destruct (list_find_keyId _ _ _ Hnd Hin Heq) as (i & Hf & _).
    unfold Page.addKey_decide. rewrite Hf, Hpriv. reflexivity.
  - intros existing Hin Heq Hpub Hnew.
    destruct (list_find_keyId _ _ _ Hnd Hin Heq) as (i & Hf & Hi).
    unfold Page.addKey_decide. rewrite Hf, Hpub, Hnew.
    destruct (Page.saveKeys _ _ _ _) as [alerts st']. cbn. eauto.
  - intros existing Hin Heq Hpub Hnew.
    destruct (list_find_keyId _ _ _ Hnd Hin Heq) as (i & Hf & _).
    unfold Page.addKey_decide. rewrite Hf, Hpub, Hnew. now split.
  - intros Hfresh.
    assert (Hf : list_find (fun k => keyId k = keyId newKey) (Page.keys h) = None).
    { apply list_find_None, Forall_forall. exact Hfresh. }
    unfold Page.addKey_decide. rewrite Hf.
    destruct (Page.saveKeys _ _ _ _) as [alerts st']. reflexivity.
  - destruct (Page.addKey_decide (Page.keys h) newKey) as [alert [updatedKeys |]] eqn:Hd.
    + destruct (Page.saveKeys _ _ _ _) as [alerts st']. cbn.
      eapply addKey_decide_NoDup; eauto.
    + exact Hnd.
Qed.

(** C10: [getDecryptedPrivateKeyArmored] answers [null], without throwing,
    when no private record has the identifier asked for; and when the private
    record with that identifier holds a private key object that is already
    decrypted, it returns the armour of that key object for every passphrase
    argument, a wrong one and none at all included. *)
Theorem getDecryptedPrivateKeyArmored_unlocked (keys : list PGPKey) (id : string) :
  ((forall k, k ∈ keys -> keyId k = id -> isPrivate k = false) ->
   forall passphrase, Page.getDecryptedPrivateKeyArmored keys id passphrase = Ok None) /\
  (forall k,
     NoDup (keyId <$> keys) ->
     k ∈ keys -> keyId k = id -> isPrivate k = true ->
     key_isPrivate (keyObject k) = true ->
     key_isDecrypted (keyObject k) = true ->
     forall passphrase,
       Page.getDecryptedPrivateKeyArmored keys id passphrase =
       Ok (Some (key_armor (keyObject k)))).
Proof.
  split.
  - intros Hnone passphrase. unfold Page.getDecryptedPrivateKeyArmored.
    destruct (find _ keys) as [key |] eqn:Hf; [| reflexivity].
    apply find_some in Hf as [Hin Hp].
    apply andb_true_iff in Hp as [Hid Hpriv].
    apply String.eqb_eq in Hid. apply list_elem_of_In in Hin.
    rewrite (Hnone key Hin Hid) in Hpriv. discriminate.
  - intros k Hnd Hin Hid Hpriv Hobj Hdec passphrase.
    unfold Page.getDecryptedPrivateKeyArmored.
    destruct (find _ keys) as [key |] eqn:Hf.
    + apply find_some in Hf as [Hin' Hp].
      apply andb_true_iff in Hp as [Hid' _].
      apply String.eqb_eq in Hid'. apply list_elem_of_In in Hin'.
      assert (key = k) as -> by (eapply keyId_unique; eauto; congruence).
      now rewrite Hobj, Hdec.
    + apply list_elem_of_In in Hin.
      pose proof (find_none _ _ Hf k Hin) as Hno. cbn in Hno.
      rewrite Hpriv, andb_true_r in Hno.
      apply String.eqb_neq in Hno. contradiction.
Qed.

End KeyListFacts.

(** ** The passphrase-retry handlers: what is left of the staged context *)

Section RetryFacts.
Context `{OpenPGP}.
Variable getDecryptedPrivateKeyArmored : string -> option string -> result (option string).
Variable privateKeys : list PGPKey.
Variable publicKeys : list Key.

(** Cancelling clears the staged context, in both components. *)
Lemma sign_cancel_clears st :
  SignMessage.dataToSign (SignMessage.onClose st) = None /\
  SignMessage.keyIdRequiringPassword (SignMessage.onClose st) = None /\
  SignMessage.showKeyPasswordModal (SignMessage.onClose st) = false.
Proof. now repeat split. Qed.

Lemma decrypt_cancel_clears st :
  DecryptMessage.messageToDecrypt (DecryptMessage.onClose st) = None /\
  DecryptMessage.keyIdRequiringPassword (DecryptMessage.onClose st) = None /\
  DecryptMessage.showKeyPasswordModal (DecryptMessage.onClose st) = false.
Proof. now repeat split. Qed.

(** In [SignMessage], once the selected key is found, the [finally] block
    clears the context whether unlocking and signing worked or not. *)
Lemma sign_submit_clears_after_attempt st password data selectedKey :
  SignMessage.dataToSign st = Some data ->
  data <> "" ->
  SignMessage.selectedPrivateKeyId st <> "" ->
  find (fun k => String.eqb (keyId k) (SignMessage.selectedPrivateKeyId st)) privateKeys
    = Some selectedKey ->
  let st' := SignMessage.handleKeyPasswordSubmit
               getDecryptedPrivateKeyArmored privateKeys st password in
  SignMessage.dataToSign st' = None /\
  SignMessage.keyIdRequiringPassword st' = None /\
  SignMessage.isLoading st' = false.
Proof.
  intros Hdata Hne Hsel Hfind. unfold SignMessage.handleKeyPasswordSubmit.
  rewrite Hdata, Hfind. cbn [absent].
  apply String.eqb_neq in Hne, Hsel. rewrite Hne, Hsel. cbn [orb].
  now repeat split.
Qed.

(** In [SignMessage], a submit that does not find the selected key among
    [privateKeys] returns before the [finally] block: the plaintext stays
    staged. *)
Lemma sign_submit_keeps_plaintext_without_key st password data :
  SignMessage.dataToSign st = Some data ->
  data <> "" ->
  SignMessage.selectedPrivateKeyId st <> "" ->
  find (fun k => String.eqb (keyId k) (SignMessage.selectedPrivateKeyId st)) privateKeys
    = None ->
  let st' := SignMessage.handleKeyPasswordSubmit
               getDecryptedPrivateKeyArmored privateKeys st password in
  SignMessage.showKeyPasswordModal st' = false /\
  SignMessage.error st' = Some "内部错误：找不到选定的私钥。" /\
  SignMessage.dataToSign st' = Some data.
Proof.
  intros Hdata Hne Hsel Hfind. unfold SignMessage.handleKeyPasswordSubmit.
  rewrite Hdata, Hfind. cbn [absent].
  apply String.eqb_neq in Hne, Hsel. rewrite Hne, Hsel. cbn [orb].
  now repeat split.
Qed.

(** In [DecryptMessage], once a candidate key matches the message, the
    lines after the loop clear the context however the loop went. *)
Lemma decrypt_submit_clears_after_loop st password parsedMessage hint :
  DecryptMessage.messageToDecrypt st = Some parsedMessage ->
  DecryptMessage.keyIdRequiringPassword st = Some hint ->
  hint <> "" ->
  DecryptMessage.potentialKeys_of privateKeys parsedMessage <> [] ->
  let st' := DecryptMessage.handleKeyPasswordSubmit
               getDecryptedPrivateKeyArmored privateKeys publicKeys st password in
  DecryptMessage.messageToDecrypt st' = None /\
  DecryptMessage.keyIdRequiringPassword st' = None /\
  DecryptMessage.isLoading st' = false.
Proof.
  intros Hm Hh Hne Hpot. unfold DecryptMessage.handleKeyPasswordSubmit.
  rewrite Hm, Hh. cbn [absent]. apply String.eqb_neq in Hne. rewrite Hne.
  destruct (DecryptMessage.potentialKeys_of privateKeys parsedMessage); [congruence |].
  now repeat split.
Qed.

(** C6, where the code departs from it: in [DecryptMessage], a passphrase
    submitted while no key of [privateKeys] carries one of the key
    identifiers of the staged message ends the attempt (modal closed, loading
    off, an error shown) through the early return of line 524, and the
    staged message and the key hint are still in the state afterwards. *)
Theorem decrypt_submit_keeps_staged_message st password parsedMessage hint :
  DecryptMessage.messageToDecrypt st = Some parsedMessage ->
  DecryptMessage.keyIdRequiringPassword st = Some hint ->
  hint <> "" ->
  DecryptMessage.potentialKeys_of privateKeys parsedMessage = [] ->
  let st' := DecryptMessage.handleKeyPasswordSubmit
               getDecryptedPrivateKeyArmored privateKeys publicKeys st password in
  DecryptMessage.showKeyPasswordModal st' = false /\
  DecryptMessage.isLoading st' = false /\
  DecryptMessage.error st' = Some "内部错误：找不到与消息匹配的需要密码的私钥。" /\
  DecryptMessage.messageToDecrypt st' = Some parsedMessage /\
  DecryptMessage.keyIdRequiringPassword st' = Some hint.
Proof.
  intros Hm Hh Hne Hpot. unfold DecryptMessage.handleKeyPasswordSubmit.
  rewrite Hm, Hh, Hpot. cbn [absent]. apply String.eqb_neq in Hne. rewrite Hne.
  cbn. now repeat split.
Qed.

End RetryFacts.

(** ** Saving, and loading what was saved *)

Section SaveFacts.
Context `{OpenPGP} `{Browser}.

Lemma storedKey_of_persisted k dataToStore created :
  persisted (storedKey_of k dataToStore created) (keyId k) dataToStore.
Proof. split; reflexivity. Qed.

Lemma storedKey_of_type k dataToStore created :
  type_is_private (storedKey_of k dataToStore created) = isPrivate k.
Proof. unfold type_is_private. cbn. now destruct (isPrivate k). Qed.

Lemma prepareKeys_entries keys masterPassword seeds :
  forall i keysToStore entries,
    prepareKeys keys masterPassword seeds i keysToStore = Ok entries ->
    exists written,
      entries = (keysToStore ++ written)%list /\
      Forall2 (stored_as masterPassword) keys written.
Proof.
  induction keys as [| key rest IH]; intros i keysToStore entries; cbn.
  - intros [= <-]. exists []. split; [now rewrite app_nil_r | constructor].
  - destruct (isPrivate key) eqn:Hpriv.
    + destruct (encryptData (armored key) masterPassword (seeds i)) as [d | e] eqn:Henc;
        cbn; [| discriminate].
      destruct (toISOString (creationTime key)) as [created | e] eqn:Hiso;
        cbn; [| discriminate].
      intros Hrest. apply IH in Hrest as (written & -> & Hall).
      exists (storedKey_of key d created :: written).
      split; [now rewrite <- app_assoc |].
      constructor; [| exact Hall].
      exists d, created. rewrite Hpriv. split; [reflexivity |]. split; [exact Hiso |].
      now exists (seeds i).
    + cbn.
      destruct (toISOString (creationTime key)) as [created | e] eqn:Hiso;
        cbn; [| discriminate].
      intros Hrest. apply IH in Hrest as (written & -> & Hall).
      exists (storedKey_of key (armored key) created :: written).
      split; [now rewrite <- app_assoc |].
      constructor; [| exact Hall].
      exists (armored key), created. rewrite Hpriv. now repeat split.
Qed.

Lemma saveKeysToStorage_ok st keys masterPassword seeds st' :
  saveKeysToStorage st keys masterPassword seeds = (Ok tt, st') ->
  exists entries,
    prepareKeys keys masterPassword seeds 0 [] = Ok entries /\
    st' = <[STORAGE_KEY := JSON_stringify (JArr entries)]> st /\
    Forall2 (stored_as masterPassword) keys entries.
Proof.
  unfold saveKeysToStorage.
  destruct (prepareKeys keys masterPassword seeds 0 []) as [entries | e] eqn:Hprep;
    [| discriminate].
  unfold setItem. destruct (storage_accepts _ _ _); [| discriminate].
  intros [= <-]. exists entries. split; [reflexivity |]. split; [reflexivity |].
  apply prepareKeys_entries in Hprep as (written & -> & Hall). exact Hall.
Qed.

Lemma saveKeysToStorage_all_or_nothing_aux st keys masterPassword seeds e :
  (saveKeysToStorage st keys masterPassword seeds).1 = Throw e ->
  (saveKeysToStorage st keys masterPassword seeds).2 = st.
Proof.
  unfold saveKeysToStorage.
  destruct (prepareKeys keys masterPassword seeds 0 []) as [entries | e']; [| reflexivity].
  destruct (setItem st STORAGE_KEY _); [discriminate | reflexivity].
Qed.

(** X1: [saveKeysToStorage] writes all or nothing.  When it throws, the
    storage is what it was.  When it returns, only the collection entry has
    changed: it holds the serialisation of one entry per key, in order, a
    public key's armour as it is and a private key's armour only as
    [encryptData] wrapped it under the master password; the verifier, like
    every other entry, is what it was. *)
Theorem saveKeysToStorage_all_or_nothing st keys masterPassword seeds :
  let r := saveKeysToStorage st keys masterPassword seeds in
  (forall e, r.1 = Throw e -> r.2 = st) /\
  (r.1 = Ok tt ->
   exists entries,
     r.2 = <[STORAGE_KEY := JSON_stringify (JArr entries)]> st /\
     Forall2 (stored_as masterPassword) keys entries /\
     forall k, k <> STORAGE_KEY -> getItem r.2 k = getItem st k).
Proof.
  intros r. subst r. split.
  - intros e. apply saveKeysToStorage_all_or_nothing_aux.
  - intros Hok.
    destruct (saveKeysToStorage st keys masterPassword seeds) as [res st'] eqn:Hsave.
    cbn in Hok. subst res.
    apply saveKeysToStorage_ok in Hsave as (entries & _ & -> & Hall).
    exists entries. split; [reflexivity |]. split; [exact Hall |].
    intros k Hk. cbn. unfold getItem. now rewrite lookup_insert_ne.
Qed.

Lemma loadOne_public_any_password storedKey password1 password2 :
  type_is_private storedKey = false ->
  loadOne storedKey password1 = loadOne storedKey password2.
Proof.
  intros Ht. unfold loadOne, loadOne_try. now rewrite Ht.
Qed.

Lemma loadLoop_public_any_password storedKeys password1 password2 :
  Forall (fun storedKey => type_is_private storedKey = false) storedKeys ->
  forall loadedKeys,
    loadLoop storedKeys password1 loadedKeys = loadLoop storedKeys password2 loadedKeys.
Proof.
  induction 1 as [| storedKey rest Ht _ IH]; intros loadedKeys; cbn; [reflexivity |].
  rewrite (loadOne_public_any_password _ password1 password2 Ht).
  destruct (loadOne storedKey password2); auto.
Qed.

(** X2: a collection without private entries loads the same under every
    password: public records are read without the master password taking
    part. *)
Theorem load_public_collection_any_password st password1 password2 :
  (forall text storedKeys,
     getItem st STORAGE_KEY = Some text ->
     JSON_parse text = Some (JArr storedKeys) ->
     Forall (fun storedKey => type_is_private storedKey = false) storedKeys) ->
  loadKeysFromStorage st password1 = loadKeysFromStorage st password2.
Proof.
  intros Hpub. unfold loadKeysFromStorage.
  destruct (absent _); [reflexivity |].
  destruct (getItem st STORAGE_KEY) as [text |] eqn:Hg; [| reflexivity].
  destruct (JSON_parse text) as [[| | | | storedKeys |] |] eqn:Hp; try reflexivity.
  now rewrite (loadLoop_public_any_password _ password1 password2 (Hpub _ _ eq_refl Hp)).
Qed.

(** X3: after [clearAllStoredKeys] the application is where a first run
    starts: no verifier, every password refused by [verifyMasterPassword],
    an empty key list from the loader, which removes nothing more; entries
    under other names are not touched. *)
Theorem clearAllStoredKeys_first_run st :
  let st' := clearAllStoredKeys st in
  hasMasterPassword st' = false /\
  (forall password, verifyMasterPassword st' password = Ok false) /\
  (forall password, loadKeysFromStorage st' password = (Ok [], st')) /\
  (forall k, k <> STORAGE_KEY -> k <> MASTER_PASSWORD_VERIFIER_KEY ->
             getItem st' k = getItem st k).
Proof.
  intros st'.
  assert (Hv : getItem st' MASTER_PASSWORD_VERIFIER_KEY = None)
    by apply lookup_delete_eq.
  assert (Hk : getItem st' STORAGE_KEY = None).
  { unfold st', clearAllStoredKeys, removeItem, getItem.
    rewrite lookup_delete_ne by (intros Heq; vm_compute in Heq; discriminate).
    apply lookup_delete_eq. }
  split; [| split; [| split]].
  - unfold hasMasterPassword. now rewrite Hv.
  - intros password. unfold verifyMasterPassword. now rewrite Hv.
  - intros password. unfold loadKeysFromStorage. now rewrite Hk.
  - intros k Hk1 Hk2. unfold st', clearAllStoredKeys, removeItem, getItem.
    now rewrite !lookup_delete_ne.
Qed.

End SaveFacts.

Section RoundTripFacts.
Context `{OpenPGP} `{Browser} `{!OpenPGPLaws} `{!BrowserLaws}.

Lemma stored_as_valid masterPassword k entry k' :
  stored_as masterPassword k entry ->
  rehydrate k = Ok k' ->
  valid masterPassword entry k'.
Proof.
  intros (d & created & -> & _ & Hdata) Hre.
  unfold rehydrate in Hre. cbn in Hre.
  destruct (isPrivate k) eqn:Hpriv.
  - destruct (readPrivateKey (armored k)) as [parsed | e] eqn:Hr; cbn in Hre;
      [| discriminate].
    eapply valid_private; eauto using storedKey_of_persisted.
    now rewrite storedKey_of_type.
  - destruct (readKey (armored k)) as [parsed | e] eqn:Hr; cbn in Hre; [| discriminate].
    subst d.
    eapply valid_public; eauto using storedKey_of_persisted.
    now rewrite storedKey_of_type.
Qed.

Lemma stored_as_survivors masterPassword keys entries ks :
  Forall2 (stored_as masterPassword) keys entries ->
  Forall2 (fun k k' => rehydrate k = Ok k') keys ks ->
  survivors masterPassword entries ks.
Proof.
  intros Hstored. revert ks.
  induction Hstored as [| k entry keys entries Hs _ IH]; intros ks Hre.
  - inversion Hre. constructor.
  - inversion Hre as [| ? k' ? ks' Hk Hrest]; subst.
    apply survivors_valid; [eapply stored_as_valid; eauto | now apply IH].
Qed.

Lemma save_then_load st keys masterPassword seeds st' ks :
  saveKeysToStorage st keys masterPassword seeds = (Ok tt, st') ->
  (forall entries,
     prepareKeys keys masterPassword seeds 0 [] = Ok entries ->
     JSON_parse (JSON_stringify (JArr entries)) = Some (JArr entries)) ->
  Forall2 (fun k k' => rehydrate k = Ok k') keys ks ->
  forall st'',
    getItem st'' STORAGE_KEY = getItem st' STORAGE_KEY ->
    loadKeysFromStorage st'' masterPassword = (Ok ks, st'').
Proof.
  intros Hsave Hjson Hre st'' Hsame.
  apply saveKeysToStorage_ok in Hsave as (entries & Hprep & -> & Hstored).
  specialize (Hjson _ Hprep).
  assert (Hg : getItem st'' STORAGE_KEY = Some (JSON_stringify (JArr entries))).
  { rewrite Hsame. apply lookup_insert_eq. }
  rewrite (loadKeysFromStorage_array _ _ _ _ Hg (parsed_text_nonempty _ _ Hjson) Hjson).
  now rewrite (loadLoop_survivors _ _ _ (stored_as_survivors _ _ _ _ Hstored Hre) []).
Qed.

(** X4: what [saveKeysToStorage] wrote under a master password,
    [loadKeysFromStorage] reads back under the same password, provided
    [JSON.parse] reads what [JSON.stringify] wrote: the result is, key by key
    and in order, the key parsed again from its armour ([rehydrate]); the key
    object held in memory before saving plays no part. *)
Theorem save_load_round_trip st keys masterPassword seeds st' ks :
  saveKeysToStorage st keys masterPassword seeds = (Ok tt, st') ->
  (forall entries,
     prepareKeys keys masterPassword seeds 0 [] = Ok entries ->
     JSON_parse (JSON_stringify (JArr entries)) = Some (JArr entries)) ->
  Forall2 (fun k k' => rehydrate k = Ok k') keys ks ->
  loadKeysFromStorage st' masterPassword = (Ok ks, st').
Proof.
  intros Hsave Hjson Hre. eapply save_then_load; eauto.
Qed.

Lemma stored_public_any_password W W2 k entry :
  stored_as W k entry -> isPrivate k = false -> stored_as W2 k entry.
Proof.
  intros (d & created & -> & Hcreated & Hdata) Hpublic.
  exists d, created. rewrite Hpublic in *. auto.
Qed.

Lemma loadLoop_other_password W W2 keys entries :
  Forall2 (stored_as W) keys entries ->
  W2 <> W ->
  forall publics,
    Forall2 (fun k k' => rehydrate k = Ok k')
            (List.filter (fun k => negb (isPrivate k)) keys) publics ->
    forall loadedKeys,
      (exists id, loadLoop entries W2 loadedKeys = Throw (mkError (MSG_LOAD_ABORT id))) \/
      loadLoop entries W2 loadedKeys = Ok (loadedKeys ++ publics)%list.
Proof.
  intros Hstored Hne.
  induction Hstored as [| k entry keys entries Hs _ IH]; intros publics Hre loadedKeys.
  - inversion Hre. right. cbn. now rewrite app_nil_r.
  - cbn [List.filter] in Hre. cbn [loadLoop].
    destruct (isPrivate k) eqn:Hprivate; cbn [negb] in Hre.
    + destruct Hs as (d & created & -> & _ & Hdata). rewrite Hprivate in Hdata.
      destruct (loadOne_other_password (storedKey_of k d created) (keyId k) d
                  (armored k) W W2) as (e & _ & ->);
        [apply storedKey_of_persisted | now rewrite storedKey_of_type | exact Hdata
        | exact Hne |].
      destruct (reports_password_failure e); [left; eauto | now apply IH].
    + inversion Hre as [| ? k' ? publics' Hk Hrest]; subst.
      rewrite (loadOne_valid _ _ k'); cycle 1.
      { eapply stored_as_valid; [eapply stored_public_any_password|]; eauto. }
      destruct (IH _ Hrest (loadedKeys ++ [k'])%list) as [Habort | ->]; [now left |].
      right. now rewrite <- app_assoc.
Qed.

(** X5: a collection saved under [W] gives up none of the keys saved as
    private when it is loaded under another password: the loader either
    throws its wrong-password error, or returns, in order, the keys saved as
    public and nothing else.  Which of the two depends on the words in which
    the engine refuses the password. *)
Theorem save_load_other_password st keys W seeds st' W2 publics :
  saveKeysToStorage st keys W seeds = (Ok tt, st') ->
  (forall entries,
     prepareKeys keys W seeds 0 [] = Ok entries ->
     JSON_parse (JSON_stringify (JArr entries)) = Some (JArr entries)) ->
  W2 <> W ->
  Forall2 (fun k k' => rehydrate k = Ok k')
          (List.filter (fun k => negb (isPrivate k)) keys) publics ->
  (exists id, loadKeysFromStorage st' W2 = (Throw (mkError (MSG_LOAD_ABORT id)), st')) \/
  loadKeysFromStorage st' W2 = (Ok publics, st').
Proof.
  intros Hsave Hjson Hne Hre.
  apply saveKeysToStorage_ok in Hsave as (entries & Hprep & -> & Hstored).
  specialize (Hjson _ Hprep).
  assert (Hg : getItem (<[STORAGE_KEY := JSON_stringify (JArr entries)]> st) STORAGE_KEY
               = Some (JSON_stringify (JArr entries))) by apply lookup_insert_eq.
  rewrite (loadKeysFromStorage_array _ _ _ _ Hg (parsed_text_nonempty _ _ Hjson) Hjson).
  destruct (loadLoop_other_password _ _ _ _ Hstored Hne _ Hre []) as [[id ->] | ->];
    [left; eauto | now right].
Qed.

End RoundTripFacts.

(** ** page.tsx: deleting, locking, unlocking *)

Section HomeFacts.
Context `{OpenPGP} `{Browser}.

Lemma addKey_decide_fresh (keys : list PGPKey) (newKey : PGPKey) :
  (forall k, k ∈ keys -> keyId k <> keyId newKey) ->
  (Page.addKey_decide keys newKey).2 = Some (keys ++ [newKey])%list.
Proof.
  intros Hfresh. unfold Page.addKey_decide.
  assert (Hf : list_find (fun k => keyId k = keyId newKey) keys = None)
    by (apply list_find_None, Forall_forall; exact Hfresh).
  now rewrite Hf.
Qed.

Lemma addKey_keys h st newKey seeds updatedKeys :
  (Page.addKey_decide (Page.keys h) newKey).2 = Some updatedKeys ->
  (Page.addKey h st newKey seeds).1.2 = Page.setKeys updatedKeys h /\
  (Page.addKey h st newKey seeds).2 = (Page.saveKeys h st updatedKeys seeds).2.
Proof.
  unfold Page.addKey.
  destruct (Page.addKey_decide (Page.keys h) newKey) as [alert [updated |]]; cbn;
    [| discriminate].
  intros [= ->]. now destruct (Page.saveKeys h st updatedKeys seeds).
Qed.

Lemma filter_other_ids (keys : list PGPKey) (id : string) :
  (forall k, k ∈ keys -> keyId k <> id) ->
  List.filter (fun key => negb (String.eqb (keyId key) id)) keys = keys.
Proof.
  induction keys as [| k rest IH]; intros Hall; cbn; [reflexivity |].
  assert (Hk : keyId k <> id) by (apply Hall, list_elem_of_here).
  apply String.eqb_neq in Hk. rewrite Hk. cbn. f_equal.
  apply IH. intros k' Hin. now apply Hall, list_elem_of_further.
Qed.

Lemma filter_other_ids_elem (keys : list PGPKey) (id : string) (k : PGPKey) :
  k ∈ List.filter (fun key => negb (String.eqb (keyId key) id)) keys <->
  k ∈ keys /\ keyId k <> id.
Proof.
  rewrite !list_elem_of_In, filter_In, negb_true_iff, String.eqb_neq. reflexivity.
Qed.

Lemma deleteKey_confirmed h st id seeds k :
  k ∈ Page.keys h -> keyId k = id ->
  (Home.deleteKey h st id true seeds).1.2 =
    Page.setKeys (List.filter (fun key => negb (String.eqb (keyId key) id)) (Page.keys h)) h
  /\
  (Home.deleteKey h st id true seeds).2 =
    (Page.saveKeys h st
       (List.filter (fun key => negb (String.eqb (keyId key) id)) (Page.keys h)) seeds).2.
Proof.
  intros Hin Hid. unfold Home.deleteKey.
  destruct (find _ (Page.keys h)) as [keyToDelete |] eqn:Hf.
  - now destruct (Page.saveKeys h st _ seeds).
  - apply list_elem_of_In in Hin. pose proof (find_none _ _ Hf k Hin) as Hno.
    cbn in Hno. apply String.eqb_neq in Hno. contradiction.
Qed.

(** [Page.addKey] is the callback of the render whose state it is given,
    called in that state. *)
Lemma addKey_of_current_render h st newKey seeds :
  Page.addKey h st newKey seeds = Home.addKey_rendered h newKey seeds ([], h, st).
Proof.
  unfold Page.addKey, Home.addKey_rendered.
  destruct (Page.addKey_decide (Page.keys h) newKey) as [alert [updated |]];
    [| reflexivity].
  now destruct (Page.saveKeys h st updated seeds).
Qed.

(** The callback of a render whose list has no record under the identifier
    of the key appends the key to that list, whatever the list is by now. *)
Lemma addKey_rendered_appends (rendered : Page.Home) (newKey : PGPKey)
    (seeds : nat -> Seed) (alerts : list string) (h : Page.Home) (st : Storage) :
  (forall k, k ∈ Page.keys rendered -> keyId k <> keyId newKey) ->
  Home.addKey_rendered rendered newKey seeds (alerts, h, st)
  = ((alerts ++
      ("成功导入 " +:+ (if isPrivate newKey then "私钥" else "公钥") +:+ ": " +:+
       primaryUserId newKey +:+ " (" +:+ slice_last 8 (keyId newKey) +:+ ")")
      :: (Page.saveKeys rendered st (Page.keys rendered ++ [newKey])%list seeds).1)%list,
     Page.setKeys (Page.keys rendered ++ [newKey])%list h,
     (Page.saveKeys rendered st (Page.keys rendered ++ [newKey])%list seeds).2).
Proof.
  intros Hfresh. unfold Home.addKey_rendered, Page.addKey_decide.
  assert (Hf : list_find (fun k => keyId k = keyId newKey) (Page.keys rendered) = None)
    by (apply list_find_None, Forall_forall; exact Hfresh).
  rewrite Hf.
  now destruct (Page.saveKeys rendered st (Page.keys rendered ++ [newKey])%list seeds).
Qed.


(** The callback of a render whose list holds a private record under the
    identifier of the key refuses the key, whatever the state by now. *)
Lemma addKey_rendered_refuses (rendered : Page.Home) (existing newKey : PGPKey)
    (seeds : nat -> Seed) (alerts : list string) (h : Page.Home) (st : Storage) :
  NoDup (keyId <$> Page.keys rendered) ->
  existing ∈ Page.keys rendered ->
  keyId existing = keyId newKey ->
  isPrivate existing = true ->
  Home.addKey_rendered rendered newKey seeds (alerts, h, st)
  = ((alerts ++ ["错误：具有相同 KeyID (" +:+ slice_last 8 (keyId newKey)
                 +:+ ") 的私钥已存在。"])%list, h, st).
Proof.
  intros Hnd Hin Hid Hpriv.
  destruct (list_find_keyId _ _ _ Hnd Hin Hid) as (i & Hf & _).
  unfold Home.addKey_rendered, Page.addKey_decide. now rewrite Hf, Hpriv.
Qed.

(** The merge rule on a list that ends with a private record under the
    identifier of the key: the import is refused. *)
Lemma addKey_decide_after_private (keys : list PGPKey) (privateKey newKey : PGPKey) :
  (forall k, k ∈ keys -> keyId k <> keyId privateKey) ->
  keyId newKey = keyId privateKey ->
  isPrivate privateKey = true ->
  Page.addKey_decide (keys ++ [privateKey])%list newKey
  = ("错误：具有相同 KeyID (" +:+ slice_last 8 (keyId newKey) +:+ ") 的私钥已存在。", None).
Proof.
  intros Hfresh Hid Hpriv. unfold Page.addKey_decide.
  assert (list_find (fun k => keyId k = keyId newKey) (keys ++ [privateKey])%list
          = Some (length keys, privateKey)) as ->.
  { apply list_find_Some. split; [| split].
    - rewrite lookup_app_r by lia. now rewrite Nat.sub_diag.
    - congruence.
    - intros j y Hy Hj Heq. rewrite lookup_app_l in Hy by exact Hj.
      apply list_elem_of_lookup_2 in Hy. apply (Hfresh y Hy). congruence. }
  now rewrite Hpriv.
Qed.

(** C2: [addKey] applies the merge rule to the key list of the render that
    made the callback, not to the key list at the time of the call.  Two
    imports through one callback, as [handleGenerateKey] makes them: a private
    key under an identifier the rendered list does not have, then the public
    key under the same identifier.  After the first call the key list ends
    with the private record.  The second call is not refused: it raises the
    alert of a successful import, sets the key list to the rendered list
    followed by the public record, and saves that list, so that the private
    record just stored is gone from memory and from what was written last.
    On the list the second call found, the merge rule refuses the import. *)
Theorem addKey_stale_list_replaces_private_record (rendered : Page.Home)
    (alerts : list string) (h : Page.Home) (st : Storage)
    (privateKey publicKey : PGPKey) (seeds1 seeds2 : nat -> Seed) :
  (forall k, k ∈ Page.keys rendered -> keyId k <> keyId privateKey) ->
  keyId publicKey = keyId privateKey ->
  isPrivate privateKey = true ->
  isPrivate publicKey = false ->
  let first := Home.addKey_rendered rendered privateKey seeds1 (alerts, h, st) in
  let second := Home.addKey_rendered rendered publicKey seeds2 first in
  Page.keys first.1.2 = (Page.keys rendered ++ [privateKey])%list /\
  Page.keys second.1.2 = (Page.keys rendered ++ [publicKey])%list /\
  (privateKey ∉ Page.keys second.1.2) /\
  second.2 = (Page.saveKeys rendered first.2
                (Page.keys rendered ++ [publicKey])%list seeds2).2 /\
  (("成功导入 公钥: " +:+ primaryUserId publicKey +:+ " (" +:+
    slice_last 8 (keyId publicKey) +:+ ")") ∈ second.1.1) /\
  Page.addKey_decide (Page.keys first.1.2) publicKey
  = ("错误：具有相同 KeyID (" +:+ slice_last 8 (keyId publicKey) +:+ ") 的私钥已存在。",
     None).
Proof.
  intros Hfresh Hid Hpriv Hpub first second.
  assert (Hfresh' : forall k, k ∈ Page.keys rendered -> keyId k <> keyId publicKey)
    by (intros k Hk; rewrite Hid; now apply Hfresh).
  assert (Hfirst : first = _) by apply (addKey_rendered_appends _ _ _ _ _ _ Hfresh).
  assert (Hsecond : second = Home.addKey_rendered rendered publicKey seeds2 first)
    by reflexivity.
  rewrite Hfirst in Hsecond.
  rewrite (addKey_rendered_appends _ _ _ _ _ _ Hfresh') in Hsecond.
  rewrite Hpub in Hsecond.
  clearbody first second. subst first second.
  cbn [fst snd Page.keys Page.setKeys].
  split; [reflexivity |]. split; [reflexivity |]. split; [| split; [reflexivity | split]].
  - intros Hin. apply elem_of_app in Hin as [Hin | Hin].
    + now apply (Hfresh privateKey Hin).
    + apply list_elem_of_singleton in Hin. subst publicKey. congruence.
  - apply elem_of_app. right. apply list_elem_of_here.
  - now apply addKey_decide_after_private.
Qed.

(** X6: deleting a key that was just added gives back the state [Home] had
    before the import: [deleteKey], confirmed, after [addKey] of a key whose
    identifier was not in the list.  Not confirmed, or asked for an
    identifier no record has, [deleteKey] changes neither the state nor the
    storage and raises no alert. *)
Theorem deleteKey_undoes_addKey h st newKey seeds seeds' :
  (forall k, k ∈ Page.keys h -> keyId k <> keyId newKey) ->
  let added := Page.addKey h st newKey seeds in
  Page.keys added.1.2 = (Page.keys h ++ [newKey])%list /\
  (Home.deleteKey added.1.2 added.2 (keyId newKey) true seeds').1.2 = h /\
  Home.deleteKey added.1.2 added.2 (keyId newKey) false seeds'
    = ([], added.1.2, added.2) /\
  (forall id, (forall k, k ∈ Page.keys h -> keyId k <> id) ->
              forall confirmation,
                Home.deleteKey h st id confirmation seeds' = ([], h, st)).
Proof.
  intros Hfresh added.
  destruct (addKey_keys h st newKey seeds _ (addKey_decide_fresh _ _ Hfresh))
    as [Hkeys _].
  fold added in Hkeys.
  assert (Hnew : newKey ∈ Page.keys added.1.2).
  { rewrite Hkeys. cbn. apply elem_of_app. right. apply list_elem_of_here. }
  split; [now rewrite Hkeys | split; [| split]].
  - destruct (deleteKey_confirmed added.1.2 added.2 (keyId newKey) seeds' newKey Hnew eq_refl)
      as [-> _].
    rewrite Hkeys. cbn [Page.keys Page.setKeys].
    rewrite List.filter_app, (filter_other_ids _ _ Hfresh). cbn.
    rewrite String.eqb_refl. cbn. rewrite app_nil_r.
    now destruct h.
  - unfold Home.deleteKey. now destruct (find _ _).
  - intros id Hnone confirmation. unfold Home.deleteKey.
    destruct (find _ (Page.keys h)) as [k |] eqn:Hf; [| reflexivity].
    apply find_some in Hf as [Hin Hid]. apply String.eqb_eq in Hid.
    apply list_elem_of_In in Hin. now destruct (Hnone k Hin).
Qed.

(** X7: the [addKey] of a render whose key list holds a private record
    under the identifier of the key adds nothing, whatever the state it is
    called in; after a confirmed [deleteKey] of that identifier the [addKey]
    of the render that follows appends the key to what is left. *)
Theorem deleteKey_unblocks_import h st existing newKey seeds seeds' seeds'' :
  NoDup (keyId <$> Page.keys h) ->
  existing ∈ Page.keys h ->
  keyId existing = keyId newKey ->
  isPrivate existing = true ->
  (forall alerts h' st',
     Home.addKey_rendered h newKey seeds (alerts, h', st')
     = ((alerts ++ ["错误：具有相同 KeyID (" +:+ slice_last 8 (keyId newKey)
                    +:+ ") 的私钥已存在。"])%list, h', st')) /\
  let deleted := Home.deleteKey h st (keyId newKey) true seeds' in
  (forall k, k ∈ Page.keys deleted.1.2 <-> k ∈ Page.keys h /\ k <> existing) /\
  Page.keys (Home.addKey_rendered deleted.1.2 newKey seeds'' deleted).1.2
    = (Page.keys deleted.1.2 ++ [newKey])%list.
Proof.
  intros Hnd Hin Hid Hpriv. split.
  - intros alerts h' st'. now apply (addKey_rendered_refuses h existing).
  - intros deleted.
    destruct (deleteKey_confirmed h st (keyId newKey) seeds' existing Hin Hid)
      as [Hkeys _].
    fold deleted in Hkeys.
    assert (Hleft : forall k, k ∈ Page.keys deleted.1.2 <->
                              k ∈ Page.keys h /\ keyId k <> keyId newKey).
    { intros k. rewrite Hkeys. cbn [Page.keys Page.setKeys].
      apply filter_other_ids_elem. }
    split.
    + intros k. rewrite Hleft. split; intros [Hk Hne]; split; try exact Hk.
      * intros ->. contradiction.
      * intros Heq. apply Hne. eapply keyId_unique; eauto. congruence.
    + assert (Hfresh : forall k, k ∈ Page.keys deleted.1.2 -> keyId k <> keyId newKey)
        by (intros k Hk; now apply Hleft in Hk).
      destruct deleted as [[alerts0 h0] st0] eqn:Hdeleted. cbn [fst snd] in *.
      now rewrite (addKey_rendered_appends _ _ _ _ _ _ Hfresh).
Qed.

(** X8: keys imported before a master password exists are never written:
    with no verifier in storage [Home] mounts unlocked and without a
    password, and [addKey] then puts the key in the list, raises the import
    alert followed by the cannot-save alert, and leaves the storage as it
    was. *)
Theorem first_run_import_not_saved st newKey seeds :
  hasMasterPassword st = false ->
  let h := Home.mount st in
  Page.isAppLocked h = false /\
  Page.masterPassword h = None /\
  let added := Page.addKey h st newKey seeds in
  Page.keys added.1.2 = [newKey] /\
  added.2 = st /\
  exists imported, added.1.1 = [imported; "错误：无法保存密钥，主密码无效。"].
Proof.
  intros Hnone. unfold Home.mount. rewrite Hnone. cbn.
  split; [reflexivity |]. split; [reflexivity |].
  unfold Page.addKey, Page.addKey_decide. cbn. eauto.
Qed.

(** X9: the storage [addKey] leaves is either the one it found (the import
    was refused, or nothing could be saved) or that one with the collection
    entry replaced by the serialisation of exactly the key list now in
    memory, private armour wrapped under the master password of the state. *)
Theorem addKey_storage_follows_memory h st newKey seeds :
  let added := Page.addKey h st newKey seeds in
  added.2 = st \/
  exists masterPassword entries,
    Page.masterPassword h = Some masterPassword /\
    added.2 = <[STORAGE_KEY := JSON_stringify (JArr entries)]> st /\
    Forall2 (stored_as masterPassword) (Page.keys added.1.2) entries.
Proof.
  intros added. subst added. unfold Page.addKey.
  destruct (Page.addKey_decide (Page.keys h) newKey) as [alert [updatedKeys |]];
    [| now left].
  unfold Page.saveKeys.
  destruct (absent (Page.masterPassword h)); [now left |].
  destruct (Page.masterPassword h) as [pw |]; [| now left].
  destruct (saveKeysToStorage st updatedKeys pw seeds) as [[[] | e] st'] eqn:Hsave.
  - apply saveKeysToStorage_ok in Hsave as (entries & _ & -> & Hall).
    right. exists pw, entries. now repeat split.
  - left. cbn.
    pose proof (saveKeysToStorage_all_or_nothing_aux st updatedKeys pw seeds e) as Hst.
    rewrite Hsave in Hst. now apply Hst.
Qed.

End HomeFacts.

Section UnlockFacts.
Context `{OpenPGP} `{Browser} `{!OpenPGPLaws} `{!BrowserLaws}.

Lemma verify_wrapped_verifier st W c :
  getItem st MASTER_PASSWORD_VERIFIER_KEY = Some c ->
  wrapped_under VERIFIER_PLAINTEXT W c ->
  hasMasterPassword st = true /\
  verifyMasterPassword st W = Ok true /\
  forall W2, W2 <> W -> verifyMasterPassword st W2 = Ok false.
Proof.
  intros Hg Hw.
  destruct (wrapped_unwraps _ _ _ Hw) as (Hsame & _ & Hother).
  split; [unfold hasMasterPassword; now rewrite Hg |]. split.
  - apply verifyMasterPassword_true_iff. eauto.
  - intros W2 Hne. destruct (Hother _ Hne) as (e & _ & _ & Hthrows).
    eapply verifyMasterPassword_unwrap_failure; eauto.
Qed.

(** X10: a wrong master password changes nothing but the message: with the
    verifier of [W] in storage, [handleMasterPasswordSubmit] with another
    password leaves the storage, the key list, the lock and the password in
    memory as they were, and shows the wrong-password message. *)
Theorem wrong_master_password_stays_locked h st W c W2 seed :
  getItem st MASTER_PASSWORD_VERIFIER_KEY = Some c ->
  wrapped_under VERIFIER_PLAINTEXT W c ->
  W2 <> W ->
  let r := Page.handleMasterPasswordSubmit h st W2 seed in
  r.2 = st /\
  Page.keys r.1 = Page.keys h /\
  Page.isAppLocked r.1 = Page.isAppLocked h /\
  Page.masterPassword r.1 = Page.masterPassword h /\
  Page.showMasterPasswordModal r.1 = Page.showMasterPasswordModal h /\
  Page.masterPasswordError r.1 = Some "主密码错误，请重试。" /\
  Page.isLoading r.1 = false.
Proof.
  intros Hg Hw Hne r. subst r.
  destruct (verify_wrapped_verifier _ _ _ Hg Hw) as (Hhas & _ & Hother).
  unfold Page.handleMasterPasswordSubmit. rewrite Hhas, (Hother _ Hne). cbn.
  now repeat split.
Qed.

(** X11: a whole session.  On a first run the master password [W] is set,
    a key is imported and saved, the application is locked (which empties the
    key list in memory) and unlocked again with [W]: the key list is then the
    imported key as the loader parses it from its armour, the application is
    unlocked and [W] is the password in memory. *)
Theorem lock_unlock_restores_keys h st W seed stV k seeds st2 k' seed' :
  hasMasterPassword st = false ->
  W <> "" ->
  setMasterPassword st W seed = (Ok tt, stV) ->
  saveKeysToStorage stV [k] W seeds = (Ok tt, st2) ->
  (forall entries,
     prepareKeys [k] W seeds 0 [] = Ok entries ->
     JSON_parse (JSON_stringify (JArr entries)) = Some (JArr entries)) ->
  rehydrate k = Ok k' ->
  let first := Page.handleMasterPasswordSubmit h st W seed in
  let added := Page.addKey first.1 first.2 k seeds in
  let locked := Home.lockApp added.1.2 in
  let unlocked := Page.handleMasterPasswordSubmit locked added.2 W seed' in
  Page.keys added.1.2 = [k] /\
  added.2 = st2 /\
  Page.keys locked = [] /\ Page.masterPassword locked = None /\
  Page.keys unlocked.1 = [k'] /\
  Page.isAppLocked unlocked.1 = false /\
  Page.masterPassword unlocked.1 = Some W /\
  unlocked.2 = st2.
Proof.
  intros Hnone HW Hset Hsave Hjson Hre first added locked unlocked.
  assert (Hfirst : first = (Page.setIsLoading false
                              (Page.setKeys []
                                 (Page.setShowMasterPasswordModal false
                                    (Page.setIsAppLocked false
                                       (Page.setMasterPasswordState (Some W)
                                          (Page.setIsLoading true
                                             (Page.setMasterPasswordError None h)))))),
                            stV)).
  { unfold first, Page.handleMasterPasswordSubmit. now rewrite Hnone, Hset. }
  assert (Hadded : Page.keys added.1.2 = [k] /\ added.2 = st2).
  { unfold added. rewrite Hfirst. cbn [fst snd].
    unfold Page.addKey, Page.addKey_decide. cbn.
    unfold Page.saveKeys. cbn.
    apply String.eqb_neq in HW. rewrite HW, Hsave. now split. }
  destruct Hadded as [Hkeys Hst2].
  split; [exact Hkeys |]. split; [exact Hst2 |].
  split; [reflexivity |]. split; [reflexivity |].
  apply setMasterPassword_ok in Hset as (c & Henc & _ & ->).
  assert (Hv : getItem st2 MASTER_PASSWORD_VERIFIER_KEY = Some c).
  { pose proof Hsave as Hs. apply saveKeysToStorage_ok in Hs as (entries & _ & -> & _).
    unfold getItem.
    rewrite lookup_insert_ne by (intros Heq; vm_compute in Heq; discriminate).
    apply lookup_insert_eq. }
  destruct (verify_wrapped_verifier st2 W c Hv) as (Hhas & Hsame & _);
    [now exists seed |].
  assert (Hload : loadKeysFromStorage st2 W = (Ok [k'], st2)).
  { eapply save_then_load; eauto. }
  unfold unlocked, Page.handleMasterPasswordSubmit.
  rewrite Hst2, Hhas, Hsame, Hload. cbn. now repeat split.
Qed.

End UnlockFacts.

(** ** Signing with the key list of [Home] *)

Section SignFacts.
Context `{OpenPGP}.

Lemma blank_nonempty s : blank s = false -> s <> "".
Proof. now intros Hb ->. Qed.

Lemma find_private_by_id (keys : list PGPKey) (k : PGPKey) :
  NoDup (keyId <$> keys) -> k ∈ keys -> isPrivate k = true ->
  find (fun k' => String.eqb (keyId k') (keyId k) && isPrivate k') keys = Some k.
Proof.
  intros Hnd Hin Hpriv.
  destruct (find _ keys) as [k' |] eqn:Hf.
  - apply find_some in Hf as [Hin' Hp]. apply andb_true_iff in Hp as [Hid _].
    apply String.eqb_eq in Hid. apply list_elem_of_In in Hin'.
    f_equal. eapply keyId_unique; eauto.
  - apply list_elem_of_In in Hin. pose proof (find_none _ _ Hf k Hin) as Hno.
    cbn in Hno. now rewrite String.eqb_refl, Hpriv in Hno.
Qed.

Lemma find_among_private (keys : list PGPKey) (k : PGPKey) :
  NoDup (keyId <$> keys) -> k ∈ keys -> isPrivate k = true ->
  find (fun k' => String.eqb (keyId k') (keyId k))
       (List.filter (fun k' => isPrivate k') keys) = Some k.
Proof.
  intros Hnd Hin Hpriv.
  destruct (find _ (List.filter _ keys)) as [k' |] eqn:Hf.
  - apply find_some in Hf as [Hin' Hid]. apply String.eqb_eq in Hid.
    apply filter_In in Hin' as [Hin' _]. apply list_elem_of_In in Hin'.
    f_equal. eapply keyId_unique; eauto.
  - assert (Hin' : In k (List.filter (fun k' => isPrivate k') keys))
      by (apply filter_In; split; [now apply list_elem_of_In | exact Hpriv]).
    pose proof (find_none _ _ Hf k Hin') as Hno. cbn in Hno.
    now rewrite String.eqb_refl in Hno.
Qed.

Lemma password_error_marked id :
  includes ("密钥 " +:+ slice_last 8 id +:+ " 的密码错误。") "密码错误" = true.
Proof. apply includes_append_r, includes_append_r. reflexivity. Qed.

Section WithKeys.
Variable keys : list PGPKey.
Variable k : PGPKey.
Hypothesis keys_unique : NoDup (keyId <$> keys).
Hypothesis k_stored : k ∈ keys.
Hypothesis k_private : isPrivate k = true.
Hypothesis k_object_private : key_isPrivate (keyObject k) = true.
Hypothesis k_named : keyId k <> "".

(** What [SignMessage] is given by [Home]. *)
Let privateKeys := List.filter (fun k' => isPrivate k') keys.
Let getDecrypted := Page.getDecryptedPrivateKeyArmored keys.

Lemma getDecrypted_locked_unlocks passphrase unlocked :
  key_isDecrypted (keyObject k) = false ->
  passphrase <> "" ->
  decryptKey (keyObject k) passphrase = Ok unlocked ->
  getDecrypted (keyId k) (Some passphrase) = Ok (Some (key_armor unlocked)).
Proof.
  intros Hlocked Hne Hd. unfold getDecrypted, Page.getDecryptedPrivateKeyArmored.
  rewrite (find_private_by_id _ _ keys_unique k_stored k_private).
  rewrite k_object_private, Hlocked. cbn.
  apply String.eqb_neq in Hne. now rewrite Hne, Hd.
Qed.

Lemma getDecrypted_locked_refused passphrase e :
  key_isDecrypted (keyObject k) = false ->
  passphrase <> "" ->
  decryptKey (keyObject k) passphrase = Throw e ->
  getDecrypted (keyId k) (Some passphrase)
  = Throw (mkError
             (if includes (message e) "password" || includes (message e) "Passphrase"
              then "密钥 " +:+ slice_last 8 (keyId k) +:+ " 的密码错误。"
              else "解密密钥 " +:+ slice_last 8 (keyId k) +:+ " 失败。")).
Proof.
  intros Hlocked Hne Hd. unfold getDecrypted, Page.getDecryptedPrivateKeyArmored.
  rewrite (find_private_by_id _ _ keys_unique k_stored k_private).
  rewrite k_object_private, Hlocked. cbn.
  apply String.eqb_neq in Hne. rewrite Hne, Hd.
  now destruct (includes (message e) "password" || includes (message e) "Passphrase").
Qed.

(** X12: signing with a key that is already unlocked signs at once: no
    passphrase prompt is opened by [handleSignClick] and nothing is staged;
    the output is what the engine signed, or, when the engine fails, the
    output is empty and the error is the engine's message after the words of
    [performSign]. *)
Theorem sign_with_unlocked_key st :
  blank (SignMessage.plaintext st) = false ->
  SignMessage.selectedPrivateKeyId st = keyId k ->
  key_isDecrypted (keyObject k) = true ->
  let signed :=
    message ← createMessage (SignMessage.plaintext st);
    sign message (keyObject k)
         (match SignMessage.signMode st with
          | SignMessage.cleartext => false
          | SignMessage.detached => true
          end) in
  let st' := SignMessage.handleSignClick privateKeys st in
  SignMessage.showKeyPasswordModal st' = SignMessage.showKeyPasswordModal st /\
  SignMessage.dataToSign st' = None /\
  SignMessage.keyIdRequiringPassword st' = None /\
  SignMessage.isLoading st' = false /\
  match signed with
  | Ok out => SignMessage.signedMessageOutput st' = out /\ SignMessage.error st' = None
  | Throw e =>
      SignMessage.signedMessageOutput st' = "" /\
      SignMessage.error st' = Some ("签名操作失败: " +:+ message e)
  end.
Proof.
  intros Hblank Hsel Hdec signed st'. subst st' signed.
  unfold SignMessage.handleSignClick.
  rewrite Hblank, Hsel. apply String.eqb_neq in k_named as Hn. rewrite Hn.
  unfold privateKeys.
  rewrite (find_among_private _ _ keys_unique k_stored k_private).
  rewrite k_object_private, Hdec. cbn [negb].
  unfold SignMessage.performSign.
  destruct (_ ≫= _) as [out | e]; cbn; now repeat split.
Qed.

(** X13: signing with a locked key, the passphrase right.
    [handleSignClick] signs nothing, stages the plaintext and opens the
    prompt; [handleKeyPasswordSubmit] with a passphrase the engine accepts
    for the key then signs the staged plaintext with the unlocked key, closes
    the prompt and leaves no staged plaintext and no error. *)
Theorem sign_with_locked_key st passphrase unlocked reread message out :
  blank (SignMessage.plaintext st) = false ->
  SignMessage.selectedPrivateKeyId st = keyId k ->
  key_isDecrypted (keyObject k) = false ->
  passphrase <> "" ->
  decryptKey (keyObject k) passphrase = Ok unlocked ->
  key_armor unlocked <> "" ->
  readPrivateKey (key_armor unlocked) = Ok reread ->
  createMessage (SignMessage.plaintext st) = Ok message ->
  sign message reread
       (match SignMessage.signMode st with
        | SignMessage.cleartext => false
        | SignMessage.detached => true
        end) = Ok out ->
  let awaiting := SignMessage.handleSignClick privateKeys st in
  let done := SignMessage.handleKeyPasswordSubmit getDecrypted privateKeys
                awaiting passphrase in
  (SignMessage.showKeyPasswordModal awaiting = true /\
   SignMessage.dataToSign awaiting = Some (SignMessage.plaintext st) /\
   SignMessage.signedMessageOutput awaiting = "") /\
  (SignMessage.signedMessageOutput done = out /\
   SignMessage.error done = None /\
   SignMessage.showKeyPasswordModal done = false /\
   SignMessage.dataToSign done = None /\
   SignMessage.keyIdRequiringPassword done = None /\
   SignMessage.isLoading done = false).
Proof.
  intros Hblank Hsel Hlocked Hpass Hd Harmor Hread Hmsg Hsign awaiting done.
  assert (Hawait : awaiting =
            SignMessage.setIsLoading false
              (SignMessage.setShowKeyPasswordModal true
                 (SignMessage.setKeyIdRequiringPassword
                    (Some (slice_last 16 (SignMessage.selectedPrivateKeyId st)))
                    (SignMessage.setDataToSign (Some (SignMessage.plaintext st))
                       (SignMessage.setKeyIdRequiringPassword None
                          (SignMessage.setDataToSign None
                             (SignMessage.setSignedMessageOutput ""
                                (SignMessage.setError None
                                   (SignMessage.setIsLoading true st))))))))).
  { unfold awaiting, SignMessage.handleSignClick.
    rewrite Hblank, Hsel. apply String.eqb_neq in k_named as Hn. rewrite Hn.
    unfold privateKeys.
    rewrite (find_among_private _ _ keys_unique k_stored k_private).
    now rewrite k_object_private, Hlocked. }
  split; [rewrite Hawait; now repeat split |].
  unfold done. rewrite Hawait. unfold SignMessage.handleKeyPasswordSubmit.
  sign_simpl.
  pose proof (blank_nonempty _ Hblank) as Hp. apply String.eqb_neq in Hp.
  apply String.eqb_neq in k_named as Hn.
  rewrite Hp, Hsel, Hn. sign_simpl.
  unfold privateKeys.
  rewrite (find_among_private _ _ keys_unique k_stored k_private).
  unfold SignMessage.submit_try.
  sign_simpl.
  rewrite Hsel, (getDecrypted_locked_unlocks _ _ Hlocked Hpass Hd). sign_simpl.
  apply String.eqb_neq in Harmor. rewrite Harmor, Hread. sign_simpl.
  unfold SignMessage.performSign. rewrite Hmsg. sign_simpl. rewrite Hsign.
  now repeat split.
Qed.

(** X14: signing with a locked key, the passphrase refused.  Whatever the
    words of the engine's refusal, [handleKeyPasswordSubmit] signs nothing,
    closes the prompt and clears the staged plaintext.  The error shown says
    that the passphrase of the key is wrong only when the engine's message
    contains "password" or "Passphrase", capital included; on any other
    wording [getDecryptedPrivateKeyArmored] throws its general message, and
    the handler shows that message after its own words (unless that message,
    which carries the end of the key identifier, itself passes the handler's
    test). *)
Theorem sign_with_wrong_passphrase st passphrase e :
  blank (SignMessage.plaintext st) = false ->
  SignMessage.selectedPrivateKeyId st = keyId k ->
  key_isDecrypted (keyObject k) = false ->
  passphrase <> "" ->
  decryptKey (keyObject k) passphrase = Throw e ->
  let awaiting := SignMessage.handleSignClick privateKeys st in
  let done := SignMessage.handleKeyPasswordSubmit getDecrypted privateKeys
                awaiting passphrase in
  let general := "解密密钥 " +:+ slice_last 8 (keyId k) +:+ " 失败。" in
  SignMessage.signedMessageOutput done = "" /\
  SignMessage.error done
    = Some (if includes (message e) "password" || includes (message e) "Passphrase"
            then "密钥 " +:+ slice_last 8 (keyId k) +:+ " 的密码错误。"
            else if includes general "密码错误" || includes general "Passphrase"
                 then "密钥 " +:+ slice_last 8 (keyId k) +:+ " 的密码错误。"
                 else "使用密码签名时出错: " +:+ general) /\
  SignMessage.showKeyPasswordModal done = false /\
  SignMessage.dataToSign done = None /\
  SignMessage.keyIdRequiringPassword done = None /\
  SignMessage.isLoading done = false.
Proof.
  intros Hblank Hsel Hlocked Hpass Hd awaiting done general.
  assert (Hawait : awaiting =
            SignMessage.setIsLoading false
              (SignMessage.setShowKeyPasswordModal true
                 (SignMessage.setKeyIdRequiringPassword
                    (Some (slice_last 16 (SignMessage.selectedPrivateKeyId st)))
                    (SignMessage.setDataToSign (Some (SignMessage.plaintext st))
                       (SignMessage.setKeyIdRequiringPassword None
                          (SignMessage.setDataToSign None
                             (SignMessage.setSignedMessageOutput ""
                                (SignMessage.setError None
                                   (SignMessage.setIsLoading true st))))))))).
  { unfold awaiting, SignMessage.handleSignClick.
    rewrite Hblank, Hsel. apply String.eqb_neq in k_named as Hn. rewrite Hn.
    unfold privateKeys.
    rewrite (find_among_private _ _ keys_unique k_stored k_private).
    now rewrite k_object_private, Hlocked. }
  unfold done. rewrite Hawait. unfold SignMessage.handleKeyPasswordSubmit.
  sign_simpl.
  pose proof (blank_nonempty _ Hblank) as Hp. apply String.eqb_neq in Hp.
  apply String.eqb_neq in k_named as Hn.
  rewrite Hp, Hsel, Hn. sign_simpl.
  unfold privateKeys.
  rewrite (find_among_private _ _ keys_unique k_stored k_private).
  unfold SignMessage.submit_try.
  sign_simpl.
  rewrite Hsel, (getDecrypted_locked_refused _ _ Hlocked Hpass Hd). sign_simpl.
  destruct (includes (message e) "password" || includes (message e) "Passphrase").
  - sign_simpl. rewrite password_error_marked. sign_simpl. now repeat split.
  - sign_simpl. fold general.
    destruct (includes general "密码错误" || includes general "Passphrase");
      sign_simpl; now repeat split.
Qed.

End WithKeys.
End SignFacts.

(** ** Decrypting: the first attempt and the retry loop *)

Section DecryptFacts.
Context `{OpenPGP}.
Variable getDecryptedPrivateKeyArmored : string -> option string -> result (option string).
Variable privateKeys : list PGPKey.
Variable publicKeys : list Key.

(** X15: a first attempt that decrypts.  [handleDecryptClick] shows the
    plaintext, opens no prompt and stages nothing.  When the message carries a
    signature the report on the first one is shown and the loading flag is
    off; when it carries none, the loading flag, raised at the start, is
    never lowered: no path of the handler or of [handleDecryptAttempt] does
    it. *)
Theorem decrypt_first_attempt_succeeds st parsedMessage text signatures :
  blank (DecryptMessage.ciphertext st) = false ->
  readMessage (DecryptMessage.ciphertext st) = Ok parsedMessage ->
  privateKeys <> [] ->
  decrypt_keys parsedMessage (map keyObject privateKeys) = Ok (text, signatures) ->
  let st' := DecryptMessage.handleDecryptClick privateKeys publicKeys st in
  DecryptMessage.plaintext st' = text /\
  DecryptMessage.error st' = None /\
  DecryptMessage.showKeyPasswordModal st' = DecryptMessage.showKeyPasswordModal st /\
  DecryptMessage.messageToDecrypt st' = None /\
  DecryptMessage.keyIdRequiringPassword st' = None /\
  match signatures with
  | [] => DecryptMessage.signatureInfo st' = Some "消息未签名。" /\
          DecryptMessage.isLoading st' = true
  | first :: _ =>
      DecryptMessage.signatureInfo st' = Some (signature_report text first publicKeys) /\
      DecryptMessage.isLoading st' = false
  end.
Proof.
  intros Hblank Hread Hkeys Hdec st'. subst st'.
  unfold DecryptMessage.handleDecryptClick. rewrite Hblank, Hread.
  destruct privateKeys as [| k rest] eqn:Hpk; [congruence |].
  cbn [map]. cbn [map] in Hdec.
  unfold DecryptMessage.handleDecryptAttempt. rewrite Hdec.
  destruct signatures; now repeat split.
Qed.

(** X16: a new attempt starts from nothing.  When the pasted text is not
    blank, what [handleDecryptClick] leaves depends on the text and on
    whether the prompt was open, and on nothing else of the earlier state:
    plaintext, signature report, error, loading flag, staged message and
    hint of an earlier attempt play no part. *)
Theorem decrypt_start_is_fresh st1 st2 :
  blank (DecryptMessage.ciphertext st1) = false ->
  DecryptMessage.ciphertext st1 = DecryptMessage.ciphertext st2 ->
  DecryptMessage.showKeyPasswordModal st1 = DecryptMessage.showKeyPasswordModal st2 ->
  DecryptMessage.handleDecryptClick privateKeys publicKeys st1 =
  DecryptMessage.handleDecryptClick privateKeys publicKeys st2.
Proof.
  destruct st1, st2. cbn. intros Hblank <- <-.
  unfold DecryptMessage.handleDecryptClick. decrypt_simpl. rewrite Hblank.
  reflexivity.
Qed.

Lemma retryLoop_passes_over parsedMessage password failing :
  Forall (passed_over getDecryptedPrivateKeyArmored password) failing ->
  forall rest s,
    exists err,
      DecryptMessage.retryLoop getDecryptedPrivateKeyArmored privateKeys publicKeys
        parsedMessage password (failing ++ rest) s
      = DecryptMessage.retryLoop getDecryptedPrivateKeyArmored privateKeys publicKeys
          parsedMessage password rest (DecryptMessage.setError err s).
Proof.
  induction 1 as [| f failing Hf _ IH]; intros rest s.
  - exists (DecryptMessage.error s). now destruct s.
  - cbn [app DecryptMessage.retryLoop].
    destruct Hf as [[e He] | [(a & Ha & Habs) | (a & e & Ha & Hne & Hr)]].
    + rewrite He.
      destruct (IH rest (DecryptMessage.retry_failed f e s)) as [err ->].
      exists err. f_equal. unfold DecryptMessage.retry_failed.
      now destruct (_ || _).
    + rewrite Ha, Habs. apply IH.
    + rewrite Ha. apply String.eqb_neq in Hne. cbn [absent]. rewrite Hne, Hr.
      destruct (IH rest (DecryptMessage.retry_failed f e s)) as [err ->].
      exists err. f_equal. unfold DecryptMessage.retry_failed.
      now destruct (_ || _).
Qed.

(** X17: the retry loop takes the candidates in order, passes over every
    one that does not unlock, whatever its error, and stops at the first that
    does: decryption is tried with that key alone and the candidates after it
    are never consulted, so that the outcome does not depend on them, even
    when decryption with that key fails.  When no candidate unlocks, the
    state is the one the loop started from, the error apart. *)
Theorem retryLoop_first_unlocking_key parsedMessage password failing good armour
    unlocked rest s :
  Forall (passed_over getDecryptedPrivateKeyArmored password) failing ->
  getDecryptedPrivateKeyArmored (keyId good) (Some password) = Ok (Some armour) ->
  armour <> "" ->
  readPrivateKey armour = Ok unlocked ->
  (exists err,
     DecryptMessage.retryLoop getDecryptedPrivateKeyArmored privateKeys publicKeys
       parsedMessage password (failing ++ good :: rest) s
     = DecryptMessage.handleDecryptAttempt privateKeys publicKeys parsedMessage
         [unlocked] (DecryptMessage.setError err s)) /\
  (exists err,
     DecryptMessage.retryLoop getDecryptedPrivateKeyArmored privateKeys publicKeys
       parsedMessage password failing s
     = DecryptMessage.setError err s).
Proof.
  intros Hfail Hgood Hne Hread. split.
  - destruct (retryLoop_passes_over parsedMessage password failing Hfail (good :: rest) s)
      as [err ->].
    exists err. cbn [DecryptMessage.retryLoop].
    rewrite Hgood. cbn [absent]. apply String.eqb_neq in Hne. now rewrite Hne, Hread.
  - destruct (retryLoop_passes_over parsedMessage password failing Hfail [] s)
      as [err Herr].
    rewrite app_nil_r in Herr. rewrite Herr. now exists err.
Qed.

End DecryptFacts.

Section SignStartFacts.
Context `{OpenPGP}.
Variable privateKeys : list PGPKey.

(** X18: a new signing attempt starts from nothing.  Once
    [handleSignClick] has accepted its input (text not blank, a key selected,
    found among [privateKeys] and private), what it leaves depends on the
    text, the selection, the mode and whether the prompt was open, and on
    nothing else of the earlier state: output, error, loading flag, staged
    plaintext and hint of an earlier attempt play no part. *)
Theorem sign_start_is_fresh st1 st2 selectedKey :
  blank (SignMessage.plaintext st1) = false ->
  SignMessage.selectedPrivateKeyId st1 <> "" ->
  find (fun k => String.eqb (keyId k) (SignMessage.selectedPrivateKeyId st1)) privateKeys
    = Some selectedKey ->
  key_isPrivate (keyObject selectedKey) = true ->
  SignMessage.plaintext st1 = SignMessage.plaintext st2 ->
  SignMessage.selectedPrivateKeyId st1 = SignMessage.selectedPrivateKeyId st2 ->
  SignMessage.signMode st1 = SignMessage.signMode st2 ->
  SignMessage.showKeyPasswordModal st1 = SignMessage.showKeyPasswordModal st2 ->
  SignMessage.handleSignClick privateKeys st1 = SignMessage.handleSignClick privateKeys st2.
Proof.
  destruct st1, st2. cbn. intros Hblank Hsel Hfind Hpriv <- <- <- <-.
  unfold SignMessage.handleSignClick. sign_simpl.
  apply String.eqb_neq in Hsel. rewrite Hblank, Hsel, Hfind, Hpriv. sign_simpl.
  unfold SignMessage.performSign. sign_simpl.
  destruct (key_isDecrypted (keyObject selectedKey)); [| reflexivity].
  now destruct (_ ≫= _).
Qed.

End SignStartFacts.

(** ** The recipients of an encryption *)

Section EncryptFacts.
Context `{OpenPGP} `{!OpenPGPComponents}.

Lemma set_has_elem (id : string) (ids : list string) :
  EncryptMessage.set_has id ids = true <-> id ∈ ids.
Proof.
  unfold EncryptMessage.set_has. rewrite existsb_exists. split.
  - intros (x & Hin & Heq). apply String.eqb_eq in Heq. subst x.
    now apply list_elem_of_In.
  - intros Hin. exists id. split; [now apply list_elem_of_In | apply String.eqb_refl].
Qed.

Lemma set_delete_elem (id id' : string) (ids : list string) :
  id' ∈ EncryptMessage.set_delete id ids <-> id' <> id /\ id' ∈ ids.
Proof.
  unfold EncryptMessage.set_delete.
  rewrite list_elem_of_In, filter_In, <- list_elem_of_In.
  rewrite negb_true_iff, String.eqb_neq. tauto.
Qed.

Lemma find_key_found (publicKeys : list Key) (id : string) :
  (exists k, k ∈ publicKeys /\ key_getKeyID k = id) ->
  exists k, find (fun pk => String.eqb (key_getKeyID pk) id) publicKeys = Some k
            /\ k ∈ publicKeys /\ key_getKeyID k = id.
Proof.
  intros (k & Hk & Hid).
  destruct (find (fun pk => String.eqb (key_getKeyID pk) id) publicKeys) as [k'|] eqn:Hfind.
  - exists k'. apply find_some in Hfind as [Hin Heq]. apply String.eqb_eq in Heq.
    split; [reflexivity|]. split; [now apply list_elem_of_In | exact Heq].
  - exfalso. apply list_elem_of_In in Hk.
    pose proof (find_none _ _ Hfind k Hk) as Hno. cbn in Hno.
    apply String.eqb_neq in Hno. contradiction.
Qed.

Lemma find_key_missing (publicKeys : list Key) (id : string) :
  (forall pk, pk ∈ publicKeys -> key_getKeyID pk <> id) ->
  find (fun pk => String.eqb (key_getKeyID pk) id) publicKeys = None.
Proof.
  intros Hno.
  destruct (find (fun pk => String.eqb (key_getKeyID pk) id) publicKeys) as [k'|] eqn:Hfind;
    [|reflexivity].
  apply find_some in Hfind as [Hin Heq]. apply String.eqb_eq in Heq.
  apply list_elem_of_In in Hin. now destruct (Hno k' Hin).
Qed.

Lemma encryptionKeys_of_found (publicKeys : list Key) (ids : list string) :
  (forall id, id ∈ ids -> exists k, k ∈ publicKeys /\ key_getKeyID k = id) ->
  exists keys,
    EncryptMessage.encryptionKeys_of publicKeys ids = Ok keys
    /\ Forall2 (fun id k => k ∈ publicKeys /\ key_getKeyID k = id) ids keys.
Proof.
  induction ids as [|id rest IH]; intros Hall.
  - exists []. split; [reflexivity | constructor].
  - destruct (find_key_found publicKeys id) as (k & Hfind & Hin & Hid).
    { apply Hall. apply list_elem_of_here. }
    destruct IH as (keys & Hkeys & Hall2).
    { intros id' Hid'. apply Hall. now apply list_elem_of_further. }
    exists (k :: keys). cbn. rewrite Hfind, Hkeys. cbn.
    split; [reflexivity | now constructor].
Qed.

Lemma encryptionKeys_of_missing (publicKeys : list Key) (found : list string)
    (id : string) (rest : list string) :
  (forall id', id' ∈ found -> exists k, k ∈ publicKeys /\ key_getKeyID k = id') ->
  (forall pk, pk ∈ publicKeys -> key_getKeyID pk <> id) ->
  EncryptMessage.encryptionKeys_of publicKeys (found ++ id :: rest)%list
  = Throw (mkError ("找不到 KeyID 为 " +:+ slice_last 8 id +:+ " 的公钥对象。")).
Proof.
  intros Hfound Hmissing. induction found as [|id' found IH]; cbn.
  - now rewrite (find_key_missing _ _ Hmissing).
  - destruct (find_key_found publicKeys id') as (k & Hfind & _).
    { apply Hfound. apply list_elem_of_here. }
    rewrite Hfind, IH; [reflexivity|].
    intros i Hi. apply Hfound. now apply list_elem_of_further.
Qed.

(** X19: [handleRecipientChange] keeps the selection a set: on a selection
    without repetition, ticking a recipient adds that identifier and nothing
    else, unticking removes it and nothing else, and the result has no
    repetition either, so no recipient is looked up twice by [handleEncrypt]. *)
Theorem handleRecipientChange_keeps_a_set (keyId' : string) (checked : bool)
    (st : EncryptMessage.State) :
  NoDup (EncryptMessage.selectedKeyIds st) ->
  NoDup (EncryptMessage.selectedKeyIds
           (EncryptMessage.handleRecipientChange keyId' checked st))
  /\ forall id,
       id ∈ EncryptMessage.selectedKeyIds
              (EncryptMessage.handleRecipientChange keyId' checked st)
       <-> if checked then id = keyId' \/ id ∈ EncryptMessage.selectedKeyIds st
           else id <> keyId' /\ id ∈ EncryptMessage.selectedKeyIds st.
Proof.
  intros Hnodup. destruct st as [pt ct ids busy err]. cbn in *.
  destruct checked.
  - unfold EncryptMessage.set_add.
    destruct (EncryptMessage.set_has keyId' ids) eqn:Hhas.
    + apply set_has_elem in Hhas. split; [exact Hnodup|].
      intros id. split; [now right | intros [-> | Hin]; assumption].
    + assert (keyId' ∉ ids) as Hnot.
      { intros Hin. apply set_has_elem in Hin. congruence. }
      split.
      * apply NoDup_app. split; [exact Hnodup|]. split; [|apply NoDup_singleton].
        intros x Hx Hx'. apply list_elem_of_singleton in Hx'. now subst x.
      * intros id. rewrite elem_of_app, list_elem_of_singleton. tauto.
  - split; [|intros id; apply set_delete_elem].
    clear -Hnodup. induction Hnodup as [|x l Hx Hl IH]; [constructor|].
    unfold EncryptMessage.set_delete in *. cbn.
    destruct (negb (String.eqb x keyId')); [|exact IH].
    constructor; [|exact IH].
    intros Hin. apply (set_delete_elem keyId' x l) in Hin. tauto.
Qed.

(** X20: When a selected identifier has no key among [publicKeys],
    [handleEncrypt] encrypts nothing: the ciphertext shown is empty, loading
    is off, and the error names the first such identifier of the selection,
    whatever the keys of the identifiers selected after it. *)
Theorem handleEncrypt_missing_recipient (publicKeys : list Key)
    (st : EncryptMessage.State) (seed : Seed)
    (found : list string) (id : string) (rest : list string) :
  blank (EncryptMessage.plaintext st) = false ->
  EncryptMessage.selectedKeyIds st = (found ++ id :: rest)%list ->
  (forall id', id' ∈ found -> exists k, k ∈ publicKeys /\ key_getKeyID k = id') ->
  (forall pk, pk ∈ publicKeys -> key_getKeyID pk <> id) ->
  EncryptMessage.handleEncrypt publicKeys st seed
  = EncryptMessage.mkState (EncryptMessage.plaintext st) ""
      (EncryptMessage.selectedKeyIds st) false
      (Some ("加密失败: 找不到 KeyID 为 " +:+ slice_last 8 id +:+ " 的公钥对象。")).
Proof.
  intros Hblank Hsel Hfound Hmissing.
  pose proof (encryptionKeys_of_missing _ _ _ rest Hfound Hmissing) as Hkeys.
  destruct st as [pt ct ids busy err]. cbn in Hblank, Hsel. subst ids.
  unfold EncryptMessage.handleEncrypt.
  cbn [EncryptMessage.plaintext EncryptMessage.selectedKeyIds]. rewrite Hblank.
  destruct (found ++ id :: rest)%list as [|first others] eqn:Hids.
  - destruct found; discriminate.
  - rewrite Hkeys. reflexivity.
Qed.

(** X21: When every selected identifier has a key among [publicKeys], the
    message made of the plaintext is encrypted for one key per selected
    identifier, in the order of selection, each a key of [publicKeys] with
    that identifier; the ciphertext is the engine's answer, and an engine
    failure is shown as the error with the ciphertext empty. *)
Theorem handleEncrypt_selected_recipients (publicKeys : list Key)
    (st : EncryptMessage.State) (seed : Seed) :
  blank (EncryptMessage.plaintext st) = false ->
  EncryptMessage.selectedKeyIds st <> [] ->
  (forall id, id ∈ EncryptMessage.selectedKeyIds st ->
              exists k, k ∈ publicKeys /\ key_getKeyID k = id) ->
  exists keys,
    Forall2 (fun id k => k ∈ publicKeys /\ key_getKeyID k = id)
            (EncryptMessage.selectedKeyIds st) keys
    /\ EncryptMessage.handleEncrypt publicKeys st seed
       = match (message ← createMessage (EncryptMessage.plaintext st);
                encrypt_keys message keys seed) with
         | Ok encryptedArmored =>
             EncryptMessage.mkState (EncryptMessage.plaintext st) encryptedArmored
               (EncryptMessage.selectedKeyIds st) false None
         | Throw err =>
             EncryptMessage.mkState (EncryptMessage.plaintext st) ""
               (EncryptMessage.selectedKeyIds st) false
               (Some ("加密失败: " +:+ message err))
         end.
Proof.
  intros Hblank Hsel Hall.
  destruct (encryptionKeys_of_found publicKeys _ Hall) as (keys & Hkeys & Hall2).
  exists keys. split; [exact Hall2|].
  destruct st as [pt ct ids busy err]. cbn in Hblank, Hsel, Hkeys |- *.
  unfold EncryptMessage.handleEncrypt.
  cbn [EncryptMessage.plaintext EncryptMessage.selectedKeyIds]. rewrite Hblank.
  destruct ids as [|first others]; [contradiction|].
  rewrite Hkeys.
  destruct (createMessage pt) as [m|e]; [|reflexivity].
  cbn [mbind result_mbind result_bind].
  destruct (encrypt_keys m keys seed); reflexivity.
Qed.

(** X22: An input [handleEncrypt] rejects (blank plaintext, or no recipient
    selected) only sets the error: the ciphertext of an earlier encryption
    stays on display beside it, and the loading flag is not touched. *)
Theorem handleEncrypt_rejected_input_keeps_ciphertext (publicKeys : list Key)
    (st : EncryptMessage.State) (seed : Seed) :
  blank (EncryptMessage.plaintext st) = true \/ EncryptMessage.selectedKeyIds st = [] ->
  is_Some (EncryptMessage.error (EncryptMessage.handleEncrypt publicKeys st seed))
  /\ EncryptMessage.ciphertext (EncryptMessage.handleEncrypt publicKeys st seed)
     = EncryptMessage.ciphertext st
  /\ EncryptMessage.isLoading (EncryptMessage.handleEncrypt publicKeys st seed)
     = EncryptMessage.isLoading st.
Proof.
  intros Hrejected. unfold EncryptMessage.handleEncrypt.
  destruct (blank (EncryptMessage.plaintext st)) eqn:Hblank.
  - cbn. eauto.
  - destruct Hrejected as [Hb | Hsel]; [discriminate|]. rewrite Hsel. cbn. eauto.
Qed.

End EncryptFacts.


(** ** What a verification reports *)

Section VerifyFacts.
Context `{OpenPGP} `{!OpenPGPComponents}.

(** The verdict begins with the check mark only for a first signature whose
    [verified] resolved to [true]. *)
Lemma verdict_check_mark (publicKeys : list Key) (st : VerifySignature.State)
    (text : string) :
  VerifySignature.verdict publicKeys st = Ok text ->
  String.prefix "✔️" text = true ->
  exists input firstSignature others,
    VerifySignature.verifyInput_of st = Ok input
    /\ verify input publicKeys = Ok (firstSignature :: others)
    /\ verified firstSignature = Ok true.
Proof.
  unfold VerifySignature.verdict. intros Hverdict Hmark.
  destruct (VerifySignature.verifyInput_of st) as [input|e]; [|discriminate].
  cbn [mbind result_mbind result_bind] in Hverdict.
  destruct (verify input publicKeys) as [[|firstSignature others]|e] eqn:Hverify;
    cbn [mbind result_mbind result_bind] in Hverdict; [| |discriminate].
  - injection Hverdict as <-. discriminate.
  - destruct (verified firstSignature) as [[|]|e] eqn:Hverified;
      cbn [mbind result_mbind result_bind] in Hverdict; [| |discriminate].
    + now exists input, firstSignature, others.
    + injection Hverdict as <-. discriminate.
Qed.

Lemma verdict_of_verified (publicKeys : list Key) (st : VerifySignature.State)
    (input : VerifyInput CleartextMessage) (firstSignature : VerificationResult)
    (others : list VerificationResult) :
  VerifySignature.verifyInput_of st = Ok input ->
  verify input publicKeys = Ok (firstSignature :: others) ->
  verified firstSignature = Ok true ->
  exists text, VerifySignature.verdict publicKeys st = Ok text
               /\ String.prefix "✔️" text = true.
Proof.
  intros Hinput Hverify Hverified. unfold VerifySignature.verdict.
  rewrite Hinput. cbn [mbind result_mbind result_bind].
  rewrite Hverify. cbn [mbind result_mbind result_bind].
  rewrite Hverified. cbn [mbind result_mbind result_bind].
  eexists. split; reflexivity.
Qed.

(** X23: Whatever the input, [handleVerify] ends with loading off and with
    exactly one report: either an error and no verification result, or a
    verification result and no error.  The texts entered and the mode are
    left as they were. *)
Theorem handleVerify_reports_once (publicKeys : list Key) (st : VerifySignature.State) :
  VerifySignature.isLoading (VerifySignature.handleVerify publicKeys st) = false
  /\ ((VerifySignature.error (VerifySignature.handleVerify publicKeys st) = None
       /\ is_Some (VerifySignature.verificationResult
                     (VerifySignature.handleVerify publicKeys st)))
      \/ (is_Some (VerifySignature.error (VerifySignature.handleVerify publicKeys st))
          /\ VerifySignature.verificationResult
               (VerifySignature.handleVerify publicKeys st) = None))
  /\ VerifySignature.verifyMode (VerifySignature.handleVerify publicKeys st)
     = VerifySignature.verifyMode st
  /\ VerifySignature.inputText (VerifySignature.handleVerify publicKeys st)
     = VerifySignature.inputText st
  /\ VerifySignature.signatureText (VerifySignature.handleVerify publicKeys st)
     = VerifySignature.signatureText st.
Proof.
  unfold VerifySignature.handleVerify.
  destruct (VerifySignature.verifyMode st) eqn:Hmode;
    destruct (blank (VerifySignature.inputText st));
    destruct (blank (VerifySignature.signatureText st));
    destruct publicKeys as [|pk pks];
    try destruct (VerifySignature.verdict (pk :: pks) st);
    verify_simpl; rewrite ?Hmode; eauto 10.
Qed.

(** X24: The result of [handleVerify] begins with the check mark exactly
    when the input passed the checks, a public key is at hand, the engine
    read the input and returned at least one signature, and the [verified]
    promise of the first one resolved to [true].  No other path, and no
    later signature of the list, leads to a result that says valid. *)
Theorem handleVerify_valid_iff_first_verified (publicKeys : list Key)
    (st : VerifySignature.State) :
  (exists text,
     VerifySignature.verificationResult (VerifySignature.handleVerify publicKeys st)
     = Some text
     /\ String.prefix "✔️" text = true)
  <-> (blank (VerifySignature.inputText st) = false
       /\ (VerifySignature.verifyMode st = VerifySignature.detached ->
           blank (VerifySignature.signatureText st) = false)
       /\ publicKeys <> []
       /\ exists input firstSignature others,
            VerifySignature.verifyInput_of st = Ok input
            /\ verify input publicKeys = Ok (firstSignature :: others)
            /\ verified firstSignature = Ok true).
Proof.
  unfold VerifySignature.handleVerify. split.
  - intros (text & Hresult & Hmark).
    destruct (VerifySignature.verifyMode st) eqn:Hmode;
      destruct (blank (VerifySignature.inputText st));
      destruct (blank (VerifySignature.signatureText st));
      destruct publicKeys as [|pk pks];
      try destruct (VerifySignature.verdict (pk :: pks) st) as [text'|e] eqn:Hverdict;
      verify_simpl; try discriminate;
      injection Hresult as ->;
      (split; [reflexivity|]); (split; [intros; congruence|]);
      (split; [discriminate|]);
      exact (verdict_check_mark _ _ _ Hverdict Hmark).
  - intros (Hinput & Hsignature & Hkeys & input & firstSignature & others
            & Hread & Hverify & Hverified).
    destruct (verdict_of_verified _ _ _ _ _ Hread Hverify Hverified)
      as (text & Hverdict & Hmark).
    exists text. split; [|exact Hmark].
    rewrite Hinput, Hverdict.
    destruct (VerifySignature.verifyMode st) eqn:Hmode.
    + destruct publicKeys; [contradiction | reflexivity].
    + rewrite (Hsignature eq_refl). destruct publicKeys; [contradiction | reflexivity].
Qed.

(** X25: When the [verified] promise of the first signature rejects, which
    is how the engine reports a signature that does not check, [handleVerify]
    shows no verification result at all: the rejection is shown as an error,
    worded by the [catch] block from the engine's message. *)
Theorem handleVerify_rejected_signature_is_an_error (publicKeys : list Key)
    (st : VerifySignature.State) (input : VerifyInput CleartextMessage)
    (firstSignature : VerificationResult) (others : list VerificationResult)
    (err : JsError) :
  blank (VerifySignature.inputText st) = false ->
  (VerifySignature.verifyMode st = VerifySignature.detached ->
   blank (VerifySignature.signatureText st) = false) ->
  publicKeys <> [] ->
  VerifySignature.verifyInput_of st = Ok input ->
  verify input publicKeys = Ok (firstSignature :: others) ->
  verified firstSignature = Throw err ->
  VerifySignature.handleVerify publicKeys st
  = VerifySignature.mkState (VerifySignature.verifyMode st)
      (VerifySignature.inputText st) (VerifySignature.signatureText st)
      None false (Some (VerifySignature.verify_failed err)).
Proof.
  intros Hinput Hsignature Hkeys Hread Hverify Hverified.
  assert (VerifySignature.verdict publicKeys st = Throw err) as Hverdict.
  { unfold VerifySignature.verdict. rewrite Hread.
    cbn [mbind result_mbind result_bind]. rewrite Hverify.
    cbn [mbind result_mbind result_bind]. rewrite Hverified. reflexivity. }
  unfold VerifySignature.handleVerify. rewrite Hinput, Hverdict.
  destruct (VerifySignature.verifyMode st) eqn:Hmode.
  - destruct publicKeys; [contradiction|].
    unfold VerifySignature.setIsLoading, VerifySignature.setError,
      VerifySignature.setVerificationResult.
    verify_simpl. now rewrite Hmode.
  - rewrite (Hsignature eq_refl). destruct publicKeys; [contradiction|].
    unfold VerifySignature.setIsLoading, VerifySignature.setError,
      VerifySignature.setVerificationResult.
    verify_simpl. now rewrite Hmode.
Qed.

End VerifyFacts.


(** ** Importing and generating keys *)

Section ImportFacts.
Context `{OpenPGP} `{Browser} `{!OpenPGPComponents}.

Variable onAddKey : PGPKey -> (nat -> Seed) -> Home.World -> Home.World.

Lemma readForImport_prompt (armoredKey : string) (passphrase : option string) :
  KeyManagement.readForImport armoredKey passphrase = Ok None ->
  absent passphrase = true
  /\ exists privError, readPrivateKey_with armoredKey passphrase = Throw privError
                       /\ includes (message privError) "encrypted" = true.
Proof.
  unfold KeyManagement.readForImport.
  destruct (readPrivateKey_with armoredKey passphrase) as [k|privError]; [discriminate|].
  destruct (includes (message privError) "encrypted") eqn:Hencrypted;
    destruct (absent passphrase) eqn:Habsent; cbn [andb];
    try (destruct (readKey armoredKey); discriminate).
  intros _. split; [reflexivity|]. now exists privError.
Qed.

Lemma readForImport_fallback (armoredKey : string) (passphrase : option string)
    (privError : JsError) (k : Key) :
  readPrivateKey_with armoredKey passphrase = Throw privError ->
  includes (message privError) "encrypted" = false \/ absent passphrase = false ->
  readKey armoredKey = Ok k ->
  KeyManagement.readForImport armoredKey passphrase = Ok (Some k).
Proof.
  intros Hprivate Hwhy Hpublic. unfold KeyManagement.readForImport.
  rewrite Hprivate, Hpublic.
  destruct Hwhy as [-> | ->]; [reflexivity|]. now rewrite andb_false_r.
Qed.

Lemma handleImportAttempt_imports (rendered : KeyManagement.State)
    (armoredKey : string) (passphrase : option string) (seeds : nat -> Seed)
    (s : KeyManagement.State) (w : Home.World) (k : Key) (parsedKey : PGPKey) :
  KeyManagement.readForImport armoredKey passphrase = Ok (Some k) ->
  hydrate k armoredKey = Ok parsedKey ->
  (KeyManagement.handleImportAttempt onAddKey rendered armoredKey passphrase seeds s w).2
  = onAddKey parsedKey seeds w
  /\ KeyManagement.importError
       (KeyManagement.handleImportAttempt onAddKey rendered armoredKey passphrase
          seeds s w).1 = None
  /\ KeyManagement.keyImportText
       (KeyManagement.handleImportAttempt onAddKey rendered armoredKey passphrase
          seeds s w).1 = ""
  /\ KeyManagement.armoredKeyToImport
       (KeyManagement.handleImportAttempt onAddKey rendered armoredKey passphrase
          seeds s w).1 = None.
Proof.
  intros Hread Hhydrate. unfold KeyManagement.handleImportAttempt.
  rewrite Hread, Hhydrate.
  destruct (KeyManagement.showImportPasswordModal rendered
            && match KeyManagement.armoredKeyToImport rendered with
               | None => true
               | Some _ => false
               end); cbn; auto.
Qed.

(** X26: An import attempt ends with the importing flag off and in one of
    three ways.  It reports an error and adds nothing; or, only when no
    passphrase was given, it stages the text for the passphrase prompt and
    adds nothing; or it hands exactly one record to [onAddKey], whose armour
    is the text as it was given, and clears the text area. *)
Theorem handleImportAttempt_adds_or_reports (rendered : KeyManagement.State)
    (armoredKey : string) (passphrase : option string) (seeds : nat -> Seed)
    (s : KeyManagement.State) (w : Home.World) :
  KeyManagement.isImporting
    (KeyManagement.handleImportAttempt onAddKey rendered armoredKey passphrase
       seeds s w).1 = false
  /\ (((KeyManagement.handleImportAttempt onAddKey rendered armoredKey passphrase
          seeds s w).2 = w
       /\ is_Some (KeyManagement.importError
                     (KeyManagement.handleImportAttempt onAddKey rendered armoredKey
                        passphrase seeds s w).1))
      \/ ((KeyManagement.handleImportAttempt onAddKey rendered armoredKey passphrase
             seeds s w).2 = w
          /\ absent passphrase = true
          /\ KeyManagement.armoredKeyToImport
               (KeyManagement.handleImportAttempt onAddKey rendered armoredKey
                  passphrase seeds s w).1 = Some armoredKey
          /\ KeyManagement.importError
               (KeyManagement.handleImportAttempt onAddKey rendered armoredKey
                  passphrase seeds s w).1 = None)
      \/ exists parsedKey,
           (KeyManagement.handleImportAttempt onAddKey rendered armoredKey passphrase
              seeds s w).2 = onAddKey parsedKey seeds w
           /\ armored parsedKey = armoredKey
           /\ KeyManagement.keyImportText
                (KeyManagement.handleImportAttempt onAddKey rendered armoredKey
                   passphrase seeds s w).1 = ""
           /\ KeyManagement.importError
                (KeyManagement.handleImportAttempt onAddKey rendered armoredKey
                   passphrase seeds s w).1 = None).
Proof.
  destruct (KeyManagement.readForImport armoredKey passphrase) as [[k|]|e] eqn:Hread.
  - destruct (hydrate k armoredKey) as [parsedKey|e] eqn:Hhydrate.
    + destruct (handleImportAttempt_imports rendered armoredKey passphrase seeds s w
                  k parsedKey Hread Hhydrate) as (Hw & He & Ht & _).
      split.
      * unfold KeyManagement.handleImportAttempt. rewrite Hread, Hhydrate.
        now destruct (KeyManagement.showImportPasswordModal rendered && _).
      * right. right. exists parsedKey.
        apply hydrate_fields in Hhydrate as [_ Harmored]. auto.
    + unfold KeyManagement.handleImportAttempt. rewrite Hread, Hhydrate.
      destruct (KeyManagement.showImportPasswordModal rendered && _); cbn; eauto.
  - apply readForImport_prompt in Hread as Hprompt. destruct Hprompt as [Habsent _].
    unfold KeyManagement.handleImportAttempt. rewrite Hread.
    destruct (KeyManagement.showImportPasswordModal rendered && _); cbn; auto 10.
  - unfold KeyManagement.handleImportAttempt. rewrite Hread.
    destruct (KeyManagement.showImportPasswordModal rendered && _); cbn; eauto.
Qed.

(** X27: [handleImportClick] hands the engine the pasted text with the white
    space at its ends removed.  When the engine reads that text as a key, at
    the first try ([readPrivateKey]) or, that try having failed with a
    message that does not contain "encrypted", at the second ([readKey]),
    the record built from the key is handed to [onAddKey] with the trimmed
    text as its armour; no prompt is opened, no error is shown and the text
    area is cleared.  A text of white space only sets the error and adds
    nothing. *)
Theorem import_click_imports_trimmed_text (st : KeyManagement.State)
    (seeds : nat -> Seed) (w : Home.World) (k : Key) (parsedKey : PGPKey) :
  blank (KeyManagement.keyImportText st) = false ->
  KeyManagement.showImportPasswordModal st = false ->
  (readPrivateKey_with (trim (KeyManagement.keyImportText st)) None = Ok k
   \/ exists privError,
        readPrivateKey_with (trim (KeyManagement.keyImportText st)) None = Throw privError
        /\ includes (message privError) "encrypted" = false
        /\ readKey (trim (KeyManagement.keyImportText st)) = Ok k) ->
  hydrate k (trim (KeyManagement.keyImportText st)) = Ok parsedKey ->
  ((KeyManagement.handleImportClick onAddKey st seeds w).2 = onAddKey parsedKey seeds w
   /\ armored parsedKey = trim (KeyManagement.keyImportText st)
   /\ keyObject parsedKey = k
   /\ KeyManagement.showImportPasswordModal
        (KeyManagement.handleImportClick onAddKey st seeds w).1 = false
   /\ KeyManagement.importError
        (KeyManagement.handleImportClick onAddKey st seeds w).1 = None
   /\ KeyManagement.keyImportText
        (KeyManagement.handleImportClick onAddKey st seeds w).1 = ""
   /\ KeyManagement.isImporting
        (KeyManagement.handleImportClick onAddKey st seeds w).1 = false)
  /\ forall st0 seeds0 w0,
       blank (KeyManagement.keyImportText st0) = true ->
       KeyManagement.handleImportClick onAddKey st0 seeds0 w0
       = (KeyManagement.setImportError (Some "请先粘贴 Armored PGP 密钥。") st0, w0).
Proof.
  intros Hblank Hmodal Hreads Hhydrate.
  assert (KeyManagement.readForImport (trim (KeyManagement.keyImportText st)) None
          = Ok (Some k)) as Hread.
  { destruct Hreads as [Hprivate | (privError & Hprivate & Hencrypted & Hpublic)].
    - unfold KeyManagement.readForImport. now rewrite Hprivate.
    - apply (readForImport_fallback _ _ privError); auto. }
  apply hydrate_fields in Hhydrate as Hfields. destruct Hfields as [Hobject Htext].
  split.
  - unfold KeyManagement.handleImportClick. rewrite Hblank.
    unfold KeyManagement.handleImportAttempt. rewrite Hread, Hhydrate, Hmodal.
    cbn. auto 10.
  - intros st0 seeds0 w0 Hblank0. unfold KeyManagement.handleImportClick.
    now rewrite Hblank0.
Qed.

(** X28: A passphrase the engine rejects is not reported when the staged
    text still reads as a key: [handleImportWithPassword] falls back to
    [readKey], records the key that call returns under the text as staged,
    and ends with the prompt closed and no error.  The passphrase has no
    part in what is recorded. *)
Theorem import_with_rejected_passphrase (st : KeyManagement.State)
    (password armoredKey : string) (seeds : nat -> Seed) (w : Home.World)
    (privError : JsError) (k : Key) (parsedKey : PGPKey) :
  KeyManagement.armoredKeyToImport st = Some armoredKey ->
  armoredKey <> "" ->
  password <> "" ->
  readPrivateKey_with armoredKey (Some password) = Throw privError ->
  readKey armoredKey = Ok k ->
  hydrate k armoredKey = Ok parsedKey ->
  (KeyManagement.handleImportWithPassword onAddKey st password seeds w).2
  = onAddKey parsedKey seeds w
  /\ keyObject parsedKey = k
  /\ armored parsedKey = armoredKey
  /\ KeyManagement.importError
       (KeyManagement.handleImportWithPassword onAddKey st password seeds w).1 = None
  /\ KeyManagement.showImportPasswordModal
       (KeyManagement.handleImportWithPassword onAddKey st password seeds w).1 = false
  /\ KeyManagement.armoredKeyToImport
       (KeyManagement.handleImportWithPassword onAddKey st password seeds w).1 = None.
Proof.
  intros Hstaged Harmored Hpassword Hprivate Hpublic Hhydrate.
  assert (KeyManagement.readForImport armoredKey (Some password) = Ok (Some k)) as Hread.
  { apply (readForImport_fallback _ _ privError); [assumption| |assumption].
    right. cbn. now apply String.eqb_neq. }
  unfold KeyManagement.handleImportWithPassword. rewrite Hstaged.
  assert (absent (Some armoredKey) = false) as -> by (cbn; now apply String.eqb_neq).
  apply hydrate_fields in Hhydrate as Hfields. destruct Hfields as [Hobject Htext].
  unfold KeyManagement.handleImportAttempt. rewrite Hread, Hhydrate, Hstaged.
  rewrite andb_false_r. cbn. auto 10.
Qed.

End ImportFacts.

Section GenerateFacts.
Context `{OpenPGP} `{Browser} `{!OpenPGPComponents}.



End GenerateFacts.


(** ** The check of the e-mail address *)

Section RegexFacts.

Lemma matches_Or_iff r1 r2 units :
  Regex.matches (Regex.Or r1 r2) units <-> Regex.matches r1 units \/ Regex.matches r2 units.
Proof.
  split.
  - inversion 1; subst; auto.
  - intros [Hl | Hr]; [now apply Regex.matches_Or_l | now apply Regex.matches_Or_r].
Qed.

Lemma matches_Then_iff r1 r2 units :
  Regex.matches (Regex.Then r1 r2) units
  <-> exists units1 units2,
        units = (units1 ++ units2)%list
        /\ Regex.matches r1 units1 /\ Regex.matches r2 units2.
Proof.
  split.
  - inversion 1; subst; eauto.
  - intros (units1 & units2 & -> & H1 & H2). now constructor.
Qed.

Lemma matches_Unit_iff p units :
  Regex.matches (Regex.Unit p) units <-> exists u, units = [u] /\ p u = true.
Proof.
  split.
  - inversion 1; subst; eauto.
  - intros (u & -> & Hp). now constructor.
Qed.

Lemma matches_Star_cons_inv r u units :
  Regex.matches (Regex.Star r) (u :: units) ->
  exists units1 units2,
    units = (units1 ++ units2)%list
    /\ Regex.matches r (u :: units1) /\ Regex.matches (Regex.Star r) units2.
Proof.
  intros Hm. remember (Regex.Star r) as star eqn:Hstar.
  remember (u :: units) as whole eqn:Hwhole.
  revert units Hwhole.
  induction Hm as [| | | | | r' | r' units1 units2 H1 _ H2 IH2];
    try discriminate; intros units Hwhole; injection Hstar as ->.
  destruct units1 as [| u' units1]; cbn in Hwhole.
  - now apply IH2.
  - injection Hwhole as -> <-. eauto.
Qed.

Lemma matches_Star_Any units : Regex.matches (Regex.Star Regex.Any) units.
Proof.
  induction units as [| u units IH]; [constructor |].
  change (u :: units) with ([u] ++ units)%list.
  constructor; [now constructor | exact IH].
Qed.

Lemma nullable_matches r : Regex.nullable r = true <-> Regex.matches r [].
Proof.
  induction r as [| | p | r1 IH1 r2 IH2 | r1 IH1 r2 IH2 | r IH]; cbn [Regex.nullable].
  - split; [discriminate | inversion 1].
  - split; [constructor | reflexivity].
  - split; [discriminate | inversion 1].
  - rewrite orb_true_iff, IH1, IH2, matches_Or_iff. reflexivity.
  - rewrite andb_true_iff, IH1, IH2, matches_Then_iff. split.
    + intros [H1 H2]. now exists [], [].
    + intros (units1 & units2 & Heq & H1 & H2).
      symmetry in Heq. apply app_eq_nil in Heq as [-> ->]. now split.
  - split; [constructor | reflexivity].
Qed.

Lemma derivative_matches u r :
  forall units,
    Regex.matches (Regex.derivative u r) units <-> Regex.matches r (u :: units).
Proof.
  induction r as [| | p | r1 IH1 r2 IH2 | r1 IH1 r2 IH2 | r IH];
    intros units; cbn [Regex.derivative].
  - split; inversion 1.
  - split; inversion 1.
  - rewrite matches_Unit_iff. destruct (p u) eqn:Hp.
    + split.
      * inversion 1; subst. eauto.
      * intros (u' & [= <- ->] & _). constructor.
    + split; [inversion 1 |]. intros (u' & [= <- ->] & Hp'). congruence.
  - rewrite !matches_Or_iff, IH1, IH2. reflexivity.
  - assert (Regex.matches (Regex.Then (Regex.derivative u r1) r2) units
            <-> exists units1 units2,
                  units = (units1 ++ units2)%list
                  /\ Regex.matches r1 (u :: units1) /\ Regex.matches r2 units2) as Hfirst.
    { rewrite matches_Then_iff. split;
        intros (units1 & units2 & -> & H1 & H2); exists units1, units2;
        (split; [reflexivity |]); (split; [| exact H2]); now apply IH1. }
    rewrite (matches_Then_iff r1 r2). destruct (Regex.nullable r1) eqn:Hnull.
    + rewrite matches_Or_iff, Hfirst, IH2. apply nullable_matches in Hnull. split.
      * intros [(units1 & units2 & -> & H1 & H2) | H2].
        -- now exists (u :: units1), units2.
        -- now exists [], (u :: units).
      * intros (units1 & units2 & Heq & H1 & H2).
        destruct units1 as [| u' units1]; cbn in Heq.
        -- subst units2. now right.
        -- injection Heq as <- ->. left. eauto.
    + rewrite Hfirst. split.
      * intros (units1 & units2 & -> & H1 & H2). now exists (u :: units1), units2.
      * intros (units1 & units2 & Heq & H1 & H2).
        destruct units1 as [| u' units1]; cbn in Heq.
        -- apply nullable_matches in H1. congruence.
        -- injection Heq as <- ->. eauto.
  - rewrite matches_Then_iff. split.
    + intros (units1 & units2 & -> & H1 & H2). apply IH in H1.
      change (u :: units1 ++ units2)%list with ((u :: units1) ++ units2)%list.
      now constructor.
    + intros Hstar. apply matches_Star_cons_inv in Hstar
        as (units1 & units2 & -> & H1 & H2).
      exists units1, units2. split; [reflexivity |]. split; [now apply IH | exact H2].
Qed.

Lemma matches_whole_matches units :
  forall r, Regex.matches_whole r units = true <-> Regex.matches r units.
Proof.
  induction units as [| u units IH]; intros r; cbn [Regex.matches_whole].
  - apply nullable_matches.
  - rewrite IH. apply derivative_matches.
Qed.

Lemma test_matches r units :
  Regex.test r units = true
  <-> exists before middle rest,
        units = (before ++ middle ++ rest)%list /\ Regex.matches r middle.
Proof.
  unfold Regex.test. rewrite matches_whole_matches, matches_Then_iff. split.
  - intros (before & tail & -> & _ & Htail).
    apply matches_Then_iff in Htail as (middle & rest & -> & Hmiddle & _).
    now exists before, middle, rest.
  - intros (before & middle & rest & -> & Hmiddle).
    exists before, (middle ++ rest)%list. split; [reflexivity |].
    split; [apply matches_Star_Any |].
    apply matches_Then_iff. exists middle, rest.
    split; [reflexivity |]. split; [exact Hmiddle | apply matches_Star_Any].
Qed.

(** X30: the e-mail check of [handleGenerateKey] passes exactly when some
    contiguous part of the text, read as UTF-16 code units, matches the
    pattern of line 187 in the usual sense of regular expressions: one or
    more units that are no white space, the unit of [@], one or more units
    that are no white space, the unit of the dot, one or more units that are
    no white space. *)
Theorem email_like_is_the_pattern (email : string) :
  KeyManagement.email_like email = true
  <-> exists before middle rest,
        code_units email = (before ++ middle ++ rest)%list
        /\ Regex.matches KeyManagement.EMAIL_PATTERN middle.
Proof.
  unfold KeyManagement.email_like.
  rewrite test_matches. reflexivity.
Qed.

End RegexFacts.


(** * The fixture satisfies the assumptions; the theorems at work on it *)

Lemma unseal_seal password text :
  Fixture.unseal (Fixture.seal password text) = Some (password, text).
Proof.
  induction password as [| c rest IH]; [reflexivity |].
  cbn [Fixture.seal Fixture.unseal]. now rewrite IH.
Qed.

Lemma fixture_readMessage_seal password text :
  @readMessage Fixture.engine (Fixture.seal password text) =
  Ok (Fixture.Sealed password text).
Proof.
  pose proof (unseal_seal password text) as Hu.
  destruct password as [| c rest]; cbn in *; [reflexivity |].
  now rewrite Hu.
Qed.

Lemma fixture_engine_laws : @OpenPGPLaws Fixture.engine.
Proof.
  split.
  - intros text pw seed m c [= <-] [= <-].
    exists (Fixture.Sealed pw text).
    split; [apply fixture_readMessage_seal |]. split.
    + cbn. now rewrite String.eqb_refl.
    + intros pw2 Hne. cbn.
      apply String.eqb_neq in Hne. rewrite Hne. eauto.
  - cbn. eauto.
Qed.

Lemma fixture_browser_laws : @BrowserLaws Fixture.browser.
Proof. split. reflexivity. Qed.

Lemma fixture_wording_laws : @OpenPGPLaws FixtureWording.engine.
Proof.
  split.
  - intros text pw seed m c [= <-] [= <-].
    exists (Fixture.Sealed pw text).
    split; [apply fixture_readMessage_seal |]. split.
    + cbn. now rewrite String.eqb_refl.
    + intros pw2 Hne. cbn.
      apply String.eqb_neq in Hne. rewrite Hne. eauto.
  - cbn. eauto.
Qed.

#[local] Existing Instance Fixture.engine.
#[local] Existing Instance Fixture.browser.
#[local] Existing Instance fixture_engine_laws.
#[local] Existing Instance fixture_browser_laws.

(** C1 at work, on the engine worded as OpenPGP.js: a public record and a
    private record wrapped under [Fixture.W], loaded with another password.
    No exception: the public key comes back alone. *)
Lemma load_wrong_password_follows_wording_witness :
  loadKeysFromStorage (H := FixtureWording.engine)
    (Fixture.store_of [FixtureWording.publicRecord; Fixture.privateRecord]) "wrong"
  = (Ok [FixtureWording.abcdKey],
     Fixture.store_of [FixtureWording.publicRecord; Fixture.privateRecord]).
Proof.
  destruct (load_wrong_password_follows_wording (H := FixtureWording.engine)
              (H1 := fixture_wording_laws)
              (Fixture.store_of [FixtureWording.publicRecord; Fixture.privateRecord])
              (Fixture.stringify
                 (JArr [FixtureWording.publicRecord; Fixture.privateRecord]))
              [FixtureWording.publicRecord] Fixture.privateRecord []
              "cafe" (Fixture.seal Fixture.W "Scafebeef") "Scafebeef" Fixture.W "wrong"
              [FixtureWording.abcdKey] [])
    as (e & Hfailure & _ & Hskipped).
  - vm_compute. reflexivity.
  - vm_compute. reflexivity.
  - split; reflexivity.
  - reflexivity.
  - exists tt. reflexivity.
  - intros Heq. vm_compute in Heq. discriminate.
  - apply survivors_valid; [| constructor].
    apply (valid_public (H := FixtureWording.engine) _ _ _ "abcd" "Pabcd1234"
             (Fixture.mkToyKey "abcd" "1234" false false));
      [split; reflexivity | reflexivity ..].
  - constructor.
  - apply Hskipped.
    destruct Hfailure as [Hread | (m & Hread & Hdecrypt)].
    + vm_compute in Hread. discriminate.
    + vm_compute in Hread. injection Hread as <-.
      vm_compute in Hdecrypt. injection Hdecrypt as <-. reflexivity.
Defined.

(** C4 at work, on the engine worded as OpenPGP.js: a wrong password is
    reported with the message of damaged data. *)
Lemma decryptData_wrong_password_follows_wording_witness :
  decryptData (H := FixtureWording.engine) (Fixture.seal Fixture.W "Scafebeef") "wrong"
  = Throw (mkError MSG_DECRYPT_FAILED).
Proof.
  destruct (decryptData_wrong_password_follows_wording (H := FixtureWording.engine)
              (H1 := fixture_wording_laws)
              "Scafebeef" Fixture.W (Fixture.seal Fixture.W "Scafebeef") "wrong")
    as (e & Hfailure & _ & Hunmarked).
  - exists tt. reflexivity.
  - intros Heq. vm_compute in Heq. discriminate.
  - apply Hunmarked.
    destruct Hfailure as [Hread | (m & Hread & Hdecrypt)].
    + vm_compute in Hread. discriminate.
    + vm_compute in Hread. injection Hread as <-.
      vm_compute in Hdecrypt. injection Hdecrypt as <-. reflexivity.
Defined.

(** C3 at work: a first master password on an empty storage. *)
Lemma verifyMasterPassword_correct_witness :
  verifyMasterPassword
    (<[MASTER_PASSWORD_VERIFIER_KEY := Fixture.seal Fixture.W VERIFIER_PLAINTEXT]> ∅)
    Fixture.W = Ok true /\
  verifyMasterPassword
    (<[MASTER_PASSWORD_VERIFIER_KEY := Fixture.seal Fixture.W VERIFIER_PLAINTEXT]> ∅)
    "wrong" = Ok false.
Proof.
  destruct (verifyMasterPassword_correct (H := Fixture.engine) ∅ Fixture.W tt
              (<[MASTER_PASSWORD_VERIFIER_KEY :=
                   Fixture.seal Fixture.W VERIFIER_PLAINTEXT]> ∅))
    as (Hsame & Hother & _).
  - vm_compute. reflexivity.
  - split; [exact Hsame |]. apply Hother.
    intros Heq. vm_compute in Heq. discriminate.
Defined.

(** C8 at work: one corrupted public record and one valid private record
    wrapped under [Fixture.W], in both orders. *)
Lemma load_skips_corrupted_records_witness :
  loadKeysFromStorage
    (Fixture.store_of [Fixture.corruptPublicRecord; Fixture.privateRecord]) Fixture.W
  = (Ok [Fixture.cafeKey],
     Fixture.store_of [Fixture.corruptPublicRecord; Fixture.privateRecord]) /\
  loadKeysFromStorage
    (Fixture.store_of [Fixture.privateRecord; Fixture.corruptPublicRecord]) Fixture.W
  = (Ok [Fixture.cafeKey],
     Fixture.store_of [Fixture.privateRecord; Fixture.corruptPublicRecord]).
Proof.
  assert (Hbad : corrupted Fixture.W Fixture.corruptPublicRecord).
  { apply (corrupted_public (H := Fixture.engine) _ _ "dead" "garbage" (mkError "Misformed armored text"));
      [split | |]; reflexivity. }
  assert (Hgood : valid Fixture.W Fixture.privateRecord Fixture.cafeKey).
  { apply (valid_private (H := Fixture.engine) _ _ _ "cafe" (Fixture.seal Fixture.W "Scafebeef") "Scafebeef"
             (Fixture.mkToyKey "cafe" "beef" true false));
      [split; reflexivity | reflexivity | exists tt; reflexivity | reflexivity | reflexivity]. }
  split.
  - apply (load_skips_corrupted_records _
             (Fixture.stringify (JArr [Fixture.corruptPublicRecord; Fixture.privateRecord]))
             [Fixture.corruptPublicRecord; Fixture.privateRecord]).
    + vm_compute. reflexivity.
    + vm_compute. reflexivity.
    + apply survivors_corrupted; [exact Hbad |].
      apply survivors_valid; [exact Hgood | apply survivors_nil].
  - apply (load_skips_corrupted_records _
             (Fixture.stringify (JArr [Fixture.privateRecord; Fixture.corruptPublicRecord]))
             [Fixture.privateRecord; Fixture.corruptPublicRecord]).
    + vm_compute. reflexivity.
    + vm_compute. reflexivity.
    + apply survivors_valid; [exact Hgood |].
      apply survivors_corrupted; [exact Hbad | apply survivors_nil].
Defined.

(** C5 as the claim states it fails: an entry whose persisted kind is
    [public] and whose data is the armour of a private key is loaded as a
    private record. *)
Lemma load_kind_recomputed_from_key :
  type_is_private Fixture.mislabelledRecord = false /\
  loadKeysFromStorage (Fixture.store_of [Fixture.mislabelledRecord]) Fixture.W
  = (Ok [Fixture.cafeKey], Fixture.store_of [Fixture.mislabelledRecord]) /\
  isPrivate Fixture.cafeKey = true.
Proof. split; [| split]; vm_compute; reflexivity. Qed.

(** C5 as the code has it, at work on the same entry. *)
Lemma loaded_record_from_parsed_key_witness :
  hydrate (keyObject Fixture.cafeKey) (armored Fixture.cafeKey) = Ok Fixture.cafeKey /\
  isPrivate Fixture.cafeKey = key_isPrivate (keyObject Fixture.cafeKey).
Proof.
  destruct (loaded_record_from_parsed_key
              (Fixture.store_of [Fixture.mislabelledRecord]) Fixture.W
              [Fixture.cafeKey] (Fixture.store_of [Fixture.mislabelledRecord])
              Fixture.cafeKey)
    as (_ & Hh & Hp & _).
  - vm_compute. reflexivity.
  - apply list_elem_of_here.
  - split; [exact Hh | exact Hp].
Defined.

(** C9 as the claim states it fails: the empty text does not parse, and the
    loader returns an empty list with the collection entry and the verifier
    still in storage. *)
Lemma load_empty_text_deletes_nothing :
  JSON_parse "" = None /\
  loadKeysFromStorage
    (<[STORAGE_KEY := ""]> (<[MASTER_PASSWORD_VERIFIER_KEY := "verifier"]> ∅)) Fixture.W
  = (Ok [], <[STORAGE_KEY := ""]> (<[MASTER_PASSWORD_VERIFIER_KEY := "verifier"]> ∅)) /\
  getItem (<[STORAGE_KEY := ""]> (<[MASTER_PASSWORD_VERIFIER_KEY := "verifier"]> ∅))
          MASTER_PASSWORD_VERIFIER_KEY = Some "verifier" /\
  getItem (<[STORAGE_KEY := ""]> (<[MASTER_PASSWORD_VERIFIER_KEY := "verifier"]> ∅))
          STORAGE_KEY = Some "".
Proof. split; [| split; [| split]]; vm_compute; reflexivity. Qed.

(** C9 as the code has it, at work: a collection that parses to an object. *)
Lemma load_unreadable_collection_witness :
  loadKeysFromStorage
    (<[STORAGE_KEY := "{}"]> (<[MASTER_PASSWORD_VERIFIER_KEY := "verifier"]> ∅)) Fixture.W
  = (Ok [],
     clearAllStoredKeys
       (<[STORAGE_KEY := "{}"]> (<[MASTER_PASSWORD_VERIFIER_KEY := "verifier"]> ∅))) /\
  getItem
    (clearAllStoredKeys
       (<[STORAGE_KEY := "{}"]> (<[MASTER_PASSWORD_VERIFIER_KEY := "verifier"]> ∅)))
    MASTER_PASSWORD_VERIFIER_KEY = None.
Proof.
  destruct (load_unreadable_collection
              (<[STORAGE_KEY := "{}"]> (<[MASTER_PASSWORD_VERIFIER_KEY := "verifier"]> ∅))
              "{}" Fixture.W)
    as [Hclear _].
  - vm_compute. reflexivity.
  - intros items Heq. vm_compute in Heq. discriminate.
  - destruct Hclear as (Hload & _ & Hv).
    + intros Heq. discriminate.
    + split; [exact Hload | exact Hv].
Defined.

(** C7 as the claim states it fails: with a verifier for another password in
    storage, [setMasterPassword] returns normally and the verifier is
    replaced. *)
Lemma setMasterPassword_replaces_existing_verifier :
  hasMasterPassword
    (<[MASTER_PASSWORD_VERIFIER_KEY := Fixture.seal "old" VERIFIER_PLAINTEXT]> ∅) = true /\
  setMasterPassword
    (<[MASTER_PASSWORD_VERIFIER_KEY := Fixture.seal "old" VERIFIER_PLAINTEXT]> ∅)
    "new" tt
  = (Ok tt, <[MASTER_PASSWORD_VERIFIER_KEY := Fixture.seal "new" VERIFIER_PLAINTEXT]> ∅) /\
  String.eqb (Fixture.seal "new" VERIFIER_PLAINTEXT)
             (Fixture.seal "old" VERIFIER_PLAINTEXT) = false.
Proof. split; [| split]; vm_compute; reflexivity. Qed.

(** C7 as the code has it, at work on the same storage. *)
Lemma setMasterPassword_overwrites_verifier_witness :
  setMasterPassword
    (<[MASTER_PASSWORD_VERIFIER_KEY := Fixture.seal "old" VERIFIER_PLAINTEXT]> ∅)
    "new" tt
  = (Ok tt,
     <[MASTER_PASSWORD_VERIFIER_KEY := Fixture.seal "new" VERIFIER_PLAINTEXT]>
       (<[MASTER_PASSWORD_VERIFIER_KEY := Fixture.seal "old" VERIFIER_PLAINTEXT]> ∅)).
Proof.
  destruct (setMasterPassword_overwrites_verifier (H := Fixture.engine)
              (<[MASTER_PASSWORD_VERIFIER_KEY := Fixture.seal "old" VERIFIER_PLAINTEXT]> ∅)
              "new" tt (Fixture.seal "new" VERIFIER_PLAINTEXT))
    as [Hset _].
  - vm_compute. reflexivity.
  - vm_compute. reflexivity.
  - reflexivity.
  - exact Hset.
Defined.

(** C2 at work: on an empty key list the private and then the public key
    of the pair [f00d] are imported through the callback of one render; the
    list ends with the public key alone. *)
Lemma addKey_stale_list_replaces_private_record_witness :
  Page.keys
    (Home.addKey_rendered (Fixture.home []) FixtureComponents.f00dPublic (fun _ => tt)
       (Home.addKey_rendered (Fixture.home []) FixtureComponents.f00dPrivate
          (fun _ => tt) ([], Fixture.home [], ∅))).1.2
  = [FixtureComponents.f00dPublic].
Proof.
  destruct (addKey_stale_list_replaces_private_record (H := Fixture.engine)
              (Fixture.home []) [] (Fixture.home []) ∅
              FixtureComponents.f00dPrivate FixtureComponents.f00dPublic
              (fun _ => tt) (fun _ => tt))
    as (_ & Hkeys & _).
  - intros k Hk. apply elem_of_nil in Hk. contradiction.
  - reflexivity.
  - reflexivity.
  - reflexivity.
  - exact Hkeys.
Defined.

(** C10 at work: an unlocked key is handed out under a passphrase that is
    not its own. *)
Lemma getDecryptedPrivateKeyArmored_unlocked_witness :
  Page.getDecryptedPrivateKeyArmored [Fixture.cafeKey] "cafe" (Some "not the passphrase")
  = Ok (Some "Scafebeef").
Proof.
  destruct (getDecryptedPrivateKeyArmored_unlocked [Fixture.cafeKey] "cafe") as [_ Hunlocked].
  apply (Hunlocked Fixture.cafeKey);
    [apply NoDup_singleton | apply list_elem_of_here | reflexivity ..].
Defined.

(** C6 at work: a message for the encryption subkey [beef] of a locked key
    whose own identifier is [cafe].  [handleDecryptClick] stages the message
    and opens the modal; the passphrase, the right one, is submitted; the
    attempt ends in the early return with the message still staged. *)
Lemma decrypt_submit_keeps_staged_message_witness :
  let awaiting :=
    DecryptMessage.handleDecryptClick [Fixture.lockedKey] [] Fixture.decryptStart in
  DecryptMessage.showKeyPasswordModal awaiting = true /\
  DecryptMessage.messageToDecrypt
    (DecryptMessage.handleKeyPasswordSubmit
       (Page.getDecryptedPrivateKeyArmored [Fixture.lockedKey])
       [Fixture.lockedKey] [] awaiting Fixture.PASSPHRASE)
  = Some (Fixture.Addressed "beef" "hello") /\
  DecryptMessage.showKeyPasswordModal
    (DecryptMessage.handleKeyPasswordSubmit
       (Page.getDecryptedPrivateKeyArmored [Fixture.lockedKey])
       [Fixture.lockedKey] [] awaiting Fixture.PASSPHRASE)
  = false.
Proof.
  intros awaiting.
  destruct (decrypt_submit_keeps_staged_message
              (Page.getDecryptedPrivateKeyArmored [Fixture.lockedKey])
              [Fixture.lockedKey] [] awaiting Fixture.PASSPHRASE
              (Fixture.Addressed "beef" "hello") "beef")
    as (Hmodal & _ & _ & Hstaged & _).
  - reflexivity.
  - reflexivity.
  - intros Heq. discriminate.
  - reflexivity.
  - split; [reflexivity |]. split; [exact Hstaged | exact Hmodal].
Defined.


(** ** The further theorems at work on the fixture *)

#[local] Existing Instance FixtureComponents.components.

(** X2 at work: a collection of one public record, loaded under two
    passwords. *)
Lemma load_public_collection_any_password_witness :
  loadKeysFromStorage (Fixture.store_of [Fixture.entry "abcd" "public" "Pabcd1234"]) "one"
  = loadKeysFromStorage (Fixture.store_of [Fixture.entry "abcd" "public" "Pabcd1234"])
      "another".
Proof.
  apply (load_public_collection_any_password (H := Fixture.engine)).
  intros text storedKeys Htext Hparse.
  vm_compute in Htext. injection Htext as <-.
  vm_compute in Hparse. injection Hparse as <-.
  repeat constructor.
Defined.

(** X4 at work: a private and a public key saved under [Fixture.W] and
    loaded again. *)
Lemma save_load_round_trip_witness :
  loadKeysFromStorage
    (saveKeysToStorage ∅ [Fixture.cafeKey; FixtureComponents.abcdKey] Fixture.W
       (fun _ => tt)).2
    Fixture.W
  = (Ok [Fixture.cafeKey; FixtureComponents.abcdKey],
     (saveKeysToStorage ∅ [Fixture.cafeKey; FixtureComponents.abcdKey] Fixture.W
        (fun _ => tt)).2).
Proof.
  apply (save_load_round_trip (H := Fixture.engine) ∅
           [Fixture.cafeKey; FixtureComponents.abcdKey] Fixture.W (fun _ => tt)).
  - vm_compute. reflexivity.
  - intros entries Hentries. vm_compute in Hentries. injection Hentries as <-.
    vm_compute. reflexivity.
  - repeat constructor.
Defined.

(** X5 at work, on the engine worded as OpenPGP.js: the collection of a
    public and a private key saved under [Fixture.W] and loaded under another
    password gives the public key alone. *)
Lemma save_load_other_password_witness :
  loadKeysFromStorage (H := FixtureWording.engine)
    (saveKeysToStorage (H := FixtureWording.engine) ∅
       [FixtureWording.abcdKey; FixtureWording.cafeKey] Fixture.W (fun _ => tt)).2
    "wrong"
  = (Ok [FixtureWording.abcdKey],
     (saveKeysToStorage (H := FixtureWording.engine) ∅
        [FixtureWording.abcdKey; FixtureWording.cafeKey] Fixture.W (fun _ => tt)).2).
Proof.
  destruct (save_load_other_password (H := FixtureWording.engine)
              (H1 := fixture_wording_laws) ∅
              [FixtureWording.abcdKey; FixtureWording.cafeKey] Fixture.W (fun _ => tt)
              (saveKeysToStorage (H := FixtureWording.engine) ∅
                 [FixtureWording.abcdKey; FixtureWording.cafeKey] Fixture.W
                 (fun _ => tt)).2
              "wrong" [FixtureWording.abcdKey])
    as [[id Habort] | Hpublic].
  - vm_compute. reflexivity.
  - intros entries Hentries. vm_compute in Hentries. injection Hentries as <-.
    vm_compute. reflexivity.
  - intros Heq. vm_compute in Heq. discriminate.
  - repeat constructor.
  - exfalso.
    assert (loadKeysFromStorage (H := FixtureWording.engine)
              (saveKeysToStorage (H := FixtureWording.engine) ∅
                 [FixtureWording.abcdKey; FixtureWording.cafeKey] Fixture.W
                 (fun _ => tt)).2 "wrong"
            = (Ok [FixtureWording.abcdKey],
               (saveKeysToStorage (H := FixtureWording.engine) ∅
                  [FixtureWording.abcdKey; FixtureWording.cafeKey] Fixture.W
                  (fun _ => tt)).2)) as Hload
      by (vm_compute; reflexivity).
    rewrite Hload in Habort. discriminate.
  - exact Hpublic.
Defined.

(** X6 at work: a key imported beside another and deleted again. *)
Lemma deleteKey_undoes_addKey_witness :
  (Home.deleteKey
     (Page.addKey (Fixture.home [FixtureComponents.abcdKey]) ∅ Fixture.cafeKey
        (fun _ => tt)).1.2
     (Page.addKey (Fixture.home [FixtureComponents.abcdKey]) ∅ Fixture.cafeKey
        (fun _ => tt)).2
     "cafe" true (fun _ => tt)).1.2
  = Fixture.home [FixtureComponents.abcdKey].
Proof.
  destruct (deleteKey_undoes_addKey (H := Fixture.engine)
              (Fixture.home [FixtureComponents.abcdKey]) ∅ Fixture.cafeKey
              (fun _ => tt) (fun _ => tt))
    as (_ & Hdeleted & _).
  - intros k Hk. apply list_elem_of_singleton in Hk. subst k. discriminate.
  - exact Hdeleted.
Defined.

(** X7 at work: the callback of a render that lists the unlocked private
    key [cafe] refuses the locked one, also when called in a later state. *)
Lemma deleteKey_unblocks_import_witness :
  Home.addKey_rendered (Fixture.home [FixtureComponents.abcdKey; Fixture.cafeKey])
    Fixture.lockedKey (fun _ => tt) ([], Fixture.home [FixtureComponents.abcdKey], ∅)
  = (["错误：具有相同 KeyID (" +:+ slice_last 8 "cafe" +:+ ") 的私钥已存在。"],
     Fixture.home [FixtureComponents.abcdKey], ∅).
Proof.
  destruct (deleteKey_unblocks_import (H := Fixture.engine)
              (Fixture.home [FixtureComponents.abcdKey; Fixture.cafeKey]) ∅
              Fixture.cafeKey Fixture.lockedKey
              (fun _ => tt) (fun _ => tt) (fun _ => tt))
    as (Hblocked & _).
  - apply NoDup_cons. split; [|apply NoDup_singleton].
    intros Hin. apply list_elem_of_singleton in Hin. discriminate.
  - apply list_elem_of_further, list_elem_of_here.
  - reflexivity.
  - reflexivity.
  - exact (Hblocked [] (Fixture.home [FixtureComponents.abcdKey]) ∅).
Defined.

(** X8 at work: an import on an empty storage. *)
Lemma first_run_import_not_saved_witness :
  (Page.addKey (Home.mount ∅) ∅ Fixture.cafeKey (fun _ => tt)).2 = ∅
  /\ Page.keys (Page.addKey (Home.mount ∅) ∅ Fixture.cafeKey (fun _ => tt)).1.2
     = [Fixture.cafeKey].
Proof.
  destruct (first_run_import_not_saved (H := Fixture.engine) ∅ Fixture.cafeKey
              (fun _ => tt))
    as (_ & _ & Hkeys & Hstorage & _).
  - reflexivity.
  - split; [exact Hstorage | exact Hkeys].
Defined.

(** X10 at work: the verifier of [Fixture.W], another password submitted. *)
Lemma wrong_master_password_stays_locked_witness :
  (Page.handleMasterPasswordSubmit (Home.mount
     (<[MASTER_PASSWORD_VERIFIER_KEY := Fixture.seal Fixture.W VERIFIER_PLAINTEXT]> ∅))
     (<[MASTER_PASSWORD_VERIFIER_KEY := Fixture.seal Fixture.W VERIFIER_PLAINTEXT]> ∅)
     "wrong" tt).2
  = <[MASTER_PASSWORD_VERIFIER_KEY := Fixture.seal Fixture.W VERIFIER_PLAINTEXT]> ∅.
Proof.
  destruct (wrong_master_password_stays_locked (H := Fixture.engine)
              (Home.mount
                 (<[MASTER_PASSWORD_VERIFIER_KEY :=
                      Fixture.seal Fixture.W VERIFIER_PLAINTEXT]> ∅))
              (<[MASTER_PASSWORD_VERIFIER_KEY :=
                   Fixture.seal Fixture.W VERIFIER_PLAINTEXT]> ∅)
              Fixture.W (Fixture.seal Fixture.W VERIFIER_PLAINTEXT) "wrong" tt)
    as (Hstorage & _).
  - vm_compute. reflexivity.
  - exists tt. reflexivity.
  - intros Heq. vm_compute in Heq. discriminate.
  - exact Hstorage.
Defined.

(** X11 at work: a first run on an empty storage, one key, lock and
    unlock. *)
Lemma lock_unlock_restores_keys_witness :
  Page.keys
    (Page.handleMasterPasswordSubmit
       (Home.lockApp
          (Page.addKey
             (Page.handleMasterPasswordSubmit (Home.mount ∅) ∅ Fixture.W tt).1
             (Page.handleMasterPasswordSubmit (Home.mount ∅) ∅ Fixture.W tt).2
             Fixture.cafeKey (fun _ => tt)).1.2)
       (Page.addKey
          (Page.handleMasterPasswordSubmit (Home.mount ∅) ∅ Fixture.W tt).1
          (Page.handleMasterPasswordSubmit (Home.mount ∅) ∅ Fixture.W tt).2
          Fixture.cafeKey (fun _ => tt)).2
       Fixture.W tt).1
  = [Fixture.cafeKey].
Proof.
  destruct (lock_unlock_restores_keys (H := Fixture.engine) (Home.mount ∅) ∅ Fixture.W tt
              (setMasterPassword (H := Fixture.engine) ∅ Fixture.W tt).2
              Fixture.cafeKey (fun _ => tt)
              (saveKeysToStorage
                 (setMasterPassword (H := Fixture.engine) ∅ Fixture.W tt).2
                 [Fixture.cafeKey] Fixture.W (fun _ => tt)).2
              Fixture.cafeKey tt)
    as (_ & _ & _ & _ & Hkeys & _).
  - reflexivity.
  - intros Heq. vm_compute in Heq. discriminate.
  - vm_compute. reflexivity.
  - vm_compute. reflexivity.
  - intros entries Hentries. vm_compute in Hentries. injection Hentries as <-.
    vm_compute. reflexivity.
  - reflexivity.
  - exact Hkeys.
Defined.


(** X12 at work: the unlocked key [cafe] signs at once. *)
Lemma sign_with_unlocked_key_witness :
  SignMessage.signedMessageOutput
    (SignMessage.handleSignClick [Fixture.cafeKey] FixtureComponents.signStart)
  = "signed:hello"
  /\ SignMessage.showKeyPasswordModal
       (SignMessage.handleSignClick [Fixture.cafeKey] FixtureComponents.signStart)
     = false.
Proof.
  destruct (sign_with_unlocked_key (H := Fixture.engine) [Fixture.cafeKey] Fixture.cafeKey)
    with (st := FixtureComponents.signStart)
    as (Hmodal & _ & _ & _ & Hout & _).
  - apply NoDup_singleton.
  - apply list_elem_of_here.
  - reflexivity.
  - reflexivity.
  - intros Heq. discriminate.
  - reflexivity.
  - reflexivity.
  - reflexivity.
  - split; [exact Hout | exact Hmodal].
Defined.

(** X13 at work: the locked key [cafe], the prompt, the right passphrase. *)
Lemma sign_with_locked_key_witness :
  SignMessage.signedMessageOutput
    (SignMessage.handleKeyPasswordSubmit
       (Page.getDecryptedPrivateKeyArmored [Fixture.lockedKey]) [Fixture.lockedKey]
       (SignMessage.handleSignClick [Fixture.lockedKey] FixtureComponents.signStart)
       Fixture.PASSPHRASE)
  = "signed:hello"
  /\ SignMessage.showKeyPasswordModal
       (SignMessage.handleSignClick [Fixture.lockedKey] FixtureComponents.signStart)
     = true.
Proof.
  destruct (sign_with_locked_key (H := Fixture.engine) [Fixture.lockedKey]
              Fixture.lockedKey)
    with (st := FixtureComponents.signStart) (passphrase := Fixture.PASSPHRASE)
         (unlocked := Fixture.mkToyKey "cafe" "beef" true false)
         (reread := Fixture.mkToyKey "cafe" "beef" true false)
         (message := Fixture.Literal "hello") (out := "signed:hello")
    as ((Hmodal & _) & Hout & _).
  - apply NoDup_singleton.
  - apply list_elem_of_here.
  - reflexivity.
  - reflexivity.
  - intros Heq. discriminate.
  - reflexivity.
  - reflexivity.
  - reflexivity.
  - intros Heq. discriminate.
  - reflexivity.
  - intros Heq. discriminate.
  - reflexivity.
  - reflexivity.
  - reflexivity.
  - split; [exact Hout | exact Hmodal].
Defined.

(** X14 at work, on the engine worded as OpenPGP.js: the locked key [cafe],
    a passphrase that is not its own; the general message is shown. *)
Lemma sign_with_wrong_passphrase_witness :
  SignMessage.error
    (SignMessage.handleKeyPasswordSubmit (H := FixtureWording.engine)
       (Page.getDecryptedPrivateKeyArmored [FixtureWording.lockedKey])
       [FixtureWording.lockedKey]
       (SignMessage.handleSignClick [FixtureWording.lockedKey]
          FixtureComponents.signStart)
       "not the passphrase")
  = Some "使用密码签名时出错: 解密密钥 cafe 失败。"
  /\ SignMessage.dataToSign
       (SignMessage.handleKeyPasswordSubmit (H := FixtureWording.engine)
          (Page.getDecryptedPrivateKeyArmored [FixtureWording.lockedKey])
          [FixtureWording.lockedKey]
          (SignMessage.handleSignClick [FixtureWording.lockedKey]
             FixtureComponents.signStart)
          "not the passphrase")
     = None.
Proof.
  destruct (sign_with_wrong_passphrase (H := FixtureWording.engine)
              [FixtureWording.lockedKey] FixtureWording.lockedKey)
    with (st := FixtureComponents.signStart) (passphrase := "not the passphrase")
         (e := mkError "Error decrypting private key: Incorrect key passphrase")
    as (_ & Herror & _ & Hstaged & _).
  - apply NoDup_singleton.
  - apply list_elem_of_here.
  - reflexivity.
  - reflexivity.
  - intros Heq. discriminate.
  - reflexivity.
  - reflexivity.
  - reflexivity.
  - intros Heq. discriminate.
  - reflexivity.
  - split; [exact Herror | exact Hstaged].
Defined.

(** X15 at work: an unsigned message for the subkey [beef] of the unlocked
    key [cafe] is decrypted, and the loading flag stays up. *)
Lemma decrypt_first_attempt_succeeds_witness :
  DecryptMessage.plaintext
    (DecryptMessage.handleDecryptClick [Fixture.cafeKey] [] Fixture.decryptStart)
  = "hello"
  /\ DecryptMessage.isLoading
       (DecryptMessage.handleDecryptClick [Fixture.cafeKey] [] Fixture.decryptStart)
     = true.
Proof.
  destruct (decrypt_first_attempt_succeeds (H := Fixture.engine) [Fixture.cafeKey] []
              Fixture.decryptStart (Fixture.Addressed "beef" "hello") "hello" [])
    as (Htext & _ & _ & _ & _ & _ & Hloading).
  - reflexivity.
  - reflexivity.
  - intros Heq. discriminate.
  - reflexivity.
  - split; [exact Htext | exact Hloading].
Defined.

(** X16 at work: the same message pasted after an earlier attempt. *)
Lemma decrypt_start_is_fresh_witness :
  DecryptMessage.handleDecryptClick [Fixture.cafeKey] [] Fixture.decryptStart
  = DecryptMessage.handleDecryptClick [Fixture.cafeKey] [] FixtureComponents.decryptAgain.
Proof.
  apply (decrypt_start_is_fresh (H := Fixture.engine)); reflexivity.
Defined.

(** X17 at work: the public key [abcd] is passed over, the locked key
    [cafe] unlocks under its passphrase and decrypts the message. *)
Lemma retryLoop_first_unlocking_key_witness :
  exists err,
    DecryptMessage.retryLoop
      (Page.getDecryptedPrivateKeyArmored [FixtureComponents.abcdKey; Fixture.lockedKey])
      [Fixture.lockedKey] [] (Fixture.Addressed "beef" "hello") Fixture.PASSPHRASE
      [FixtureComponents.abcdKey; Fixture.lockedKey] Fixture.decryptStart
    = DecryptMessage.handleDecryptAttempt [Fixture.lockedKey] []
        (Fixture.Addressed "beef" "hello") [Fixture.mkToyKey "cafe" "beef" true false]
        (DecryptMessage.setError err Fixture.decryptStart).
Proof.
  destruct (retryLoop_first_unlocking_key (H := Fixture.engine)
              (Page.getDecryptedPrivateKeyArmored
                 [FixtureComponents.abcdKey; Fixture.lockedKey])
              [Fixture.lockedKey] [] (Fixture.Addressed "beef" "hello")
              Fixture.PASSPHRASE [FixtureComponents.abcdKey] Fixture.lockedKey
              "Scafebeef" (Fixture.mkToyKey "cafe" "beef" true false) []
              Fixture.decryptStart)
    as [Hfirst _].
  - constructor; [|constructor]. right. left. exists None. split; reflexivity.
  - reflexivity.
  - intros Heq. discriminate.
  - reflexivity.
  - exact Hfirst.
Defined.

(** X18 at work: the same text signed after an earlier attempt. *)
Lemma sign_start_is_fresh_witness :
  SignMessage.handleSignClick [Fixture.cafeKey] FixtureComponents.signStart
  = SignMessage.handleSignClick [Fixture.cafeKey] FixtureComponents.signAgain.
Proof.
  apply (sign_start_is_fresh (H := Fixture.engine) [Fixture.cafeKey]
           FixtureComponents.signStart FixtureComponents.signAgain Fixture.cafeKey);
    try reflexivity.
  intros Heq. discriminate.
Defined.


(** X19 at work: a second recipient ticked. *)
Lemma handleRecipientChange_keeps_a_set_witness :
  NoDup (EncryptMessage.selectedKeyIds
           (EncryptMessage.handleRecipientChange "f00d" true
              (FixtureComponents.encryptStart ["abcd"])))
  /\ "f00d" ∈ EncryptMessage.selectedKeyIds
                (EncryptMessage.handleRecipientChange "f00d" true
                   (FixtureComponents.encryptStart ["abcd"])).
Proof.
  destruct (handleRecipientChange_keeps_a_set "f00d" true
              (FixtureComponents.encryptStart ["abcd"]))
    as [Hnodup Hmembers].
  - apply NoDup_singleton.
  - split; [exact Hnodup|]. apply Hmembers. now left.
Defined.

(** X20 at work: the second of three recipients has no key at hand. *)
Lemma handleEncrypt_missing_recipient_witness :
  EncryptMessage.handleEncrypt
    [Fixture.mkToyKey "abcd" "1234" false false; Fixture.mkToyKey "f00d" "feed" false false]
    (FixtureComponents.encryptStart ["abcd"; "dead"; "f00d"]) tt
  = EncryptMessage.mkState "hello" "" ["abcd"; "dead"; "f00d"] false
      (Some ("加密失败: 找不到 KeyID 为 " +:+ slice_last 8 "dead" +:+ " 的公钥对象。")).
Proof.
  apply (handleEncrypt_missing_recipient (H := Fixture.engine)
           [Fixture.mkToyKey "abcd" "1234" false false;
            Fixture.mkToyKey "f00d" "feed" false false]
           (FixtureComponents.encryptStart ["abcd"; "dead"; "f00d"]) tt
           ["abcd"] "dead" ["f00d"]).
  - reflexivity.
  - reflexivity.
  - intros id' Hid'. apply list_elem_of_singleton in Hid'. subst id'.
    exists (Fixture.mkToyKey "abcd" "1234" false false).
    split; [apply list_elem_of_here | reflexivity].
  - intros pk Hpk. apply elem_of_cons in Hpk as [-> | Hpk]; [discriminate|].
    apply list_elem_of_singleton in Hpk. subst pk. discriminate.
Defined.

(** X21 at work: one recipient, whose key is at hand. *)
Lemma handleEncrypt_selected_recipients_witness :
  exists keys,
    Forall2 (fun id k =>
               k ∈ [Fixture.mkToyKey "abcd" "1234" false false] /\ key_getKeyID k = id)
            ["abcd"] keys
    /\ EncryptMessage.handleEncrypt [Fixture.mkToyKey "abcd" "1234" false false]
         (FixtureComponents.encryptStart ["abcd"]) tt
       = match (message ← createMessage "hello"; encrypt_keys message keys tt) with
         | Ok encryptedArmored =>
             EncryptMessage.mkState "hello" encryptedArmored ["abcd"] false None
         | Throw err =>
             EncryptMessage.mkState "hello" "" ["abcd"] false
               (Some ("加密失败: " +:+ message err))
         end.
Proof.
  apply (handleEncrypt_selected_recipients (H := Fixture.engine)
           [Fixture.mkToyKey "abcd" "1234" false false]
           (FixtureComponents.encryptStart ["abcd"]) tt).
  - reflexivity.
  - intros Heq. discriminate.
  - intros id Hid. apply list_elem_of_singleton in Hid. subst id.
    exists (Fixture.mkToyKey "abcd" "1234" false false).
    split; [apply list_elem_of_here | reflexivity].
Defined.

(** X22 at work: the text emptied after an encryption. *)
Lemma handleEncrypt_rejected_input_keeps_ciphertext_witness :
  EncryptMessage.ciphertext
    (EncryptMessage.handleEncrypt [Fixture.mkToyKey "abcd" "1234" false false]
       (EncryptMessage.mkState "  " "@1234hello" ["abcd"] false None) tt)
  = "@1234hello".
Proof.
  destruct (handleEncrypt_rejected_input_keeps_ciphertext (H := Fixture.engine)
              [Fixture.mkToyKey "abcd" "1234" false false]
              (EncryptMessage.mkState "  " "@1234hello" ["abcd"] false None) tt)
    as (_ & Hciphertext & _).
  - left. reflexivity.
  - exact Hciphertext.
Defined.

(** X25 at work: a message signed by [cafe], verified with the key [abcd]
    alone. *)
Lemma handleVerify_rejected_signature_is_an_error_witness :
  VerifySignature.handleVerify [Fixture.mkToyKey "abcd" "1234" false false]
    (FixtureComponents.verifyStart "cafe:hello")
  = VerifySignature.mkState VerifySignature.cleartext "cafe:hello" "" None false
      (Some "验证失败: Could not find signing key with key ID cafe").
Proof.
  apply (handleVerify_rejected_signature_is_an_error (H := Fixture.engine)
           (H0 := FixtureComponents.components)
           [Fixture.mkToyKey "abcd" "1234" false false]
           (FixtureComponents.verifyStart "cafe:hello")
           (VerifyCleartext ("cafe", "hello"))
           (mkVerificationResult
              (Throw (mkError "Could not find signing key with key ID cafe")) "cafe")
           []
           (mkError "Could not find signing key with key ID cafe")).
  - reflexivity.
  - intros Hmode. discriminate.
  - intros Heq. discriminate.
  - reflexivity.
  - reflexivity.
  - reflexivity.
Defined.

(** The white space of [trim] and of the pattern at work: an ideographic
    space and a no-break space are blank, a zero-width space is not; [trim]
    strips them from both ends; an address that ends in a dot followed by an
    ideographic space does not pass the check. *)
Lemma white_space_at_work :
  blank "　" = true /\ blank " " = true /\ blank "​" = false
  /\ trim "　 a　b  " = "a　b"
  /\ KeyManagement.email_like "a@b.　" = false
  /\ KeyManagement.email_like "　@b.c" = false
  /\ KeyManagement.email_like "ada@example.org" = true.
Proof. repeat split; reflexivity. Qed.

(** X27 at work: the armour of the public key [abcd] pasted with an
    ideographic space before it and a space after it. *)
Lemma import_click_imports_trimmed_text_witness :
  (KeyManagement.handleImportClick (Home.addKey_rendered (Fixture.home []))
     (FixtureComponents.keyManagementStart "　Pabcd1234 ") (fun _ => tt)
     ([], Fixture.home [], ∅)).2
  = Home.addKey_rendered (Fixture.home []) FixtureComponents.abcdKey (fun _ => tt)
      ([], Fixture.home [], ∅).
Proof.
  destruct (import_click_imports_trimmed_text (H := Fixture.engine)
              (Home.addKey_rendered (Fixture.home []))
              (FixtureComponents.keyManagementStart "　Pabcd1234 ") (fun _ => tt)
              ([], Fixture.home [], ∅)
              (Fixture.mkToyKey "abcd" "1234" false false) FixtureComponents.abcdKey)
    as ((Hworld & _) & _).
  - reflexivity.
  - reflexivity.
  - right. exists (mkError "Armored text not of type private key").
    repeat split; reflexivity.
  - reflexivity.
  - exact Hworld.
Defined.

(** X28 at work: the locked key [cafe] staged, a passphrase that is not its
    own submitted: the key is recorded, locked as it was. *)
Lemma import_with_rejected_passphrase_witness :
  (KeyManagement.handleImportWithPassword (Home.addKey_rendered (Fixture.home []))
     (KeyManagement.setArmoredKeyToImport (Some "Lcafebeef")
        (KeyManagement.setShowImportPasswordModal true
           (FixtureComponents.keyManagementStart "Lcafebeef")))
     "not the passphrase" (fun _ => tt) ([], Fixture.home [], ∅)).2
  = Home.addKey_rendered (Fixture.home []) Fixture.lockedKey (fun _ => tt)
      ([], Fixture.home [], ∅).
Proof.
  destruct (import_with_rejected_passphrase (H := Fixture.engine)
              (Home.addKey_rendered (Fixture.home []))
              (KeyManagement.setArmoredKeyToImport (Some "Lcafebeef")
                 (KeyManagement.setShowImportPasswordModal true
                    (FixtureComponents.keyManagementStart "Lcafebeef")))
              "not the passphrase" "Lcafebeef" (fun _ => tt) ([], Fixture.home [], ∅)
              (mkError "Error decrypting private key: Incorrect key passphrase")
              (Fixture.mkToyKey "cafe" "beef" true true) Fixture.lockedKey)
    as (Hworld & _).
  - reflexivity.
  - intros Heq. discriminate.
  - intros Heq. discriminate.
  - reflexivity.
  - reflexivity.
  - reflexivity.
  - exact Hworld.
Defined.



(** X24 at work: a message signed by [cafe], verified with the key [cafe]
    at hand. *)
Lemma handleVerify_valid_iff_first_verified_witness :
  exists text,
    VerifySignature.verificationResult
      (VerifySignature.handleVerify [Fixture.mkToyKey "cafe" "beef" false false]
         (FixtureComponents.verifyStart "cafe:hello"))
    = Some text
    /\ String.prefix "✔️" text = true.
Proof.
  destruct (handleVerify_valid_iff_first_verified (H := Fixture.engine)
              (H0 := FixtureComponents.components)
              [Fixture.mkToyKey "cafe" "beef" false false]
              (FixtureComponents.verifyStart "cafe:hello"))
    as [_ Hvalid].
  apply Hvalid. split; [reflexivity|]. split; [intros Hmode; discriminate|].
  split; [intros Heq; discriminate|].
  exists (VerifyCleartext ("cafe", "hello")),
         (mkVerificationResult (Ok true) "cafe"), [].
  repeat split.
Defined.
